(** * AeyeWire MCP service: protocol engine and analysis pipeline

    A shallow embedding of the Go sources (packages [models], [services],
    [analyzers] and [main]) together with the properties stated for them.

    Go strings are byte sequences: they are [string] in records and
    [list ascii] inside the matching engine.  Go maps are [gmap]s; the
    order in which a [range] statement visits a map is not fixed by the
    language, so every [range] over a map takes the visiting order as an
    explicit argument. *)

From Stdlib Require Import Ascii String NArith ZArith.
From stdpp Require Import base option list gmap strings pretty.

Local Open Scope string_scope.
Local Open Scope list_scope.

(** ** Bytes *)

Module Bytes.

Definition code (c : ascii) : N := N_of_ascii c.

Definition between (lo hi c : ascii) : bool :=
  ((code lo <=? code c) && (code c <=? code hi))%N.

Definition eq (a c : ascii) : bool := Ascii.eqb a c.
Global Arguments eq : simpl never.

Definition one_of (l : list ascii) (c : ascii) : bool := existsb (eq c) l.

Definition nl : ascii := "010"%char.
Definition tab : ascii := "009"%char.
Definition vt : ascii := "011"%char.
Definition ff : ascii := "012"%char.
Definition cr : ascii := "013"%char.
Definition sp : ascii := " "%char.
Definition dq : ascii := "034"%char.

Definition digit : ascii -> bool := between "0" "9".
Definition lower : ascii -> bool := between "a" "z".
Definition upper : ascii -> bool := between "A" "Z".

Definition of_string : string -> list ascii := list_ascii_of_string.
Definition to_string : list ascii -> string := string_of_list_ascii.

End Bytes.

Coercion Bytes.of_string : string >-> list.

(** ** Package [regexp]

    The subset of RE2 syntax that the sources use.  Every starred item in
    the sources is a single character class, so repetition is over a class;
    [x+] is [x x*] and [x?] is [(x|)].  Matching is the backtracking search
    whose first success Go's leftmost-first semantics returns.  All
    literals and class boundaries in the sources are ASCII, so matching
    bytes instead of UTF-8 runes finds the same matches. *)

Module Regexp.

Inductive regexp : Type :=
| Eps
| Chr (p : ascii -> bool)
| Cat (r1 r2 : regexp)
| Alt (r1 r2 : regexp)
| Rep (greedy : bool) (p : ascii -> bool)
| Grp (n : nat) (r : regexp).

Definition captures := list (nat * list ascii).

Fixpoint lit (s : list ascii) : regexp :=
  match s with
  | [] => Eps
  | [c] => Chr (Bytes.eq c)
  | c :: s' => Cat (Chr (Bytes.eq c)) (lit s')
  end.

Definition plus (p : ascii -> bool) : regexp := Cat (Chr p) (Rep true p).
Definition opt (r : regexp) : regexp := Alt r Eps.

Fixpoint alts (rs : list regexp) : regexp :=
  match rs with
  | [] => Eps
  | [r] => r
  | r :: rs' => Alt r (alts rs')
  end.

Fixpoint cats (rs : list regexp) : regexp :=
  match rs with
  | [] => Eps
  | [r] => r
  | r :: rs' => Cat r (cats rs')
  end.

(** Perl classes as RE2 defines them. *)
Definition cls_s : ascii -> bool :=
  Bytes.one_of [Bytes.tab; Bytes.nl; Bytes.ff; Bytes.cr; Bytes.sp].
Definition cls_w (c : ascii) : bool :=
  Bytes.digit c || Bytes.upper c || Bytes.lower c || Bytes.eq "_" c.
Definition cls_any (c : ascii) : bool := true.
Definition cls_dot (c : ascii) : bool := negb (Bytes.eq Bytes.nl c).
Definition cls_not (a : ascii) (c : ascii) : bool := negb (Bytes.eq a c).

Section Run.
Context {A : Type}.

Fixpoint rep_greedy (p : ascii -> bool) (s : list ascii)
    (k : list ascii -> option A) : option A :=
  match s with
  | c :: s' =>
      if p c then
        match rep_greedy p s' k with
        | Some a => Some a
        | None => k s
        end
      else k s
  | [] => k []
  end.

Fixpoint rep_lazy (p : ascii -> bool) (s : list ascii)
    (k : list ascii -> option A) : option A :=
  match k s with
  | Some a => Some a
  | None =>
      match s with
      | c :: s' => if p c then rep_lazy p s' k else None
      | [] => None
      end
  end.

Fixpoint run (r : regexp) (s : list ascii) (cs : captures)
    (k : list ascii -> captures -> option A) : option A :=
  match r with
  | Eps => k s cs
  | Chr p =>
      match s with
      | c :: s' => if p c then k s' cs else None
      | [] => None
      end
  | Cat r1 r2 => run r1 s cs (fun s' cs' => run r2 s' cs' k)
  | Alt r1 r2 =>
      match run r1 s cs k with
      | Some a => Some a
      | None => run r2 s cs k
      end
  | Rep true p => rep_greedy p s (fun s' => k s' cs)
  | Rep false p => rep_lazy p s (fun s' => k s' cs)
  | Grp n r1 =>
      run r1 s cs
        (fun s' cs' => k s' ((n, take (length s - length s') s) :: cs'))
  end.
End Run.

(** A match anchored at the head of [s]: what is left of [s] after the
    match, and the captures. *)
Definition match_here (r : regexp) (s : list ascii)
    : option (list ascii * captures) :=
  run r s [] (fun s' cs => Some (s', cs)).

(** Leftmost match: bytes before it, the match, bytes after it, captures. *)
Fixpoint find_from (r : regexp) (before : list ascii) (s : list ascii)
    : option (list ascii * list ascii * list ascii * captures) :=
  match match_here r s with
  | Some (rest, cs) =>
      Some (before, take (length s - length rest) s, rest, cs)
  | None =>
      match s with
      | c :: s' => find_from r (before ++ [c]) s'
      | [] => None
      end
  end.

Definition find (r : regexp) (s : list ascii) := find_from r [] s.

Definition MatchString (r : regexp) (s : string) : bool :=
  bool_decide (is_Some (find r s)).

Fixpoint NumSubexp (r : regexp) : nat :=
  match r with
  | Eps | Chr _ | Rep _ _ => 0
  | Cat r1 r2 | Alt r1 r2 => NumSubexp r1 `max` NumSubexp r2
  | Grp n r1 => n `max` NumSubexp r1
  end.

Fixpoint group (cs : captures) (n : nat) : list ascii :=
  match cs with
  | [] => []
  | (m, t) :: cs' => if decide (m = n) then t else group cs' n
  end.

(** [FindStringSubmatch]: the empty slice when nothing matches, else the
    whole match followed by the text of each group. *)
Definition FindStringSubmatch (r : regexp) (s : string) : list string :=
  match find r s with
  | None => []
  | Some (_, m, _, cs) =>
      Bytes.to_string m
        :: map (fun n => Bytes.to_string (group cs n)) (seq 1 (NumSubexp r))
  end.

(** [ReplaceAllString] with a replacement holding no [$]: scanning left
    to right, each leftmost match is replaced and the search resumes
    after it.  [skip] counts the bytes of the current match still to be
    dropped; [fresh] is false right after a match, where Go does not
    replace an empty match. *)
Fixpoint replace_from (r : regexp) (repl : list ascii) (skip : nat)
    (fresh : bool) (s : list ascii) : list ascii :=
  match skip with
  | S n =>
      match s with
      | _ :: s' => replace_from r repl n false s'
      | [] => []
      end
  | O =>
      match match_here r s with
      | Some (rest, _) =>
          match length s - length rest with
          | S n =>
              repl ++
              match s with
              | _ :: s' => replace_from r repl n false s'
              | [] => []
              end
          | O =>
              (if fresh then repl else []) ++
              match s with
              | c :: s' => c :: replace_from r repl 0 true s'
              | [] => []
              end
          end
      | None =>
          match s with
          | c :: s' => c :: replace_from r repl 0 true s'
          | [] => []
          end
      end
  end.

Definition ReplaceAllString (r : regexp) (src repl : string) : string :=
  Bytes.to_string (replace_from r repl 0 true src).

End Regexp.

(** ** Packages [strings] and [path/filepath] *)

Module Strings.

(** [strings.ToLower] on bytes: ASCII upper-case letters are lowered.
    The only non-ASCII runes whose lower case is ASCII are U+0130 (to i)
    and U+212A (to k); neither letter occurs in a recognised extension. *)
Definition lower_byte (c : ascii) : ascii :=
  if Bytes.upper c then ascii_of_N (Bytes.code c + 32) else c.

Definition ToLower (s : string) : string :=
  Bytes.to_string (map lower_byte s).

(** Encodings of the runes for which [unicode.IsSpace] holds. *)
Definition spaces : list (list ascii) :=
  [ ["009"]; ["010"]; ["011"]; ["012"]; ["013"]; ["032"];
    ["194"; "133"]; ["194"; "160"]; ["225"; "154"; "128"];
    ["226"; "128"; "128"]; ["226"; "128"; "129"]; ["226"; "128"; "130"];
    ["226"; "128"; "131"]; ["226"; "128"; "132"]; ["226"; "128"; "133"];
    ["226"; "128"; "134"]; ["226"; "128"; "135"]; ["226"; "128"; "136"];
    ["226"; "128"; "137"]; ["226"; "128"; "138"]; ["226"; "128"; "168"];
    ["226"; "128"; "169"]; ["226"; "128"; "175"]; ["226"; "129"; "159"];
    ["227"; "128"; "128"] ]%char.

Fixpoint strip_prefix (p s : list ascii) : option (list ascii) :=
  match p, s with
  | [], _ => Some s
  | a :: p', c :: s' => if Bytes.eq a c then strip_prefix p' s' else None
  | _ :: _, [] => None
  end.

Fixpoint strip_any (ps : list (list ascii)) (s : list ascii)
    : option (list ascii) :=
  match ps with
  | [] => None
  | p :: ps' =>
      match strip_prefix p s with
      | Some s' => Some s'
      | None => strip_any ps' s
      end
  end.

(** Drops leading space runes; [fuel] bounds the number of runes. *)
Fixpoint trim_left (ps : list (list ascii)) (fuel : nat) (s : list ascii)
    : list ascii :=
  match fuel with
  | O => s
  | S n =>
      match strip_any ps s with
      | Some s' => trim_left ps n s'
      | None => s
      end
  end.

Definition TrimSpace (s : string) : string :=
  let l := trim_left spaces (String.length s) s in
  let r := trim_left (map (@rev ascii) spaces) (length l) (rev l) in
  Bytes.to_string (rev r).

(** [filepath.Ext] with [/] as the separator: the suffix from the last
    dot of the last path element. *)
Fixpoint ext_rev (acc : list ascii) (s : list ascii) : list ascii :=
  match s with
  | [] => []
  | c :: s' =>
      if Bytes.eq "/" c then []
      else if Bytes.eq "." c then c :: acc
      else ext_rev (c :: acc) s'
  end.

Definition Ext (path : string) : string :=
  Bytes.to_string (ext_rev [] (rev (Bytes.of_string path))).

End Strings.

(** ** Package [models] *)

Module Models.

Abbreviation LanguageType := string (only parsing).

Definition CSHARP : LanguageType := "csharp".
Definition REACT_TYPESCRIPT : LanguageType := "react_typescript".
Definition REACT_JAVASCRIPT : LanguageType := "react_javascript".
Definition JAVA : LanguageType := "java".
Definition UNKNOWN : LanguageType := "unknown".

Abbreviation SeverityLevel := string (only parsing).

Definition LOW : SeverityLevel := "LOW".
Definition MEDIUM : SeverityLevel := "MEDIUM".
Definition HIGH : SeverityLevel := "HIGH".
Definition CRITICAL : SeverityLevel := "CRITICAL".

Record SecurityIssue : Type := mkSecurityIssue {
  ID : string;
  Title : string;
  Description : string;
  Severity : SeverityLevel;
  LineNumber : Z;
  ColumnNumber : Z;
  FilePath : string;
  CodeSnippet : string;
  Remediation : string;
  References : list string
}.

Record AnalysisMetadata : Type := mkAnalysisMetadata {
  AnalysisTime : string;
  IssuesFound : Z;
  CriticalCount : Z;
  HighCount : Z;
  MediumCount : Z;
  LowCount : Z;
  DetectedLanguage : LanguageType;
  Errors : list string
}.

Record AnalysisResult : Type := mkAnalysisResult {
  Language : LanguageType;
  Issues : list SecurityIssue;
  Summary : string;
  Metadata : AnalysisMetadata
}.

Record HealthCheckResponse : Type := mkHealthCheckResponse {
  Status : string;
  Version : string;
  LLMServiceStatus : string;
  SupportedLanguages : list string
}.

Record LanguageInfo : Type := mkLanguageInfo {
  Identifier : string;
  InfoDescription : string;
  Extensions : list string
}.

End Models.

(** ** Package [services]: the language detector *)

Module Detector.
Import Regexp Models.

Record LanguageDetector : Type := mkLanguageDetector {
  patterns : gmap string (list regexp)
}.

Definition import_react : regexp :=
  cats [lit "import"; plus cls_s; Rep true cls_dot; lit "from"; plus cls_s;
        Chr (Bytes.one_of ["'"%char; Bytes.dq]); lit "react";
        Chr (Bytes.one_of ["'"%char; Bytes.dq])].

Definition jsx_tag : regexp :=
  cats [lit "<"; plus cls_w; Rep true (cls_not ">"); lit ">"].

Definition visibility : regexp :=
  alts [lit "public"; lit "private"; lit "protected"].

Definition java_patterns : list regexp :=
  [ cats [lit "package"; plus cls_s; Chr Bytes.lower;
          Rep true (fun c => Bytes.lower c || Bytes.digit c
                             || Bytes.one_of ["_"; "."]%char c);
          lit ";"];
    cats [lit "import"; plus cls_s;
          Grp 1 (alts [lit "java"; lit "javax"; lit "org"]); lit "."];
    cats [lit "public"; plus cls_s;
          Grp 1 (alts [lit "class"; lit "interface"; lit "enum"]);
          plus cls_s; plus cls_w];
    cats [lit "@";
          Grp 1 (alts [lit "Override"; lit "Autowired"; lit "Entity";
                       lit "Controller"; lit "Service"; lit "Repository"])];
    cats [Grp 1 visibility; plus cls_s;
          opt (Grp 2 (cats [lit "static"; plus cls_s]));
          Grp 3 (alts [lit "void"; lit "int"; lit "String"; lit "boolean"])] ].

Definition csharp_patterns : list regexp :=
  [ cats [lit "using"; plus cls_s; lit "System"];
    cats [lit "namespace"; plus cls_s; plus cls_w];
    cats [Grp 1 visibility; plus cls_s;
          Grp 2 (alts [lit "class"; lit "interface"; lit "struct"]);
          plus cls_s; plus cls_w];
    cats [lit "[assembly:"; Rep true cls_s; plus cls_w];
    cats [opt (Grp 1 (cats [lit "async"; plus cls_s])); lit "Task<"] ].

Definition react_typescript_patterns : list regexp :=
  [ import_react;
    cats [lit "interface"; plus cls_s; plus cls_w; Rep true cls_s; lit "{"];
    cats [lit "type"; plus cls_s; plus cls_w; Rep true cls_s; lit "="];
    cats [lit ":"; Rep true cls_s; opt (Grp 1 (lit "React.")); lit "FC<"];
    jsx_tag ].

Definition react_javascript_patterns : list regexp :=
  [ import_react;
    lit "React.createElement";
    alts [lit "useState"; lit "useEffect"; lit "useCallback"; lit "useMemo"];
    jsx_tag;
    cats [lit "export"; plus cls_s;
          opt (Grp 1 (cats [lit "default"; plus cls_s]));
          Grp 2 (alts [lit "function"; lit "const"]);
          plus cls_s; plus cls_w] ].

Definition initializePatterns (ld : LanguageDetector) : LanguageDetector :=
  let p := patterns ld in
  let p := <[JAVA := java_patterns]> p in
  let p := <[CSHARP := csharp_patterns]> p in
  let p := <[REACT_TYPESCRIPT := react_typescript_patterns]> p in
  let p := <[REACT_JAVASCRIPT := react_javascript_patterns]> p in
  {| patterns := p |}.

Definition NewLanguageDetector : LanguageDetector :=
  initializePatterns {| patterns := ∅ |}.

Definition DetectFromExtension (filePath : string) : LanguageType :=
  if decide (filePath = "") then UNKNOWN
  else
    let ext := Strings.ToLower (Strings.Ext filePath) in
    if decide (ext = ".java") then JAVA
    else if decide (ext = ".cs") then CSHARP
    else if decide (ext = ".tsx") then REACT_TYPESCRIPT
    else if decide (ext = ".ts") then REACT_TYPESCRIPT
    else if decide (ext = ".jsx") then REACT_JAVASCRIPT
    else if decide (ext = ".js") then REACT_JAVASCRIPT
    else UNKNOWN.

(** The order in which one evaluation of [DetectFromContent] visits the
    keys of [ld.patterns] and then those of [scores]. *)
Record Visit : Type := mkVisit {
  visit_patterns : list string;
  visit_scores : list string
}.

(** The inner loop: one point for [lang] per pattern matching [code]. *)
Definition scoreLanguage (code : string) (lang : string)
    (scores : gmap string Z) (ps : list regexp) : gmap string Z :=
  foldl (fun sc p =>
           if MatchString p code
           then <[lang := (default 0 (sc !! lang) + 1)%Z]> sc
           else sc)
        scores ps.

(** The first loop, visiting the languages in the order [o]; a key that
    is not in the map is never visited. *)
Definition scoreAll (ld : LanguageDetector) (o : list string)
    (code : string) : gmap string Z :=
  foldl (fun sc lang =>
           match patterns ld !! lang with
           | Some ps => scoreLanguage code lang sc ps
           | None => sc
           end)
        ∅ o.

(** The second loop: [(maxScore, detectedLang)] after visiting [o]. *)
Definition pickMax (scores : gmap string Z) (o : list string)
    : Z * LanguageType :=
  foldl (fun '(maxScore, detectedLang) lang =>
           match scores !! lang with
           | Some score =>
               if (maxScore <? score)%Z then (score, lang)
               else (maxScore, detectedLang)
           | None => (maxScore, detectedLang)
           end)
        (0%Z, UNKNOWN) o.

Definition DetectFromContent (ld : LanguageDetector) (v : Visit)
    (code : string) : LanguageType :=
  (pickMax (scoreAll ld (visit_patterns v) code) (visit_scores v)).2.

(** [Detect] evaluates the content stage once for the check of a React
    extension and once more when it falls through; [v1] and [v2] are the
    visiting orders of the two evaluations. *)
Definition Detect (ld : LanguageDetector) (v1 v2 : Visit)
    (code filePath : string) : LanguageType :=
  let fallback := DetectFromContent ld v2 code in
  if decide (filePath ≠ "") then
    let lang := DetectFromExtension filePath in
    if decide (lang ≠ UNKNOWN) then
      if decide (lang = REACT_TYPESCRIPT ∨ lang = REACT_JAVASCRIPT) then
        let contentLang := DetectFromContent ld v1 code in
        if decide (contentLang = lang) then lang else fallback
      else lang
    else fallback
  else fallback.

Definition GetSupportedLanguages (ld : LanguageDetector)
    : list LanguageInfo :=
  [ {| Identifier := CSHARP; InfoDescription := "C# programming language";
       Extensions := [".cs"] |};
    {| Identifier := REACT_TYPESCRIPT;
       InfoDescription := "React with TypeScript";
       Extensions := [".tsx"; ".ts"] |};
    {| Identifier := REACT_JAVASCRIPT;
       InfoDescription := "React with JavaScript";
       Extensions := [".jsx"; ".js"] |};
    {| Identifier := JAVA; InfoDescription := "Java programming language";
       Extensions := [".java"] |} ].

(** [o] is an order in which [range m] may visit [m]: every key once. *)
Definition range_order {V} (m : gmap string V) (o : list string) : Prop :=
  o ≡ₚ (map_to_list m).*1.

Definition visit_ok (ld : LanguageDetector) (code : string) (v : Visit)
    : Prop :=
  range_order (patterns ld) (visit_patterns v)
  ∧ range_order (scoreAll ld (visit_patterns v) code) (visit_scores v).

End Detector.

(** ** Package [encoding/json]: reading

    JSON text is split into tokens by a byte-at-a-time scanner and the
    tokens are parsed into a [value].  String literals are unquoted as Go
    does it, with [\u] escapes re-encoded as UTF-8 and unpaired surrogates
    replaced by U+FFFD; bytes outside escapes are kept as they are (Go
    replaces ill-formed UTF-8, which a reply decoded by the backend client
    never holds).  A number keeps its literal. *)

Module Json.

Inductive value : Type :=
| Null
| Bool (b : bool)
| Number (literal : string)
| Str (s : string)
| Array (elems : list value)
| Object (members : list (string * value)).

Inductive token : Type :=
| TLBrace | TRBrace | TLBracket | TRBracket | TColon | TComma
| TString (s : string)
| TNumber (literal : string)
| TTrue | TFalse | TNull.

Definition is_ws : ascii -> bool :=
  Bytes.one_of [Bytes.sp; Bytes.tab; Bytes.nl; Bytes.cr].

Definition is_word (c : ascii) : bool :=
  Bytes.digit c || Bytes.lower c || Bytes.upper c
  || Bytes.one_of ["+"; "-"; "."]%char c.

Definition punct (c : ascii) : option token :=
  if Bytes.eq "{" c then Some TLBrace
  else if Bytes.eq "}" c then Some TRBrace
  else if Bytes.eq "[" c then Some TLBracket
  else if Bytes.eq "]" c then Some TRBracket
  else if Bytes.eq ":" c then Some TColon
  else if Bytes.eq "," c then Some TComma
  else None.

(** Number literals: an optional minus; a zero or a digit run not led by
    zero; optionally a dot and digits; optionally an exponent. *)
Fixpoint digits1 (seen : bool) (s : list ascii) : option (list ascii) :=
  match s with
  | c :: s' => if Bytes.digit c then digits1 true s'
               else if seen then Some s else None
  | [] => if seen then Some [] else None
  end.

Definition number_int (s : list ascii) : option (list ascii) :=
  match s with
  | c :: s' =>
      if Bytes.eq "0" c then Some s'
      else if Bytes.digit c then digits1 true s'
      else None
  | [] => None
  end.

Definition number_frac (s : list ascii) : option (list ascii) :=
  match s with
  | c :: s' => if Bytes.eq "." c then digits1 false s' else Some s
  | [] => Some []
  end.

Definition number_exp (s : list ascii) : option (list ascii) :=
  match s with
  | c :: s' =>
      if Bytes.one_of ["e"; "E"]%char c then
        match s' with
        | d :: s'' =>
            if Bytes.one_of ["+"; "-"]%char d then digits1 false s''
            else digits1 false s'
        | [] => None
        end
      else Some s
  | [] => Some []
  end.

Definition is_number (s : list ascii) : bool :=
  let s1 := match s with
            | c :: s' => if Bytes.eq "-" c then s' else s
            | [] => s
            end in
  match number_int s1 with
  | Some s2 =>
      match number_frac s2 with
      | Some s3 =>
          match number_exp s3 with
          | Some [] => true
          | _ => false
          end
      | None => false
      end
  | None => false
  end.

(** The token a finished run of word bytes stands for; the empty run
    stands for none. *)
Definition word_token (w : list ascii) : option (list token) :=
  match w with
  | [] => Some []
  | _ =>
      let s := Bytes.to_string w in
      if decide (s = "true") then Some [TTrue]
      else if decide (s = "false") then Some [TFalse]
      else if decide (s = "null") then Some [TNull]
      else if is_number w then Some [TNumber s]
      else None
  end.

Definition utf8 (n : N) : list ascii :=
  let b (x : N) := ascii_of_N x in
  if (n <? 128)%N then [b n]
  else if (n <? 2048)%N then
    [b (192 + n / 64); b (128 + n mod 64)]%N
  else if (n <? 65536)%N then
    [b (224 + n / 4096); b (128 + (n / 64) mod 64); b (128 + n mod 64)]%N
  else
    [b (240 + n / 262144); b (128 + (n / 4096) mod 64);
     b (128 + (n / 64) mod 64); b (128 + n mod 64)]%N.

Definition replacement : list ascii := utf8 65533.

Definition hex_digit (c : ascii) : option N :=
  if Bytes.digit c then Some (Bytes.code c - 48)%N
  else if Bytes.between "a" "f" c then Some (Bytes.code c - 87)%N
  else if Bytes.between "A" "F" c then Some (Bytes.code c - 55)%N
  else None.

Definition is_high (u : N) : bool := ((55296 <=? u) && (u <? 56320))%N.
Definition is_low (u : N) : bool := ((56320 <=? u) && (u <? 57344))%N.

(** The bytes a pending high surrogate turns into when no low surrogate
    follows it. *)
Definition flush_hi (hi : option N) : list ascii :=
  match hi with Some _ => replacement | None => [] end.

Definition escape (c : ascii) : option ascii :=
  if Bytes.one_of [Bytes.dq; "\"%char; "/"%char] c then Some c
  else if Bytes.eq "b" c then Some "008"%char
  else if Bytes.eq "f" c then Some Bytes.ff
  else if Bytes.eq "n" c then Some Bytes.nl
  else if Bytes.eq "r" c then Some Bytes.cr
  else if Bytes.eq "t" c then Some Bytes.tab
  else None.

(** Scanner states: between tokens or inside a run of word bytes
    ([Word], with the run so far); inside a string literal ([InStr],
    with the bytes decoded so far and a high surrogate waiting for its
    low half); after a backslash; inside the hex digits of [\u]. *)
Inductive state : Type :=
| Word (w : list ascii)
| InStr (acc : list ascii) (hi : option N)
| InEsc (acc : list ascii) (hi : option N)
| InHex (acc : list ascii) (hi : option N) (todo : nat) (u : N).

(** What a completed [\u] escape with code unit [u] adds. *)
Definition unit_done (acc : list ascii) (hi : option N) (u : N) : state :=
  match hi with
  | Some h =>
      if is_low u then
        InStr (acc ++ utf8 (65536 + (h - 55296) * 1024 + (u - 56320))%N) None
      else if is_high u then InStr (acc ++ replacement) (Some u)
      else InStr (acc ++ replacement ++ utf8 u) None
  | None =>
      if is_high u then InStr acc (Some u)
      else if is_low u then InStr (acc ++ replacement) None
      else InStr (acc ++ utf8 u) None
  end.

(** One byte: the tokens it completes and the next state. *)
Definition step (st : state) (c : ascii) : option (list token * state) :=
  match st with
  | Word w =>
      if is_word c then Some ([], Word (w ++ [c]))
      else
        ts ← word_token w;
        if is_ws c then Some (ts, Word [])
        else if Bytes.eq Bytes.dq c then Some (ts, InStr [] None)
        else t ← punct c; Some (ts ++ [t], Word [])
  | InStr acc hi =>
      if Bytes.eq Bytes.dq c then
        Some ([TString (Bytes.to_string (acc ++ flush_hi hi))], Word [])
      else if Bytes.eq "\" c then Some ([], InEsc acc hi)
      else if (Bytes.code c <? 32)%N then None
      else Some ([], InStr (acc ++ flush_hi hi ++ [c]) None)
  | InEsc acc hi =>
      if Bytes.eq "u" c then Some ([], InHex acc hi 4 0)
      else e ← escape c; Some ([], InStr (acc ++ flush_hi hi ++ [e]) None)
  | InHex acc hi todo u =>
      d ← hex_digit c;
      match todo with
      | 0 => None
      | 1 => Some ([], unit_done acc hi (u * 16 + d)%N)
      | S n => Some ([], InHex acc hi n (u * 16 + d)%N)
      end
  end.

(** The end of the text: a pending word is completed; a literal left
    open is an error. *)
Definition finish (st : state) : option (list token) :=
  match st with
  | Word w => word_token w
  | _ => None
  end.

Fixpoint scan (st : state) (s : list ascii) : option (list token) :=
  match s with
  | [] => finish st
  | c :: s' =>
      '(ts, st') ← step st c;
      (ts ++.) <$> scan st' s'
  end.

Definition tokens (s : string) : option (list token) := scan (Word []) s.

(** Go refuses text nested deeper than this. *)
Definition maxNestingDepth : nat := 10000.

(** Recursive descent over the tokens; [depth] counts the arrays and
    objects that are open. *)
Fixpoint parse_value (fuel depth : nat) (ts : list token)
    : option (value * list token) :=
  match fuel with
  | O => None
  | S n =>
      match ts with
      | TNull :: r => Some (Null, r)
      | TTrue :: r => Some (Bool true, r)
      | TFalse :: r => Some (Bool false, r)
      | TNumber l :: r => Some (Number l, r)
      | TString s :: r => Some (Str s, r)
      | TLBracket :: r =>
          if decide (maxNestingDepth < S depth) then None
          else
            match r with
            | TRBracket :: r' => Some (Array [], r')
            | _ =>
                '(vs, r') ← parse_elems n (S depth) r;
                Some (Array vs, r')
            end
      | TLBrace :: r =>
          if decide (maxNestingDepth < S depth) then None
          else
            match r with
            | TRBrace :: r' => Some (Object [], r')
            | _ =>
                '(ms, r') ← parse_members n (S depth) r;
                Some (Object ms, r')
            end
      | _ => None
      end
  end
with parse_elems (fuel depth : nat) (ts : list token)
    : option (list value * list token) :=
  match fuel with
  | O => None
  | S n =>
      '(v, r) ← parse_value n depth ts;
      match r with
      | TComma :: r' =>
          '(vs, r'') ← parse_elems n depth r';
          Some (v :: vs, r'')
      | TRBracket :: r' => Some ([v], r')
      | _ => None
      end
  end
with parse_members (fuel depth : nat) (ts : list token)
    : option (list (string * value) * list token) :=
  match fuel with
  | O => None
  | S n =>
      match ts with
      | TString k :: TColon :: r =>
          '(v, r') ← parse_value n depth r;
          match r' with
          | TComma :: r'' =>
              '(ms, r''') ← parse_members n depth r'';
              Some ((k, v) :: ms, r''')
          | TRBrace :: r'' => Some ([(k, v)], r'')
          | _ => None
          end
      | _ => None
      end
  end.

Definition parse_tokens (ts : list token) : option value :=
  match parse_value (S (length ts)) 0 ts with
  | Some (v, []) => Some v
  | _ => None
  end.

Definition parse (s : string) : option value :=
  tokens s ≫= parse_tokens.

End Json.

(** ** Package [encoding/json]: decoding into the Go types of [models]

    A decoder gets the value its target holds and the JSON value: [null]
    leaves the target as it is (a slice becomes nil), a value of the wrong
    kind is an error, and a member whose key matches no field is skipped.
    Keys match field names up to case folding.  Array elements are decoded
    into the elements the slice already holds, as Go does when a key is
    repeated; what a third repetition may find beyond the length of the
    slice is not modelled. *)

Module Unmarshal.
Import Json Models.

(** [foldName]: ASCII letters to upper case; the two non-ASCII runes that
    fold onto ASCII letters, U+017F and U+212A, to [S] and [K]. *)
Fixpoint foldName (s : list ascii) : list ascii :=
  match s with
  | "197"%char :: "191"%char :: s' => "S"%char :: foldName s'
  | "226"%char :: "132"%char :: "170"%char :: s' => "K"%char :: foldName s'
  | c :: s' =>
      (if Bytes.lower c then ascii_of_N (Bytes.code c - 32) else c)
        :: foldName s'
  | [] => []
  end.

Definition key_is (field key : string) : bool :=
  bool_decide (foldName key = foldName field).

Definition dec_string (cur : string) (v : value) : option string :=
  match v with
  | Null => Some cur
  | Str s => Some s
  | _ => None
  end.

(** [strconv.ParseInt(literal, 10, 64)] on a JSON number literal. *)
Definition parse_int (l : list ascii) : option Z :=
  let '(neg, ds) := match l with
                    | c :: l' => if Bytes.eq "-" c then (true, l') else (false, l)
                    | [] => (false, l)
                    end in
  if forallb Bytes.digit ds then
    let n := foldl (fun a c => (a * 10 + Z.of_N (Bytes.code c - 48))%Z) 0%Z ds in
    let z := if neg then (- n)%Z else n in
    if decide (- 2 ^ 63 ≤ z < 2 ^ 63)%Z then Some z else None
  else None.

Definition dec_int (cur : Z) (v : value) : option Z :=
  match v with
  | Null => Some cur
  | Number l => parse_int l
  | _ => None
  end.

Section Slice.
Context {A : Type} (dec : A -> value -> option A) (zero : A).

Fixpoint dec_elems (cur : list A) (vs : list value) : option (list A) :=
  match vs with
  | [] => Some []
  | v :: vs' =>
      a ← dec (hd zero cur) v;
      (a ::.) <$> dec_elems (tl cur) vs'
  end.

Definition dec_slice (cur : list A) (v : value) : option (list A) :=
  match v with
  | Null => Some []
  | Array vs => dec_elems cur vs
  | _ => None
  end.
End Slice.

Definition zeroIssue : SecurityIssue :=
  mkSecurityIssue "" "" "" "" 0 0 "" "" "" [].

Definition set_field (i : SecurityIssue) (key : string) (v : value)
    : option SecurityIssue :=
  let '(mkSecurityIssue id ti de se ln cn fp sn re rf) := i in
  if key_is "id" key then
    x ← dec_string id v; Some (mkSecurityIssue x ti de se ln cn fp sn re rf)
  else if key_is "title" key then
    x ← dec_string ti v; Some (mkSecurityIssue id x de se ln cn fp sn re rf)
  else if key_is "description" key then
    x ← dec_string de v; Some (mkSecurityIssue id ti x se ln cn fp sn re rf)
  else if key_is "severity" key then
    x ← dec_string se v; Some (mkSecurityIssue id ti de x ln cn fp sn re rf)
  else if key_is "line_number" key then
    x ← dec_int ln v; Some (mkSecurityIssue id ti de se x cn fp sn re rf)
  else if key_is "column_number" key then
    x ← dec_int cn v; Some (mkSecurityIssue id ti de se ln x fp sn re rf)
  else if key_is "file_path" key then
    x ← dec_string fp v; Some (mkSecurityIssue id ti de se ln cn x sn re rf)
  else if key_is "code_snippet" key then
    x ← dec_string sn v; Some (mkSecurityIssue id ti de se ln cn fp x re rf)
  else if key_is "remediation" key then
    x ← dec_string re v; Some (mkSecurityIssue id ti de se ln cn fp sn x rf)
  else if key_is "references" key then
    x ← dec_slice dec_string "" rf v;
    Some (mkSecurityIssue id ti de se ln cn fp sn re x)
  else Some i.

Definition dec_issue (cur : SecurityIssue) (v : value)
    : option SecurityIssue :=
  match v with
  | Null => Some cur
  | Object ms => foldl (fun acc m => i ← acc; set_field i m.1 m.2) (Some cur) ms
  | _ => None
  end.

Definition dec_issues : list SecurityIssue -> value -> option (list SecurityIssue) :=
  dec_slice dec_issue zeroIssue.

(** [json.Unmarshal([]byte(text), &issues)] with [issues] a nil slice. *)
Definition issues (text : string) : option (list SecurityIssue) :=
  parse text ≫= dec_issues [].

(** [json.Unmarshal([]byte(text), &wrapper)] where [wrapper] is a struct
    with the one field [Issues], tagged [issues]; the result is that
    field. *)
Definition dec_wrapper (v : value) : option (list SecurityIssue) :=
  match v with
  | Null => Some []
  | Object ms =>
      foldl (fun acc m =>
               cur ← acc;
               if key_is "issues" m.1 then dec_issues cur m.2 else Some cur)
            (Some []) ms
  | _ => None
  end.

Definition wrapper (text : string) : option (list SecurityIssue) :=
  parse text ≫= dec_wrapper.

End Unmarshal.

(** ** Package [encoding/json]: writing

    [MarshalIndent] with an empty prefix.  Strings are escaped as Go
    escapes ASCII; bytes from 128 up are copied. *)

Module Marshal.
Import Json Models.

Definition hex (n : N) : ascii :=
  if (n <? 10)%N then ascii_of_N (48 + n) else ascii_of_N (87 + n).

Definition escape_byte (c : ascii) : list ascii :=
  if Bytes.one_of [Bytes.dq; "\"%char] c then ["\"%char; c]
  else if Bytes.eq Bytes.nl c then ["\"; "n"]%char
  else if Bytes.eq Bytes.cr c then ["\"; "r"]%char
  else if Bytes.eq Bytes.tab c then ["\"; "t"]%char
  else if (Bytes.code c <? 32)%N || Bytes.one_of ["<"; ">"; "&"]%char c then
    ["\"; "u"; "0"; "0"]%char
      ++ [hex (Bytes.code c / 16); hex (Bytes.code c mod 16)]
  else [c].

Definition quote (s : string) : string :=
  Bytes.to_string ([Bytes.dq] ++ mbind escape_byte (Bytes.of_string s)
                   ++ [Bytes.dq]).

Fixpoint spaces (indent : string) (depth : nat) : string :=
  match depth with
  | O => ""
  | S n => (indent +:+ spaces indent n)%string
  end.

Definition newline (indent : string) (depth : nat) : string :=
  (String Bytes.nl "" +:+ spaces indent depth)%string.

Fixpoint encode (indent : string) (depth : nat) (v : value) : string :=
  match v with
  | Null => "null"
  | Bool true => "true"
  | Bool false => "false"
  | Number l => l
  | Str s => quote s
  | Array [] => "[]"
  | Array (v0 :: vs) =>
      ("[" +:+ newline indent (S depth) +:+ encode indent (S depth) v0
       +:+ (fix rest (l : list value) : string :=
              match l with
              | [] => ""
              | x :: l' =>
                  "," +:+ newline indent (S depth)
                  +:+ encode indent (S depth) x +:+ rest l'
              end) vs
       +:+ newline indent depth +:+ "]")%string
  | Object [] => "{}"
  | Object ((k0, v0) :: ms) =>
      ("{" +:+ newline indent (S depth) +:+ quote k0 +:+ ": "
       +:+ encode indent (S depth) v0
       +:+ (fix rest (l : list (string * value)) : string :=
              match l with
              | [] => ""
              | (k, x) :: l' =>
                  "," +:+ newline indent (S depth) +:+ quote k +:+ ": "
                  +:+ encode indent (S depth) x +:+ rest l'
              end) ms
       +:+ newline indent depth +:+ "}")%string
  end.

Definition MarshalIndent (v : value) (indent : string) : string :=
  encode indent 0 v.

(** The fields of the two structs that are serialised, in declaration
    order and under their tags. *)
Definition of_HealthCheckResponse (h : HealthCheckResponse) : value :=
  Object [ ("status", Str (Status h));
           ("version", Str (Version h));
           ("llm_service_status", Str (LLMServiceStatus h));
           ("supported_languages", Array (Str <$> SupportedLanguages h)) ].

Definition of_LanguageInfo (l : LanguageInfo) : value :=
  Object [ ("identifier", Str (Identifier l));
           ("description", Str (InfoDescription l));
           ("extensions", Array (Str <$> Extensions l)) ].

End Marshal.

(** ** Package [main]: the envelopes *)

Module Protocol.

Record MCPRequest : Type := mkMCPRequest {
  req_JSONRPC : string;
  req_ID : Json.value;
  Method : string;
  Params : gmap string Json.value
}.

Record MCPError : Type := mkMCPError {
  Code : Z;
  Message : string
}.

Record MCPResponse : Type := mkMCPResponse {
  JSONRPC : string;
  ID : Json.value;
  Result : option Json.value;
  Error : option MCPError
}.

End Protocol.

(** ** The world outside the program

    [env] is what the outside answers: the backend, the clock, the order
    of map iteration, the text of library errors, and the rule prompts,
    which are static text.  [world] is what the program has done to the
    outside so far: the calls it made and the responses it printed.  The
    program is a state transformer over [world]. *)

Module World.

Inductive http_outcome : Type :=
| RequestError (err : string)
| TransportError (err : string)
| Response (status : Z).

Record env : Type := mkEnv {
  llm_analyze : string -> string -> string + string;
  llm_probe : http_outcome;
  elapsed : string;
  visit_first : Detector.Visit;
  visit_second : Detector.Visit;
  visit_analyzers : list string;
  unmarshal_error : string -> string;
  java_rules : string;
  csharp_rules : string;
  react_rules : string;
  react_typescript_rules : string;
  react_format : string
}.

Inductive call : Type :=
| CallDetect (code filePath : string)
| CallAnalyze (code prompt : string)
| CallHealthCheck.

Record world : Type := mkWorld {
  calls : list call;
  stdout : list Protocol.MCPResponse
}.

Definition M (A : Type) : Type := world -> A * world.

Definition ret {A} (a : A) : M A := fun w => (a, w).

Definition bind {A B} (m : M A) (f : A -> M B) : M B :=
  fun w => let '(a, w') := m w in f a w'.

Definition record (c : call) : M unit :=
  fun w => (tt, {| calls := calls w ++ [c]; stdout := stdout w |}).

Definition Println (r : Protocol.MCPResponse) : M unit :=
  fun w => (tt, {| calls := calls w; stdout := stdout w ++ [r] |}).

Definition initial : world := {| calls := []; stdout := [] |}.

End World.

Declare Scope io_scope.
Delimit Scope io_scope with io.
Notation "x <- m ;; k" := (World.bind m (fun x => k))
  (at level 100, m at next level, right associativity) : io_scope.
Notation "m ;;; k" := (World.bind m (fun _ => k))
  (at level 100, right associativity) : io_scope.

(** ** Package [services]: the backend client

    What crosses the wire is outside the program; the client's two entry
    points are modelled by what they return. *)

Module LLMService.
Import World.

Definition Analyze (e : env) (code prompt : string) : M (string + string) :=
  (record (CallAnalyze code prompt) ;;; ret (llm_analyze e code prompt))%io.

Definition HealthCheck (e : env) : M (bool * option string) :=
  (record CallHealthCheck ;;;
   ret match llm_probe e with
       | RequestError err => (false, Some err)
       | TransportError err => (false, Some err)
       | Response status => (bool_decide (status = 200%Z), None)
       end)%io.

End LLMService.

(** ** Package [analyzers] *)

Module Analyzers.
Import Regexp Models World.

Record BaseSecurityAnalyzer : Type := mkBase {
  Language : LanguageType
}.

Definition NewBaseAnalyzer (language : LanguageType) : BaseSecurityAnalyzer :=
  {| Language := language |}.

Definition multiLineComment : regexp :=
  cats [lit "/*"; Rep false cls_any; lit "*/"].

Definition singleLineComment : regexp :=
  cats [lit "//"; Rep true cls_dot].

Definition removeComments (code : string) : string :=
  let code := ReplaceAllString multiLineComment code "" in
  let code := ReplaceAllString singleLineComment code "" in
  code.

Definition PreprocessCode (code : string) (language : LanguageType) : string :=
  if decide (language = JAVA ∨ language = CSHARP
             ∨ language = REACT_TYPESCRIPT ∨ language = REACT_JAVASCRIPT)
  then removeComments code
  else code.

Definition codeBlockRegex : regexp :=
  cats [lit "```"; opt (lit "json"); Rep true cls_s;
        Grp 1 (Rep false cls_any); lit "```"].

Definition jsonRegex : regexp :=
  Grp 1 (Alt (cats [lit "["; Rep true cls_any; lit "]"])
             (cats [lit "{"; Rep true cls_any; lit "}"])).

Definition extractJSON (response : string) : string :=
  let matches := FindStringSubmatch codeBlockRegex response in
  if decide (1 < length matches) then Strings.TrimSpace (nth 1 matches "")
  else
    let matches := FindStringSubmatch jsonRegex response in
    if decide (1 < length matches) then Strings.TrimSpace (nth 1 matches "")
    else response.

(** The enrichment loop over [issues], [i] being the index of the head. *)
Fixpoint enrich (filePath : string) (i : nat) (issues : list SecurityIssue)
    : list SecurityIssue :=
  match issues with
  | [] => []
  | x :: rest =>
      let '(mkSecurityIssue id ti de se ln cn fp sn re rf) := x in
      let fp := if decide (fp = "") then filePath else fp in
      let id := if decide (id = "")
                then ("ISSUE-" +:+ pretty (Z.of_nat i + 1)%Z)%string
                else id in
      mkSecurityIssue id ti de se ln cn fp sn re rf
        :: enrich filePath (S i) rest
  end.

Definition parseIssuesFromResponse (e : env) (response filePath : string)
    : list SecurityIssue + string :=
  let jsonStr := extractJSON response in
  let decoded :=
    match Unmarshal.issues jsonStr with
    | Some issues => inl issues
    | None =>
        match Unmarshal.wrapper jsonStr with
        | Some issues => inl issues
        | None =>
            inr ("failed to parse issues: " +:+ unmarshal_error e jsonStr)%string
        end
    end in
  match decoded with
  | inl issues => inl (enrich filePath 0 issues)
  | inr err => inr err
  end.

Definition count_severity (md : AnalysisMetadata) (issue : SecurityIssue)
    : AnalysisMetadata :=
  let '(mkAnalysisMetadata t n c h m l d errs) := md in
  let s := Severity issue in
  if decide (s = CRITICAL) then mkAnalysisMetadata t n (c + 1) h m l d errs
  else if decide (s = HIGH) then mkAnalysisMetadata t n c (h + 1) m l d errs
  else if decide (s = MEDIUM) then mkAnalysisMetadata t n c h (m + 1) l d errs
  else if decide (s = LOW) then mkAnalysisMetadata t n c h m (l + 1) d errs
  else md.

Definition generateMetadata (issues : list SecurityIssue)
    (language : LanguageType) (duration : string) : AnalysisMetadata :=
  let metadata :=
    {| AnalysisTime := duration;
       IssuesFound := Z.of_nat (length issues);
       DetectedLanguage := language;
       CriticalCount := 0; HighCount := 0; MediumCount := 0; LowCount := 0;
       Errors := [] |} in
  foldl count_severity metadata issues.

Definition tally (acc : Z * Z * Z * Z) (issue : SecurityIssue) : Z * Z * Z * Z :=
  let '(critical, high, medium, low) := acc in
  let s := Severity issue in
  if decide (s = CRITICAL) then (critical + 1, high, medium, low)%Z
  else if decide (s = HIGH) then (critical, high + 1, medium, low)%Z
  else if decide (s = MEDIUM) then (critical, high, medium + 1, low)%Z
  else if decide (s = LOW) then (critical, high, medium, low + 1)%Z
  else acc.

Definition generateSummary (issues : list SecurityIssue) : string :=
  if decide (length issues = 0) then "No security issues detected."
  else
    let '(critical, high, medium, low) := foldl tally (0, 0, 0, 0)%Z issues in
    ("Found " +:+ pretty (Z.of_nat (length issues)) +:+ " security issue(s): "
     +:+ pretty critical +:+ " critical, " +:+ pretty high +:+ " high, "
     +:+ pretty medium +:+ " medium, " +:+ pretty low +:+ " low.")%string.

Definition AnalyzeWithLLM (ba : BaseSecurityAnalyzer) (e : env)
    (code filePath securityRulesPrompt : string)
    : M (AnalysisResult + string) :=
  (let preprocessed := PreprocessCode code (Language ba) in
   reply <- LLMService.Analyze e preprocessed securityRulesPrompt ;;
   match reply with
   | inr err => ret (inr ("LLM analysis failed: " +:+ err)%string)
   | inl response =>
       match parseIssuesFromResponse e response filePath with
       | inr err => ret (inr ("failed to parse LLM response: " +:+ err)%string)
       | inl issues =>
           let metadata := generateMetadata issues (Language ba) (elapsed e) in
           let summary := generateSummary issues in
           ret (inl {| Models.Language := Language ba;
                       Issues := issues;
                       Summary := summary;
                       Metadata := metadata |})
       end
   end)%io.

Local Open Scope string_scope.

Definition nl : string := String Bytes.nl "".

Definition writeIssue (sb : string) (issue : SecurityIssue) : string :=
  let sb := sb ++ "### " ++ Title issue ++ nl ++ nl in
  let sb := sb ++ "**Severity**: " ++ Severity issue ++ nl ++ nl in
  let sb := sb ++ "**Description**: " ++ Description issue ++ nl ++ nl in
  let sb :=
    if decide (0 < LineNumber issue)%Z then
      let sb := sb ++ "**Location**: Line " ++ pretty (LineNumber issue) in
      let sb :=
        if decide (0 < ColumnNumber issue)%Z
        then sb ++ ", Column " ++ pretty (ColumnNumber issue)
        else sb in
      sb ++ nl ++ nl
    else sb in
  let sb :=
    if decide (CodeSnippet issue ≠ "") then
      let sb := sb ++ "**Code Snippet**:" ++ nl ++ "```" ++ nl in
      let sb := sb ++ CodeSnippet issue in
      sb ++ nl ++ "```" ++ nl ++ nl
    else sb in
  let sb :=
    if decide (Remediation issue ≠ "")
    then sb ++ "**Remediation**: " ++ Remediation issue ++ nl ++ nl
    else sb in
  let sb :=
    if decide (0 < length (References issue))%nat then
      let sb := sb ++ "**References**:" ++ nl in
      let sb := foldl (fun sb ref => sb ++ "- " ++ ref ++ nl) sb (References issue) in
      sb ++ nl
    else sb in
  sb ++ "---" ++ nl ++ nl.

Definition with_severity (s : SeverityLevel) (issues : list SecurityIssue)
    : list SecurityIssue :=
  filter (fun issue => Severity issue = s) issues.

Definition writeSection (sb : string) (header : string)
    (issues : list SecurityIssue) : string :=
  if decide (0 < length issues)%nat then
    let sb := sb ++ header ++ nl ++ nl in
    foldl writeIssue sb issues
  else sb.

Definition FormatAsMarkdown (result : AnalysisResult) : string :=
  let sb := "" in
  let sb := sb ++ "# Security Analysis Report" ++ nl ++ nl in
  let sb := sb ++ "**Language**: " ++ Models.Language result ++ nl ++ nl in
  let sb := sb ++ "**Analysis Time**: " ++ AnalysisTime (Metadata result) ++ nl ++ nl in
  let sb := sb ++ "## Summary" ++ nl ++ nl ++ Summary result ++ nl ++ nl in
  if decide (length (Issues result) = 0) then
    sb ++ "No security issues found." ++ nl
  else
    let criticalIssues := with_severity CRITICAL (Issues result) in
    let highIssues := with_severity HIGH (Issues result) in
    let mediumIssues := with_severity MEDIUM (Issues result) in
    let lowIssues := with_severity LOW (Issues result) in
    let sb := writeSection sb "## Critical Issues" criticalIssues in
    let sb := writeSection sb "## High Severity Issues" highIssues in
    let sb := writeSection sb "## Medium Severity Issues" mediumIssues in
    let sb := writeSection sb "## Low Severity Issues" lowIssues in
    sb.

(** The analyzers differ in their language and their rule prompt. *)
Record SecurityAnalyzer : Type := mkAnalyzer {
  base : BaseSecurityAnalyzer;
  GetSecurityRulesPrompt : env -> string
}.

Definition NewJavaAnalyzer : SecurityAnalyzer :=
  {| base := NewBaseAnalyzer JAVA; GetSecurityRulesPrompt := java_rules |}.

Definition NewCSharpAnalyzer : SecurityAnalyzer :=
  {| base := NewBaseAnalyzer CSHARP; GetSecurityRulesPrompt := csharp_rules |}.

Definition NewReactAnalyzer (language : LanguageType) : SecurityAnalyzer :=
  {| base := NewBaseAnalyzer language;
     GetSecurityRulesPrompt := fun e =>
       let basePrompt := react_rules e in
       let basePrompt :=
         if decide (language = REACT_TYPESCRIPT)
         then basePrompt ++ react_typescript_rules e
         else basePrompt in
       basePrompt ++ react_format e |}.

Definition Analyze (a : SecurityAnalyzer) (e : env) (code filePath : string)
    : M (AnalysisResult + string) :=
  let prompt := GetSecurityRulesPrompt a e in
  AnalyzeWithLLM (base a) e code filePath prompt.

End Analyzers.

(** ** Package [main]: the tool handlers and the dispatcher *)

Module Main.
Import Json Models World Protocol.

Definition VERSION : string := "1.0.0".
Definition SERVER_NAME : string := "aeyewire_mcp".

Record MCPServer : Type := mkMCPServer {
  languageDetector : Detector.LanguageDetector;
  analyzers : gmap string Analyzers.SecurityAnalyzer
}.

Definition NewMCPServer : MCPServer :=
  let a : gmap string Analyzers.SecurityAnalyzer := ∅ in
  let a := <[JAVA := Analyzers.NewJavaAnalyzer]> a in
  let a := <[CSHARP := Analyzers.NewCSharpAnalyzer]> a in
  let a := <[REACT_TYPESCRIPT := Analyzers.NewReactAnalyzer REACT_TYPESCRIPT]> a in
  let a := <[REACT_JAVASCRIPT := Analyzers.NewReactAnalyzer REACT_JAVASCRIPT]> a in
  {| languageDetector := Detector.NewLanguageDetector; analyzers := a |}.

(** Type assertions [x.(string)] and [x.(map[string]interface{})] on the
    result of a map lookup, in their two-valued form. *)
Definition as_string (x : option value) : string * bool :=
  match x with
  | Some (Str s) => (s, true)
  | _ => ("", false)
  end.

Definition as_map (x : option value) : gmap string value * bool :=
  match x with
  | Some (Object ms) => (list_to_map (reverse ms), true)
  | _ => (∅, false)
  end.

Definition sendResponse (id : value) (result : value) : M unit :=
  Println {| JSONRPC := "2.0"; ID := id; Result := Some result; Error := None |}.

Definition sendError (id : value) (code : Z) (message : string) : M unit :=
  Println {| JSONRPC := "2.0"; ID := id; Result := None;
             Error := Some {| Code := code; Message := message |} |}.

Definition text_content (text : string) : value :=
  Object [("content", Array [Object [("type", Str "text"); ("text", Str text)]])].

(** The classifier as the server calls it. *)
Definition Detect (s : MCPServer) (e : env) (code filePath : string)
    : M LanguageType :=
  (record (CallDetect code filePath) ;;;
   ret (Detector.Detect (languageDetector s) (visit_first e) (visit_second e)
          code filePath))%io.

Definition handleAnalyzeSecurity (s : MCPServer) (e : env)
    (requestID : value) (args : gmap string value) : M unit :=
  (let '(code, ok) := as_string (args !! "code") in
   if decide (ok = false ∨ code = "") then
     sendError requestID (-32602) "Missing or invalid 'code' parameter"
   else
     let '(filePath, _) := as_string (args !! "file_path") in
     let '(languageStr, _) := as_string (args !! "language") in
     language <-
       (if decide (languageStr ≠ "" ∧ languageStr ≠ "auto")
        then ret languageStr
        else Detect s e code filePath) ;;
     match analyzers s !! language with
     | None =>
         sendError requestID (-32602) ("Unsupported language: " +:+ language)%string
     | Some analyzer =>
         r <- Analyzers.Analyze analyzer e code filePath ;;
         match r with
         | inr err =>
             sendError requestID (-32603) ("Analysis failed: " +:+ err)%string
         | inl result =>
             let markdown := Analyzers.FormatAsMarkdown result in
             sendResponse requestID (text_content markdown)
         end
     end)%io.

(** [range s.analyzers] in the order [o], collecting the keys. *)
Definition keys_in_order {V} (m : gmap string V) (o : list string)
    : list string :=
  foldl (fun acc lang => if decide (is_Some (m !! lang)) then acc ++ [lang] else acc)
        [] o.

Definition handleHealthCheck (s : MCPServer) (e : env) (requestID : value)
    : M unit :=
  (probe <- LLMService.HealthCheck e ;;
   let llmHealthy := probe.1 in
   let llmStatus := if llmHealthy then "available" else "unavailable" in
   let supportedLanguages := keys_in_order (analyzers s) (visit_analyzers e) in
   let healthResponse :=
     {| Status := "healthy"; Version := VERSION;
        LLMServiceStatus := llmStatus;
        SupportedLanguages := supportedLanguages |} in
   let jsonData :=
     Marshal.MarshalIndent (Marshal.of_HealthCheckResponse healthResponse) "  " in
   sendResponse requestID (text_content jsonData))%io.

Definition handleListSupportedLanguages (s : MCPServer) (requestID : value)
    : M unit :=
  let languages := Detector.GetSupportedLanguages (languageDetector s) in
  let jsonData :=
    Marshal.MarshalIndent (Array (Marshal.of_LanguageInfo <$> languages)) "  " in
  sendResponse requestID (text_content jsonData).

Definition handleToolsCall (s : MCPServer) (e : env) (request : MCPRequest)
    : M unit :=
  let '(toolName, ok) := as_string (Params request !! "name") in
  if decide (ok = false) then sendError (req_ID request) (-32602) "Invalid tool name"
  else
    let '(arguments, _) := as_map (Params request !! "arguments") in
    if decide (toolName = "analyze_security") then
      handleAnalyzeSecurity s e (req_ID request) arguments
    else if decide (toolName = "health_check") then
      handleHealthCheck s e (req_ID request)
    else if decide (toolName = "list_supported_languages") then
      handleListSupportedLanguages s (req_ID request)
    else
      sendError (req_ID request) (-32602) ("Unknown tool: " +:+ toolName)%string.

Definition handleInitialize (request : MCPRequest) : M unit :=
  let result :=
    Object [ ("protocolVersion", Str "2024-11-05");
             ("serverInfo", Object [ ("name", Str SERVER_NAME);
                                     ("version", Str VERSION) ]);
             ("capabilities", Object [ ("tools", Object []) ]) ] in
  sendResponse (req_ID request) result.

Definition string_property (description : string) : value :=
  Object [ ("type", Str "string"); ("description", Str description) ].

Definition no_parameters : value :=
  Object [ ("type", Str "object"); ("properties", Object []) ].

Definition language_enum : list string :=
  ["csharp"; "react_typescript"; "react_javascript"; "java"; "auto"].

Definition tools : list value :=
  [ Object
      [ ("name", Str "analyze_security");
        ("description", Str "Performs comprehensive security analysis on source code");
        ("inputSchema",
         Object
           [ ("type", Str "object");
             ("properties",
              Object
                [ ("code", string_property "Source code to analyze");
                  ("file_path",
                   string_property
                     "File path for context and language detection (optional)");
                  ("language",
                   Object
                     [ ("type", Str "string");
                       ("description",
                        Str "Programming language (csharp, react_typescript, react_javascript, java, auto)");
                       ("enum", Array (Str <$> language_enum)) ]) ]);
             ("required", Array [Str "code"]) ]) ];
    Object
      [ ("name", Str "health_check");
        ("description", Str "Verifies service health and dependency availability");
        ("inputSchema", no_parameters) ];
    Object
      [ ("name", Str "list_supported_languages");
        ("description",
         Str "Lists all supported programming languages and their metadata");
        ("inputSchema", no_parameters) ] ].

Definition handleToolsList (request : MCPRequest) : M unit :=
  let result := Object [ ("tools", Array tools) ] in
  sendResponse (req_ID request) result.

Definition handleRequest (s : MCPServer) (e : env) (request : MCPRequest)
    : M unit :=
  if decide (Method request = "initialize") then handleInitialize request
  else if decide (Method request = "tools/list") then handleToolsList request
  else if decide (Method request = "tools/call") then handleToolsCall s e request
  else
    sendError (req_ID request) (-32601)
      ("Method not found: " +:+ Method request)%string.

(** [utf8.DecodeRune] as the decoder uses it on the bytes of a string
    literal: the number of bytes of the well-formed rune at the head of
    [s], and 0 when the head starts none. *)
Definition continuation : ascii -> bool := Bytes.between "128" "191".

Definition rune_size (s : list ascii) : nat :=
  match s with
  | [] => 0
  | c0 :: r =>
      let second lo hi :=
        match r with c1 :: _ => Bytes.between lo hi c1 | [] => false end in
      let third :=
        match r with _ :: c2 :: _ => continuation c2 | _ => false end in
      let fourth :=
        match r with _ :: _ :: c3 :: _ => continuation c3 | _ => false end in
      if (Bytes.code c0 <? 128)%N then 1
      else if Bytes.between "194" "223" c0 then
        if second "128"%char "191"%char then 2 else 0
      else if Bytes.eq "224" c0 then
        if second "160"%char "191"%char && third then 3 else 0
      else if Bytes.between "225" "236" c0 || Bytes.between "238" "239" c0 then
        if second "128"%char "191"%char && third then 3 else 0
      else if Bytes.eq "237" c0 then
        if second "128"%char "159"%char && third then 3 else 0
      else if Bytes.eq "240" c0 then
        if second "144"%char "191"%char && third && fourth then 4 else 0
      else if Bytes.between "241" "243" c0 then
        if second "128"%char "191"%char && third && fourth then 4 else 0
      else if Bytes.eq "244" c0 then
        if second "128"%char "143"%char && third && fourth then 4 else 0
      else 0
  end.

(** A byte that starts no well-formed rune becomes U+FFFD; [keep] counts
    the bytes of the current rune still to be copied. *)
Fixpoint valid_from (keep : nat) (s : list ascii) : list ascii :=
  match s with
  | [] => []
  | c :: s' =>
      match keep with
      | S n => c :: valid_from n s'
      | O =>
          match rune_size s with
          | S n => c :: valid_from n s'
          | O => replacement ++ valid_from 0 s'
          end
      end
  end.

Definition ToValidUTF8 (s : string) : string :=
  Bytes.to_string (valid_from 0 s).

(** A JSON value as Go holds it in an [interface{}]: a number is a
    float64 and a string is well-formed UTF-8.  [ParseFloat literal] is
    [strconv.ParseFloat(literal, 64)]: none when the literal is out of
    range, else the float64, written as [json.Marshal] writes it.  A
    number out of range makes the whole of [json.Unmarshal] fail. *)
Fixpoint held (ParseFloat : string -> option string) (v : value)
    : option value :=
  match v with
  | Null => Some Null
  | Bool b => Some (Bool b)
  | Number l => Number <$> ParseFloat l
  | Str s => Some (Str (ToValidUTF8 s))
  | Array vs =>
      Array <$>
        (fix all (l : list value) : option (list value) :=
           match l with
           | [] => Some []
           | x :: l' => y ← held ParseFloat x; ys ← all l'; Some (y :: ys)
           end) vs
  | Object ms =>
      Object <$>
        (fix all (l : list (string * value)) : option (list (string * value)) :=
           match l with
           | [] => Some []
           | (k, x) :: l' =>
               y ← held ParseFloat x; ys ← all l';
               Some ((ToValidUTF8 k, y) :: ys)
           end) ms
  end.

(** [json.Unmarshal([]byte(line), &request)] with [request] the zero
    request.  The identifier and the values of [params] are held as
    [interface{}] values; the members of [params] are put into the map one
    by one, so a repeated key keeps its last value.  A key of the request
    object is matched as it is read: a key that matches a field holds
    only ASCII letters and the two runes that fold onto them, so it has no
    ill-formed byte to replace. *)
Definition zeroRequest : MCPRequest :=
  {| req_JSONRPC := ""; req_ID := Null; Method := ""; Params := ∅ |}.

Definition dec_text (cur : string) (v : value) : option string :=
  match v with
  | Null => Some cur
  | Str s => Some (ToValidUTF8 s)
  | _ => None
  end.

Definition dec_params (ParseFloat : string -> option string)
    (cur : gmap string value) (v : value) : option (gmap string value) :=
  match v with
  | Null => Some ∅
  | Object _ =>
      match held ParseFloat v with
      | Some (Object ms) => Some (foldl (fun m kv => <[kv.1 := kv.2]> m) cur ms)
      | _ => None
      end
  | _ => None
  end.

Definition set_request_field (ParseFloat : string -> option string)
    (r : MCPRequest) (key : string) (v : value) : option MCPRequest :=
  let '(mkMCPRequest ver id method params) := r in
  if Unmarshal.key_is "jsonrpc" key then
    x ← dec_text ver v; Some (mkMCPRequest x id method params)
  else if Unmarshal.key_is "id" key then
    x ← held ParseFloat v; Some (mkMCPRequest ver x method params)
  else if Unmarshal.key_is "method" key then
    x ← dec_text method v; Some (mkMCPRequest ver id x params)
  else if Unmarshal.key_is "params" key then
    x ← dec_params ParseFloat params v; Some (mkMCPRequest ver id method x)
  else Some r.

Definition dec_request (ParseFloat : string -> option string) (v : value)
    : option MCPRequest :=
  match v with
  | Null => Some zeroRequest
  | Object ms =>
      foldl (fun acc m => r ← acc; set_request_field ParseFloat r m.1 m.2)
            (Some zeroRequest) ms
  | _ => None
  end.

Definition unmarshal_request (ParseFloat : string -> option string)
    (line : string) : option MCPRequest :=
  parse line ≫= dec_request ParseFloat.

(** One turn of the loop of [Run] on a line the scanner yields;
    [parse_error] is the text of the error [json.Unmarshal] reports for a
    line it rejects. *)
Definition serve (s : MCPServer) (e : env)
    (ParseFloat : string -> option string) (parse_error : string -> string)
    (line : string) : M unit :=
  if decide (line = "") then ret tt
  else
    match unmarshal_request ParseFloat line with
    | None =>
        sendError Null (-32700) ("Parse error: " +:+ parse_error line)%string
    | Some request => handleRequest s e request
    end.

(** [Run] over the lines that [scanner.Scan] yields, in order.  What is
    written to standard error when the scanner fails is not modelled. *)
Fixpoint Run (s : MCPServer) (e : env)
    (ParseFloat : string -> option string) (parse_error : string -> string)
    (lines : list string) : M unit :=
  match lines with
  | [] => ret tt
  | line :: rest =>
      (serve s e ParseFloat parse_error line ;;;
       Run s e ParseFloat parse_error rest)%io
  end.

End Main.

(** * Properties of the classifier, the pipeline and the handlers *)

Import Regexp Strings Models Detector Json World Protocol Analyzers Main.

(** ** Vocabulary *)

(** A text between double quotes. *)
Definition quoted (s : string) : string :=
  (String Bytes.dq s +:+ String Bytes.dq "")%string.

(** Severities, and the sum of the four per-severity counts. *)

Definition known_severity (s : string) : Prop :=
  s = CRITICAL ∨ s = HIGH ∨ s = MEDIUM ∨ s = LOW.

Global Instance known_severity_dec s : Decision (known_severity s).
Proof. unfold known_severity. apply _. Defined.

Definition known_issues (issues : list SecurityIssue) : list SecurityIssue :=
  filter (fun i => known_severity (Severity i)) issues.

Definition count_sum (md : AnalysisMetadata) : Z :=
  (CriticalCount md + HighCount md + MediumCount md + LowCount md)%Z.


(** The number of signatures of [lang] that match [code]. *)

Definition matchCount (ld : LanguageDetector) (lang code : string) : nat :=
  match patterns ld !! lang with
  | Some ps => length (filter (fun p => MatchString p code = true) ps)
  | None => 0
  end.


(** The body of the repository's own test "React TypeScript with
    extension", and two orders in which [range scores] may visit its two
    entries. *)

Definition tie_code : string :=
  "import React from 'react';
const Component: React.FC = () => <div />;".

Definition visit_ts_first : Visit :=
  {| visit_patterns := [JAVA; CSHARP; REACT_TYPESCRIPT; REACT_JAVASCRIPT];
     visit_scores := [REACT_TYPESCRIPT; REACT_JAVASCRIPT] |}.

Definition visit_js_first : Visit :=
  {| visit_patterns := [JAVA; CSHARP; REACT_TYPESCRIPT; REACT_JAVASCRIPT];
     visit_scores := [REACT_JAVASCRIPT; REACT_TYPESCRIPT] |}.

Definition plain_code : string := "print(" +:+ quoted "Hello World" +:+ ")".


(** Invariants of the two loops of [DetectFromContent]. *)

Definition scores_sound (ld : LanguageDetector) (code : string)
    (sc : gmap string Z) : Prop :=
  forall lang n, sc !! lang = Some n -> (0 < n)%Z ∧ 0 < matchCount ld lang code.

Definition pick_inv (sc : gmap string Z) (acc : Z * string) : Prop :=
  acc = (0%Z, UNKNOWN) ∨ (sc !! acc.2 = Some acc.1 ∧ (0 < acc.1)%Z).


(** The table behind the [switch] of [DetectFromExtension]. *)

Definition extension_table : list (string * string) :=
  [ (".java", JAVA); (".cs", CSHARP); (".tsx", REACT_TYPESCRIPT);
    (".ts", REACT_TYPESCRIPT); (".jsx", REACT_JAVASCRIPT);
    (".js", REACT_JAVASCRIPT) ].

Definition ambiguous (tag : string) : Prop :=
  tag = REACT_TYPESCRIPT ∨ tag = REACT_JAVASCRIPT.


(** A sample environment. *)

Definition all_languages : list string :=
  [JAVA; CSHARP; REACT_TYPESCRIPT; REACT_JAVASCRIPT].

Definition sample_visit : Detector.Visit :=
  {| Detector.visit_patterns := all_languages;
     Detector.visit_scores := all_languages |}.

Definition sample_env (reply : string + string) (probe : http_outcome) : env :=
  {| llm_analyze := fun _ _ => reply;
     llm_probe := probe;
     elapsed := "1.5s";
     visit_first := sample_visit;
     visit_second := sample_visit;
     visit_analyzers := all_languages;
     unmarshal_error := fun _ => "invalid JSON";
     java_rules := "java rules";
     csharp_rules := "csharp rules";
     react_rules := "react rules";
     react_typescript_rules := "typescript rules";
     react_format := "format" |}.


(** The three ways in which the [code] argument is unusable. *)

Definition invalid_code (args : gmap string value) : Prop :=
  args !! "code" = None
  ∨ (exists v, args !! "code" = Some v ∧ forall s, v ≠ Str s)
  ∨ args !! "code" = Some (Str "").

Definition error_response (id : value) (code : Z) (message : string) : MCPResponse :=
  {| JSONRPC := "2.0"; ID := id; Result := None;
     Error := Some {| Code := code; Message := message |} |}.

Definition health_text (status : string) (languages : list string) : string :=
  Marshal.MarshalIndent
    (Marshal.of_HealthCheckResponse
       {| Status := "healthy"; Version := VERSION;
          LLMServiceStatus := status; SupportedLanguages := languages |}) "  ".


(** Texts: newline count, prefixes and occurrences. *)

Definition newlines (s : string) : nat :=
  length (filter (fun c => c = Bytes.nl) (Bytes.of_string s)).

Definition block_comment_code : string :=
  "int a; /* first
second */ int b;".

Fixpoint starts_with (p s : list ascii) : bool :=
  match p, s with
  | [], _ => true
  | a :: p', c :: s' => Bytes.eq a c && starts_with p' s'
  | _ :: _, [] => false
  end.

Fixpoint contains (p s : list ascii) : bool :=
  starts_with p s ||
  match s with
  | [] => false
  | _ :: s' => contains p s'
  end.

Definition no_hash (s : string) : Prop :=
  Forall (fun c => c ≠ "#"%char) (Bytes.of_string s).


(** The head of every report, and the headers of its sections. *)

Definition preamble (result : AnalysisResult) : string :=
  ("# Security Analysis Report" +:+ nl +:+ nl
   +:+ "**Language**: " +:+ Models.Language result +:+ nl +:+ nl
   +:+ "**Analysis Time**: " +:+ AnalysisTime (Metadata result) +:+ nl +:+ nl
   +:+ "## Summary" +:+ nl +:+ nl +:+ Summary result +:+ nl +:+ nl)%string.

Definition section_headers : list string :=
  ["## Critical Issues"; "## High Severity Issues";
   "## Medium Severity Issues"; "## Low Severity Issues"].

Definition empty_result : AnalysisResult :=
  {| Models.Language := JAVA; Issues := [];
     Summary := "No security issues detected.";
     Metadata := generateMetadata [] JAVA "1.5s" |}.


(** Replies of the backend used below. *)

Definition no_issues_member (ms : list (string * value)) : Prop :=
  Forall (fun m => Unmarshal.key_is "issues" m.1 = false) ms.

Definition folded_key_reply : string := "{" +:+ quoted "ISSUES" +:+ ": [{}]}".

Definition wrong_kind_reply : string := "{" +:+ quoted "issues" +:+ ": 1}".

Definition other_key_reply : string := "{" +:+ quoted "foo" +:+ ": 1}".

Definition unknown_severity_reply : string :=
  "[{" +:+ quoted "title" +:+ ": " +:+ quoted "note" +:+ ", "
  +:+ quoted "severity" +:+ ": " +:+ quoted "INFO" +:+ "}]".

Definition known_severity_reply : string :=
  "[{" +:+ quoted "severity" +:+ ": " +:+ quoted "HIGH" +:+ "}, {"
  +:+ quoted "severity" +:+ ": " +:+ quoted "LOW" +:+ "}, {"
  +:+ quoted "severity" +:+ ": " +:+ quoted "HIGH" +:+ "}]".


(** Fences, bracketed texts and the three shapes of a reply. *)

Definition fence : list ascii := Bytes.of_string "```".

Definition bracketed (mid : list ascii) : list ascii :=
  "["%char :: mid ++ ["]"%char].

Definition no_fence (s : string) : Prop :=
  contains fence (Bytes.of_string s) = false.

Definition no_opening (s : string) : Prop :=
  Forall (fun c => c ≠ "["%char ∧ c ≠ "{"%char) (Bytes.of_string s).

Definition no_closing (s : string) : Prop :=
  Forall (fun c => c ≠ "]"%char) (Bytes.of_string s).

Definition fenced (A : string) : string :=
  ("```json" +:+ nl +:+ A +:+ nl +:+ "```")%string.

Definition quoted_fence_array : string := "[" +:+ quoted "``` x ```" +:+ "]".

Definition sample_array : string :=
  "[{" +:+ quoted "severity" +:+ ": " +:+ quoted "HIGH" +:+ ", "
  +:+ quoted "line_number" +:+ ": 3}]".


(** Scanner states between tokens, and the two bracket tokens. *)

Definition idle (st : state) : bool :=
  match st with Word [] => true | _ => false end.

Definition is_bracket (t : token) : Prop := t = TLBracket ∨ t = TRBracket.

Ltac norm_app := repeat first [progress cbn [app] | rewrite <- app_assoc].


(** Vocabulary of the further properties: the classifier. *)

(** A body in which Java has more matching signatures than any other
    language. *)
Definition java_code : string :=
  "package com.example;
public class Main {}".

(** Bytes that end an extension when a path is read from its end. *)
Definition in_extension (c : ascii) : Prop := c ≠ "."%char ∧ c ≠ "/"%char.

Ltac pick_info skip H :=
  intros _; eexists; split;
  [ apply list_elem_of_In; simpl; skip; left; reflexivity
  | split; [reflexivity|rewrite H; apply list_elem_of_In; simpl; auto] ].


(** The arguments of the analysis tool and its responses. *)

(** The arguments of [analyze_security] as the handler reads them. *)
Definition valid_code (args : gmap string value) (code : string) : Prop :=
  args !! "code" = Some (Str code) ∧ code ≠ "".

Definition requested (key : string) (args : gmap string value) : string :=
  (as_string (args !! key)).1.

Definition explicit_language (l : string) : Prop := l ≠ "" ∧ l ≠ "auto".

Global Instance explicit_language_dec l : Decision (explicit_language l).
Proof. unfold explicit_language. apply _. Defined.

Definition result_response (id : value) (text : string) : MCPResponse :=
  {| JSONRPC := "2.0"; ID := id; Result := Some (text_content text);
     Error := None |}.

(** What an analyzer returns, and the response the handler makes of it. *)
Definition outcome (a : SecurityAnalyzer) (e : env) (code filePath : string)
    : AnalysisResult + string :=
  (Analyzers.Analyze a e code filePath initial).1.

Definition answer (id : value) (r : AnalysisResult + string) : MCPResponse :=
  match r with
  | inr err => error_response id (-32603) ("Analysis failed: " +:+ err)%string
  | inl result => result_response id (FormatAsMarkdown result)
  end.

Definition backend_call (a : SecurityAnalyzer) (e : env) (code : string) : call :=
  CallAnalyze (PreprocessCode code (Analyzers.Language (base a)))
              (GetSecurityRulesPrompt a e).

(** The language the handler settles on, and the calls of the classifier
    it makes to get there. *)
Definition resolved_language (s : MCPServer) (e : env)
    (args : gmap string value) (code : string) : string :=
  if decide (explicit_language (requested "language" args))
  then requested "language" args
  else Detector.Detect (languageDetector s) (visit_first e) (visit_second e)
         code (requested "file_path" args).

Definition detector_calls (args : gmap string value) (code : string)
    : list call :=
  if decide (explicit_language (requested "language" args)) then []
  else [CallDetect code (requested "file_path" args)].

(** The arguments used by the examples: an explicit language next to a
    path with another extension. *)
Definition java_args : gmap string value :=
  <["code" := Str "class A {}"]>
    (<["language" := Str "java"]> (<["file_path" := Str "App.tsx"]> ∅)).

Definition cobol_args : gmap string value :=
  <["code" := Str "DISPLAY 'HI'."]> (<["language" := Str "cobol"]> ∅).

Definition auto_args : gmap string value :=
  <["code" := Str java_code]> (<["language" := Str "auto"]> ∅).

(** The kinds of response [analyze_security] gives. *)
Definition analysis_response (id : value) (r : MCPResponse) : Prop :=
  (exists text, r = result_response id text)
  ∨ r = error_response id (-32602) "Missing or invalid 'code' parameter"
  ∨ (exists l, r = error_response id (-32602) ("Unsupported language: " +:+ l)%string)
  ∨ (exists msg, r = error_response id (-32603) ("Analysis failed: " +:+ msg)%string).

(** A response is well formed when it carries the protocol version and
    either a result or an error, not both. *)
Definition well_formed (r : MCPResponse) : Prop :=
  JSONRPC r = "2.0" ∧ (Result r = None ↔ Error r ≠ None).

(** The names of the tools in the list [handleToolsList] sends. *)
Definition member (key : string) (v : value) : option value :=
  match v with
  | Object ms => (list_to_map ms : gmap string value) !! key
  | _ => None
  end.

Definition tool_name (t : value) : option string :=
  match member "name" t with Some (Str n) => Some n | _ => None end.

Definition advertised_tools : list string := omap tool_name tools.

(** The response a line of input is owed: a parse error without an
    identifier for a line that is not a request, else a response that
    carries the identifier of the request. *)
Definition answers (ParseFloat : string -> option string)
    (parse_error : string -> string) (line : string) (r : MCPResponse)
    : Prop :=
  well_formed r
  ∧ match unmarshal_request ParseFloat line with
    | None =>
        r = error_response Null (-32700)
              ("Parse error: " +:+ parse_error line)%string
    | Some request => ID r = req_ID request
    end.

Definition health_request : MCPRequest :=
  {| req_JSONRPC := "2.0"; req_ID := Number "3"; Method := "tools/call";
     Params := <["name" := Str "health_check"]> ∅ |}.


(** Comment markers and newlines. *)

(** The markers of the two kinds of comment. *)
Definition block_open : list ascii := Bytes.of_string "/*".

Definition line_open : list ascii := Bytes.of_string "//".

Definition count_nl (l : list ascii) : nat :=
  length (filter (fun c => c = Bytes.nl) l).

Definition line_comment_code : string :=
  "int a; // first
int b; // second".

(** Tokens that open an array or an object. *)
Definition opens (t : token) : Prop := t = TLBracket ∨ t = TLBrace.

Definition scalar (v : value) : Prop :=
  match v with Array _ | Object _ => False | _ => True end.


(** Findings and the parts of a report. *)

(** The identifier given to the finding at index [k] when the reply gave
    none. *)
Definition issue_id (k : nat) : string :=
  ("ISSUE-" +:+ pretty (Z.of_nat k + 1)%Z)%string.

Definition anonymous_reply : string :=
  "[{" +:+ quoted "title" +:+ ": " +:+ quoted "a" +:+ "}, {"
  +:+ quoted "title" +:+ ": " +:+ quoted "b" +:+ "}]".

(** The text [writeIssue] adds for a finding, and the section of a
    severity. *)
Definition render (issue : SecurityIssue) : string := writeIssue "" issue.

Definition section (header : string) (issues : list SecurityIssue) : string :=
  writeSection "" header issues.

Definition sample_issue (severity : string) : SecurityIssue :=
  {| Models.ID := "ISSUE-1"; Title := "SQL injection"; Description := "d";
     Severity := severity; LineNumber := 3; ColumnNumber := 0;
     FilePath := "A.java"; CodeSnippet := ""; Remediation := "";
     References := [] |}.

Definition sample_result (severity : string) : AnalysisResult :=
  {| Models.Language := JAVA; Issues := [sample_issue severity];
     Summary := generateSummary [sample_issue severity];
     Metadata := generateMetadata [sample_issue severity] JAVA "1.5s" |}.

(** The lines [writeIssue] adds for the references. *)
Definition refs_text (refs : list string) : string :=
  foldl (fun sb ref => sb +:+ "- " +:+ ref +:+ nl)%string "" refs.

Definition issues_text (issues : list SecurityIssue) : string :=
  foldl writeIssue "" issues.

(** [p] occurs in [s]. *)
Definition occurs (p s : string) : Prop :=
  exists a b, s = (a +:+ p +:+ b)%string.


(** Request objects. *)

(** The members of a request object that bear on a field. *)
Definition members_of (field : string) (ms : list (string * value))
    : list (string * value) :=
  filter (fun m => Unmarshal.key_is field m.1 = true) ms.

(** A member that cannot be stored in the field its key names. *)
Definition not_text (v : value) : Prop :=
  match v with Null | Str _ => False | _ => True end.

Definition not_params (v : value) : Prop :=
  match v with Null | Object _ => False | _ => True end.

Definition ill_typed (m : string * value) : Prop :=
  (Unmarshal.key_is "jsonrpc" m.1 = true ∧ not_text m.2)
  ∨ (Unmarshal.key_is "method" m.1 = true ∧ not_text m.2)
  ∨ (Unmarshal.key_is "params" m.1 = true ∧ not_params m.2).

Definition numeric_method_line : string :=
  "{" +:+ quoted "id" +:+ ":7," +:+ quoted "method" +:+ ":5}".

Definition repeated_id_line : string :=
  "{" +:+ quoted "ID" +:+ ":" +:+ quoted "a" +:+ "," +:+ quoted "id" +:+ ":7,"
  +:+ quoted "method" +:+ ":" +:+ quoted "ping" +:+ "}".

(** [strconv.ParseFloat] on the JSON literals of the whole numbers of at
    most fifteen digits: a float64 holds them exactly and [json.Marshal]
    writes them back as they are.  Other literals are refused by this
    instance, which stands in for the library in the examples. *)
Definition ParseFloat_whole (literal : string) : option string :=
  match Bytes.of_string literal with
  | [] => None
  | c :: l =>
      if forallb Bytes.digit (c :: l) && (length l <? 15)%nat
         && (negb (Bytes.eq "0" c) || bool_decide (l = []))
      then Some literal else None
  end.

Definition dec_members (ParseFloat : string -> option string)
    (acc : option MCPRequest) (ms : list (string * value))
    : option MCPRequest :=
  foldl (fun acc m => r ← acc; set_request_field ParseFloat r m.1 m.2) acc ms.


(** Scanning and parsing a whole value. *)

(** The scanner run over a piece of text: the tokens completed and the
    state reached. *)
Fixpoint steps (st : state) (s : list ascii) : option (list token * state) :=
  match s with
  | [] => Some ([], st)
  | c :: s' =>
      '(ts, st1) ← step st c;
      '(ts', st2) ← steps st1 s';
      Some (ts ++ ts', st2)
  end.

(** The tokens of a value as [MarshalIndent] writes it. *)
Fixpoint toks (v : value) : list token :=
  match v with
  | Null => [TNull]
  | Bool true => [TTrue]
  | Bool false => [TFalse]
  | Number l => [TNumber l]
  | Str s => [TString s]
  | Array [] => [TLBracket; TRBracket]
  | Array (v0 :: vs) =>
      TLBracket :: toks v0
        ++ (fix rest (l : list value) : list token :=
              match l with
              | [] => []
              | x :: l' => TComma :: toks x ++ rest l'
              end) vs
        ++ [TRBracket]
  | Object [] => [TLBrace; TRBrace]
  | Object ((k0, v0) :: ms) =>
      TLBrace :: TString k0 :: TColon :: toks v0
        ++ (fix rest (l : list (string * value)) : list token :=
              match l with
              | [] => []
              | (k, x) :: l' => TComma :: TString k :: TColon :: toks x ++ rest l'
              end) ms
        ++ [TRBrace]
  end.

(** Values made of ASCII strings, arrays and objects, as the server
    encodes them; and the number of arrays and objects open at the deepest
    point. *)
Definition ascii_text (s : string) : Prop :=
  Forall (fun c => (Bytes.code c < 128)%N) (Bytes.of_string s).

Fixpoint textual (v : value) : Prop :=
  match v with
  | Str s => ascii_text s
  | Array vs =>
      (fix all (l : list value) : Prop :=
         match l with [] => True | x :: l' => textual x ∧ all l' end) vs
  | Object ms =>
      (fix all (l : list (string * value)) : Prop :=
         match l with
         | [] => True
         | (k, x) :: l' => ascii_text k ∧ textual x ∧ all l'
         end) ms
  | _ => False
  end.

Fixpoint nesting (v : value) : nat :=
  match v with
  | Array vs =>
      S ((fix most (l : list value) : nat :=
            match l with [] => 0 | x :: l' => nesting x `max` most l' end) vs)
  | Object ms =>
      S ((fix most (l : list (string * value)) : nat :=
            match l with [] => 0 | (_, x) :: l' => nesting x `max` most l' end) ms)
  | _ => 0
  end.

Definition blank (indent : string) : Prop :=
  Forall (fun c => is_ws c = true) (Bytes.of_string indent).

Definition url_code : string :=
  "String u = " +:+ quoted "http://example.org" +:+ ";
int b;".

(** What is left of code when every line loses all that stands from its
    first [//] on; [in_comment] tells that the [//] of the current line
    has been passed. *)
Fixpoint cut_line_comments (in_comment : bool) (s : list ascii) : list ascii :=
  match s with
  | [] => []
  | c :: s' =>
      if Bytes.eq Bytes.nl c then c :: cut_line_comments false s'
      else if in_comment then cut_line_comments true s'
      else if starts_with line_open s then cut_line_comments true s'
      else c :: cut_line_comments false s'
  end.

(** The first byte of a text is not a slash. *)
Definition no_slash_head (l : list ascii) : Prop :=
  match l with c :: _ => c ≠ "/"%char | [] => True end.

(** The result the pipeline builds from the findings it decoded. *)
Definition result_of (e : env) (language : string)
    (issues : list SecurityIssue) : AnalysisResult :=
  {| Models.Language := language;
     Issues := issues;
     Summary := generateSummary issues;
     Metadata := generateMetadata issues language (elapsed e) |}.


(** ** Strings and lists *)

Lemma string_app_assoc (a b c : string) : ((a +:+ b) +:+ c = a +:+ (b +:+ c))%string.
Proof.
  induction a as [|x a IH]; [reflexivity|].
  change (String x ((a +:+ b) +:+ c) = String x (a +:+ b +:+ c)).
  f_equal. exact IH.
Qed.

Lemma of_string_app (a b : string) :
  Bytes.of_string (a +:+ b) = Bytes.of_string a ++ Bytes.of_string b.
Proof.
  induction a as [|x a IH]; [reflexivity|].
  change (x :: Bytes.of_string (a +:+ b) = x :: (Bytes.of_string a ++ Bytes.of_string b)).
  f_equal. exact IH.
Qed.

Lemma of_to_string l : Bytes.of_string (Bytes.to_string l) = l.
Proof. apply list_ascii_of_string_of_list_ascii. Qed.

Lemma to_of_string s : Bytes.to_string (Bytes.of_string s) = s.
Proof. apply string_of_list_ascii_of_string. Qed.

Lemma length_to_string l : String.length (Bytes.to_string l) = length l.
Proof. induction l as [|c l IH]; [reflexivity|]. simpl. f_equal. exact IH. Qed.

Lemma take_prefix_len {X} (a b : list X) :
  take (length (a ++ b) - length b) (a ++ b) = a.
Proof.
  rewrite length_app. replace (length a + length b - length b) with (length a) by lia.
  apply take_app_length.
Qed.

Lemma contains_cons p c s : contains p (c :: s) = starts_with p (c :: s) || contains p s.
Proof. reflexivity. Qed.

Lemma contains_false_cons p c s :
  contains p (c :: s) = false -> starts_with p (c :: s) = false ∧ contains p s = false.
Proof. rewrite contains_cons. apply orb_false_elim. Qed.

Lemma contains_false_starts p s : contains p s = false -> starts_with p s = false.
Proof. destruct s; simpl; intros H; apply orb_false_elim in H; tauto. Qed.

Lemma contains_app_r p a : forall b, contains p (a ++ b) = false -> contains p b = false.
Proof.
  induction a as [|c a IH]; intros b H; [exact H|].
  apply IH. apply (contains_false_cons p c). exact H.
Qed.

Lemma contains_hole (a : ascii) (p x rest : list ascii) :
  Forall (fun c => c ≠ a) x ->
  contains (a :: p) (x ++ rest) = contains (a :: p) rest.
Proof.
  intros Hx. induction Hx as [|c x Hc Hx IH]; [reflexivity|].
  change (Bytes.eq a c && starts_with p (x ++ rest) || contains (a :: p) (x ++ rest)
          = contains (a :: p) rest).
  rewrite IH. replace (Bytes.eq a c) with false; [reflexivity|].
  symmetry. unfold Bytes.eq. apply Ascii.eqb_neq. congruence.
Qed.

Lemma starts_with_app_other p d : forall x y,
  Forall (fun c => c ≠ d) p ->
  starts_with p x = false -> starts_with p (x ++ d :: y) = false.
Proof.
  induction p as [|a p IH]; intros x y Hp H; [discriminate|].
  inversion Hp as [|? ? Ha Hp']; subst.
  destruct x as [|c x]; simpl.
  - replace (Bytes.eq a d) with false; [reflexivity|].
    symmetry. apply Ascii.eqb_neq. exact Ha.
  - simpl in H. destruct (Bytes.eq a c); [|reflexivity]. simpl in *. apply IH; assumption.
Qed.

Lemma no_early_occurrence p d x :
  Forall (fun c => c ≠ d) p ->
  contains p x = false ->
  forall a1 a2, x ++ [d] = a1 ++ a2 -> a2 ≠ [] -> starts_with p (a2 ++ p) = false.
Proof.
  intros Hp. induction x as [|c x IH]; intros Hx a1 a2 Heq Ha2.
  - destruct a1 as [|e a1].
    + simpl in Heq. subst a2. simpl.
      destruct p as [|a p]; [discriminate|].
      inversion Hp; subst. simpl.
      replace (Bytes.eq a d) with false; [reflexivity|].
      symmetry. apply Ascii.eqb_neq. assumption.
    + simpl in Heq. injection Heq as -> Heq.
      destruct a1; [|discriminate]. simpl in Heq. subst a2. contradiction.
  - apply contains_false_cons in Hx as [Hs Hx].
    destruct a1 as [|e a1].
    + simpl in Heq. subst a2.
      replace ((c :: x ++ [d]) ++ p) with ((c :: x) ++ d :: p)
        by (simpl; rewrite <- app_assoc; reflexivity).
      apply starts_with_app_other; assumption.
    + simpl in Heq. injection Heq as -> Heq. apply (IH Hx a1 a2 Heq Ha2).
Qed.


(** ** The language classifier *)

Lemma visit_ts_first_ok : visit_ok NewLanguageDetector tie_code visit_ts_first.
Proof.
  split; unfold range_order; apply (bool_decide_unpack _); vm_compute; exact I.
Qed.

Lemma visit_js_first_ok : visit_ok NewLanguageDetector tie_code visit_js_first.
Proof.
  split; unfold range_order; apply (bool_decide_unpack _); vm_compute; exact I.
Qed.

(** C3: the content stage is not deterministic.  On the body of the
    repository's own test the two React tags tie with two points each, and
    the verdict is the tag that [range scores] happens to visit first:
    both orders are possible visits of the same map, and they give
    different tags; [Detect] on [Component.tsx] then returns the
    JavaScript tag where the test expects the TypeScript one. *)
Theorem DetectFromContent_depends_on_visit :
  visit_ok NewLanguageDetector tie_code visit_ts_first
  ∧ visit_ok NewLanguageDetector tie_code visit_js_first
  ∧ DetectFromContent NewLanguageDetector visit_ts_first tie_code = REACT_TYPESCRIPT
  ∧ DetectFromContent NewLanguageDetector visit_js_first tie_code = REACT_JAVASCRIPT
  ∧ Detector.Detect NewLanguageDetector visit_js_first visit_js_first tie_code "Component.tsx"
    = REACT_JAVASCRIPT.
Proof.
  split; [exact visit_ts_first_ok|]. split; [exact visit_js_first_ok|].
  repeat split; vm_compute; reflexivity.
Qed.

Lemma scoreLanguage_sound ld code lang ps ps' : forall sc,
  patterns ld !! lang = Some ps ->
  ps' ⊆ ps ->
  scores_sound ld code sc ->
  scores_sound ld code (scoreLanguage code lang sc ps').
Proof.
  intros sc Hps. revert sc. unfold scoreLanguage.
  induction ps' as [|p ps' IH]; intros sc Hsub Hsc; simpl; [exact Hsc|].
  apply IH; [set_solver|].
  destruct (MatchString p code) eqn:Hm; [|exact Hsc].
  intros l n. destruct (decide (lang = l)) as [<-|Hne].
  - rewrite lookup_insert_eq. intros [= <-]. split.
    + destruct (sc !! lang) as [k|] eqn:Hk; simpl; [|lia].
      apply Hsc in Hk. lia.
    + unfold matchCount. rewrite Hps.
      assert (p ∈ filter (fun p => MatchString p code = true) ps) as Hin.
      { apply list_elem_of_filter. split; [exact Hm|]. apply Hsub. left. }
      destruct (filter _ ps); [inversion Hin|simpl; lia].
  - rewrite lookup_insert_ne by exact Hne. apply Hsc.
Qed.

Lemma scoreAll_sound ld code o : scores_sound ld code (scoreAll ld o code).
Proof.
  unfold scoreAll.
  assert (scores_sound ld code ∅) as H0 by (intros l n; rewrite lookup_empty; discriminate).
  revert H0. generalize (∅ : gmap string Z).
  induction o as [|lang o IH]; intros sc Hsc; simpl; [exact Hsc|].
  apply IH. destruct (patterns ld !! lang) as [ps|] eqn:Hps; [|exact Hsc].
  eapply scoreLanguage_sound; eauto.
Qed.

Lemma pickMax_sound sc o : pick_inv sc (pickMax sc o).
Proof.
  unfold pickMax.
  assert (pick_inv sc (0%Z, UNKNOWN)) as H0 by (left; reflexivity).
  revert H0. generalize (0%Z, UNKNOWN).
  induction o as [|lang o IH]; intros acc Hacc; simpl; [exact Hacc|].
  apply IH. destruct acc as [m d].
  destruct (sc !! lang) as [score|] eqn:Hl; [|exact Hacc].
  destruct (m <? score)%Z eqn:Hlt; [|exact Hacc].
  right. simpl. split; [exact Hl|].
  apply Z.ltb_lt in Hlt. destruct Hacc as [[= -> ->]|[_ Hpos]]; simpl in *; lia.
Qed.

Lemma DetectFromContent_matched ld v code lang :
  DetectFromContent ld v code = lang ->
  lang = UNKNOWN ∨ 0 < matchCount ld lang code.
Proof.
  unfold DetectFromContent. intros <-.
  destruct (pickMax_sound (scoreAll ld (visit_patterns v) code) (visit_scores v))
    as [->|[Hl _]]; [left; reflexivity|].
  right. eapply scoreAll_sound. exact Hl.
Qed.

(** C5: when no signature of any language matches the body, the content
    stage returns the unknown tag; and a language none of whose signatures
    matches is never the returned tag.  This holds for every visiting
    order. *)
Theorem DetectFromContent_unknown_without_match ld v code :
  ((forall lang, matchCount ld lang code = 0) ->
   DetectFromContent ld v code = UNKNOWN)
  ∧ (forall lang, lang ≠ UNKNOWN -> matchCount ld lang code = 0 ->
     DetectFromContent ld v code ≠ lang).
Proof.
  split.
  - intros Hnone.
    destruct (DetectFromContent_matched ld v code _ eq_refl) as [H|H]; [exact H|].
    rewrite Hnone in H. lia.
  - intros lang Hne Hzero Heq.
    destruct (DetectFromContent_matched ld v code lang Heq) as [H|H]; [contradiction|].
    rewrite Hzero in H. lia.
Qed.

Lemma matchCount_none ld code :
  map_Forall (fun _ ps => Forall (fun p => MatchString p code = false) ps) (patterns ld) ->
  forall lang, matchCount ld lang code = 0.
Proof.
  intros H lang. unfold matchCount.
  destruct (patterns ld !! lang) as [ps|] eqn:Hps; [|reflexivity].
  specialize (H lang ps Hps). cbn beta in H. clear Hps.
  induction H as [|p ps Hp _ IH]; [reflexivity|].
  rewrite filter_cons. rewrite decide_False; [exact IH|].
  rewrite Hp. discriminate.
Qed.

Lemma DetectFromContent_unknown_without_match_witness :
  DetectFromContent NewLanguageDetector visit_ts_first plain_code = UNKNOWN
  ∧ DetectFromContent NewLanguageDetector visit_ts_first tie_code ≠ JAVA.
Proof.
  destruct (DetectFromContent_unknown_without_match NewLanguageDetector
              visit_ts_first plain_code) as [H1 _].
  destruct (DetectFromContent_unknown_without_match NewLanguageDetector
              visit_ts_first tie_code) as [_ H2].
  split.
  - apply H1. apply matchCount_none.
    apply (bool_decide_unpack _). vm_compute. exact I.
  - apply H2; [discriminate|]. vm_compute. reflexivity.
Defined.

Lemma Ext_nonempty_path filePath :
  Strings.ToLower (Strings.Ext filePath) ≠ "" -> filePath ≠ "".
Proof. intros H ->. apply H. reflexivity. Qed.

Lemma DetectFromExtension_table filePath ext tag :
  Strings.ToLower (Strings.Ext filePath) = ext ->
  (ext, tag) ∈ extension_table ->
  filePath ≠ "" ∧ DetectFromExtension filePath = tag ∧ tag ≠ UNKNOWN.
Proof.
  intros Hext Hin.
  assert (filePath ≠ "") as Hne.
  { apply Ext_nonempty_path. rewrite Hext.
    unfold extension_table in Hin.
    repeat (apply elem_of_cons in Hin as [[= -> _]|Hin]; [discriminate|]).
    inversion Hin. }
  split; [exact Hne|].
  unfold DetectFromExtension. rewrite decide_False by exact Hne.
  cbv zeta. rewrite Hext.
  unfold extension_table in Hin.
  repeat (apply elem_of_cons in Hin as [[= -> ->]|Hin]; [split; [reflexivity|discriminate]|]).
  inversion Hin.
Qed.

(** What [Detect] returns for a path whose extension is in the table: the
    mapped tag when the tag is not one whose match is checked against the
    content (java, csharp); when it is (the two React tags, for .tsx, .ts,
    .jsx and .js), the verdict of the content stage: that of the first
    evaluation when it agrees with the extension, else that of the second,
    and simply [DetectFromContent code] when both evaluations visit the
    maps in the same order. *)
Theorem Detect_extension_table ld v1 v2 code filePath ext tag :
  Strings.ToLower (Strings.Ext filePath) = ext ->
  (ext, tag) ∈ extension_table ->
  (¬ ambiguous tag -> Detector.Detect ld v1 v2 "" filePath = tag)
  ∧ (ambiguous tag ->
     Detector.Detect ld v1 v2 code filePath
     = (if decide (DetectFromContent ld v1 code = tag)
        then DetectFromContent ld v1 code
        else DetectFromContent ld v2 code)
     ∧ (v1 = v2 -> Detector.Detect ld v1 v2 code filePath = DetectFromContent ld v1 code)).
Proof.
  intros Hext Hin.
  destruct (DetectFromExtension_table filePath ext tag Hext Hin) as (Hne & Htag & Hunk).
  unfold Detector.Detect, ambiguous. cbv zeta. rewrite Htag.
  destruct (decide (filePath ≠ "")) as [_|?]; [|contradiction].
  destruct (decide (tag ≠ UNKNOWN)) as [_|?]; [|contradiction].
  split; intros Ha.
  - destruct (decide (tag = REACT_TYPESCRIPT ∨ tag = REACT_JAVASCRIPT));
      [contradiction|reflexivity].
  - destruct (decide (tag = REACT_TYPESCRIPT ∨ tag = REACT_JAVASCRIPT));
      [|contradiction].
    split.
    + case_decide as Hc; [symmetry; exact Hc|reflexivity].
    + intros <-. case_decide as Hc; [symmetry; exact Hc|reflexivity].
Qed.

Lemma Detect_extension_table_witness :
  Detector.Detect NewLanguageDetector visit_ts_first visit_js_first "" "src/Main.java" = JAVA
  ∧ Detector.Detect NewLanguageDetector visit_js_first visit_js_first tie_code "Component.tsx"
    = DetectFromContent NewLanguageDetector visit_js_first tie_code.
Proof.
  destruct (Detect_extension_table NewLanguageDetector visit_ts_first visit_js_first
              "" "src/Main.java" ".java" JAVA) as [H1 _].
  { vm_compute. reflexivity. }
  { apply (bool_decide_unpack _). vm_compute. exact I. }
  destruct (Detect_extension_table NewLanguageDetector visit_js_first visit_js_first
              tie_code "Component.tsx" ".tsx" REACT_TYPESCRIPT) as [_ H2].
  { vm_compute. reflexivity. }
  { apply (bool_decide_unpack _). vm_compute. exact I. }
  split.
  - apply H1. intros [H|H]; discriminate.
  - apply H2; [left; reflexivity|reflexivity].
Defined.

(** No signature matches the empty body. *)
Lemma DetectFromContent_empty v :
  DetectFromContent NewLanguageDetector v "" = UNKNOWN.
Proof.
  destruct (DetectFromContent_matched NewLanguageDetector v "" _ eq_refl)
    as [H|H]; [exact H|].
  rewrite matchCount_none in H; [lia|].
  apply (bool_decide_unpack _). vm_compute. exact I.
Qed.

(** C4: the extension does not decide for .tsx and .jsx.  The table maps
    Component.tsx to the TypeScript tag and Component.jsx to the
    JavaScript tag, and the comments of the source ask for a check of the
    content for .ts and .js only.  Yet [Detect] checks every React tag
    against the content, so on the empty body it returns "unknown" for
    both paths, whatever the order of iteration, where the specification
    has an unambiguous extension return the mapped tag. *)
Theorem Detect_distrusts_tsx_and_jsx v1 v2 :
  (".tsx", REACT_TYPESCRIPT) ∈ extension_table
  ∧ (".jsx", REACT_JAVASCRIPT) ∈ extension_table
  ∧ DetectFromExtension "Component.tsx" = REACT_TYPESCRIPT
  ∧ DetectFromExtension "Component.jsx" = REACT_JAVASCRIPT
  ∧ Detector.Detect NewLanguageDetector v1 v2 "" "Component.tsx" = UNKNOWN
  ∧ Detector.Detect NewLanguageDetector v1 v2 "" "Component.jsx" = UNKNOWN.
Proof.
  split; [apply (bool_decide_unpack _); vm_compute; exact I|].
  split; [apply (bool_decide_unpack _); vm_compute; exact I|].
  split; [reflexivity|]. split; [reflexivity|].
  unfold Detector.Detect. cbn zeta. rewrite !DetectFromContent_empty.
  split; vm_compute; reflexivity.
Qed.


(** ** The preprocessor *)

(** C2: [PreprocessCode] does not keep the newlines of a block comment
    that spans lines: one newline goes in, none comes out, although the
    function is documented as maintaining line structure. *)
Theorem PreprocessCode_drops_newlines :
  PreprocessCode block_comment_code JAVA = "int a;  int b;"
  ∧ newlines block_comment_code = 1
  ∧ newlines (PreprocessCode block_comment_code JAVA) = 0.
Proof. repeat split; vm_compute; reflexivity. Qed.

Lemma PreprocessCode_other_language code language :
  language ∉ all_languages -> PreprocessCode code language = code.
Proof.
  intros Hn. unfold PreprocessCode. rewrite decide_False; [reflexivity|].
  intros H. apply Hn. unfold all_languages.
  rewrite !elem_of_cons. tauto.
Qed.


(** ** The matching engine *)

Section Engine.
Context {A : Type}.
Implicit Types (k : list ascii -> option A) (s : list ascii).

Lemma lit_cons c l : l ≠ [] -> lit (c :: l) = Cat (Chr (Bytes.eq c)) (lit l).
Proof. destruct l; [contradiction|reflexivity]. Qed.

Lemma eq_refl_byte c : Bytes.eq c c = true.
Proof. apply Ascii.eqb_refl. Qed.

Lemma run_lit_app l : forall s cs (k : list ascii -> captures -> option A),
  run (lit l) (l ++ s) cs k = k s cs.
Proof.
  induction l as [|c l IH]; intros s cs k; [reflexivity|].
  destruct l as [|d l].
  - cbn [lit run app]. rewrite eq_refl_byte. reflexivity.
  - rewrite lit_cons by discriminate.
    cbn [run app]. rewrite eq_refl_byte. apply (IH s cs k).
Qed.

Lemma run_lit_fail l : forall s cs (k : list ascii -> captures -> option A),
  starts_with l s = false -> run (lit l) s cs k = None.
Proof.
  induction l as [|c l IH]; intros s cs k H; [discriminate|].
  destruct l as [|d l].
  - cbn [lit run]. destruct s as [|x s]; [reflexivity|].
    cbn [starts_with] in H.
    destruct (Bytes.eq c x); [discriminate|reflexivity].
  - rewrite lit_cons by discriminate.
    destruct s as [|x s]; [reflexivity|].
    cbn [run]. cbn [starts_with] in H.
    destruct (Bytes.eq c x); [|reflexivity]. apply IH. exact H.
Qed.

Lemma rep_greedy_any_last k s :
  (forall a b, s = a ++ b -> a ≠ [] -> k b = None) ->
  rep_greedy cls_any s k = k s.
Proof.
  induction s as [|c s IH]; intros H; [reflexivity|].
  simpl. rewrite IH.
  - rewrite (H [c] s); [reflexivity|reflexivity|discriminate].
  - intros a b -> Ha. apply (H (c :: a) b); [reflexivity|discriminate].
Qed.

Lemma rep_greedy_any_app k a : forall b x,
  rep_greedy cls_any b k = Some x -> rep_greedy cls_any (a ++ b) k = Some x.
Proof.
  induction a as [|c a IH]; intros b x H; [exact H|].
  simpl. rewrite (IH b x H). reflexivity.
Qed.

Lemma rep_greedy_prefix p k a : forall b x,
  Forall (fun c => p c = true) a ->
  k b = Some x ->
  (match b with c :: _ => p c = false | [] => True end) ->
  rep_greedy p (a ++ b) k = Some x.
Proof.
  induction a as [|c a IH]; intros b x Ha Hk Hb.
  - destruct b as [|c b]; [exact Hk|]. simpl. rewrite Hb. exact Hk.
  - inversion Ha as [|? ? Hc Ha']; subst. simpl. rewrite Hc.
    rewrite (IH b x Ha' Hk Hb). reflexivity.
Qed.

Lemma rep_lazy_any_first k a : forall b,
  (forall a1 a2, a = a1 ++ a2 -> a2 ≠ [] -> k (a2 ++ b) = None) ->
  rep_lazy cls_any (a ++ b) k = rep_lazy cls_any b k.
Proof.
  induction a as [|c a IH]; intros b H; [reflexivity|].
  pose proof (H [] (c :: a) eq_refl ltac:(discriminate)) as H0.
  simpl in *. rewrite H0.
  apply IH. intros a1 a2 -> Ha2. apply (H (c :: a1) a2); [reflexivity|exact Ha2].
Qed.

Lemma rep_lazy_here k s x : k s = Some x -> rep_lazy cls_any s k = Some x.
Proof. intros H. destruct s; simpl; rewrite H; reflexivity. Qed.
End Engine.

Lemma find_from_none r : forall s before,
  (forall a b, s = a ++ b -> match_here r b = None) ->
  find_from r before s = None.
Proof.
  induction s as [|c s IH]; intros before H.
  - simpl. rewrite (H [] [] eq_refl). reflexivity.
  - simpl. rewrite (H [] (c :: s) eq_refl). apply IH.
    intros a b ->. apply (H (c :: a) b). reflexivity.
Qed.

Lemma find_from_skip r p : forall s before,
  (forall a1 a2, p = a1 ++ a2 -> a2 ≠ [] -> match_here r (a2 ++ s) = None) ->
  find_from r before (p ++ s) = find_from r (before ++ p) s.
Proof.
  induction p as [|c p IH]; intros s before H.
  - rewrite app_nil_r. reflexivity.
  - pose proof (H [] (c :: p) eq_refl ltac:(discriminate)) as H0.
    simpl in *. rewrite H0. rewrite IH.
    + rewrite <- app_assoc. reflexivity.
    + intros a1 a2 -> Ha. apply (H (c :: a1) a2); [reflexivity|exact Ha].
Qed.

Lemma find_from_here r before s rest cs :
  match_here r s = Some (rest, cs) ->
  find_from r before s = Some (before, take (length s - length rest) s, rest, cs).
Proof. intros H. destruct s; simpl; rewrite H; reflexivity. Qed.

Lemma match_here_codeBlock_none s :
  starts_with fence s = false -> match_here codeBlockRegex s = None.
Proof.
  intros H. unfold match_here, codeBlockRegex. cbn [cats run].
  apply run_lit_fail. exact H.
Qed.

Lemma find_codeBlock_none s :
  contains fence s = false -> find codeBlockRegex s = None.
Proof.
  intros H. apply find_from_none. intros a b ->.
  apply match_here_codeBlock_none. apply contains_false_starts.
  eapply contains_app_r. exact H.
Qed.

Lemma match_here_json_none_nil : match_here jsonRegex [] = None.
Proof. reflexivity. Qed.

Lemma match_here_json_none c s :
  c ≠ "["%char -> c ≠ "{"%char -> match_here jsonRegex (c :: s) = None.
Proof.
  intros H1 H2. unfold match_here, jsonRegex. cbn [cats run lit Bytes.of_string list_ascii_of_string].
  replace (Bytes.eq "[" c) with false by (symmetry; apply Ascii.eqb_neq; congruence).
  replace (Bytes.eq "{" c) with false by (symmetry; apply Ascii.eqb_neq; congruence).
  reflexivity.
Qed.

Lemma match_here_json_array mid tail :
  Forall (fun c => c ≠ "]"%char) tail ->
  match_here jsonRegex ("["%char :: mid ++ "]"%char :: tail)
  = Some (tail, [(1, "["%char :: mid ++ ["]"%char])]).
Proof.
  intros Ht. unfold match_here, jsonRegex.
  cbn [cats run lit Bytes.of_string list_ascii_of_string].
  rewrite eq_refl_byte.
  set (k := fun s' : list ascii => match s' with
              | [] => None
              | c :: s'0 => if Bytes.eq "]" c then _ else None
              end).
  assert (rep_greedy cls_any (mid ++ "]"%char :: tail) k = k ("]"%char :: tail)) as ->.
  { assert (rep_greedy cls_any ("]"%char :: tail) k = k ("]"%char :: tail)) as Hl.
    { apply rep_greedy_any_last. intros a b Heq Ha.
      destruct a as [|x a]; [contradiction|]. injection Heq as _ ->.
      destruct b as [|y b]; [reflexivity|].
      apply Forall_app in Ht as [_ Ht]. inversion Ht; subst.
      subst k. cbn beta iota.
      replace (Bytes.eq "]" y) with false; [reflexivity|].
      symmetry. apply Ascii.eqb_neq. congruence. }
    assert (exists x, k ("]"%char :: tail) = Some x) as [x Hx].
    { subst k. cbn beta iota. rewrite eq_refl_byte. eauto. }
    rewrite Hx in *. apply rep_greedy_any_app. exact Hl. }
  subst k. cbn beta iota. rewrite eq_refl_byte.
  f_equal. f_equal. f_equal. f_equal.
  change ("["%char :: mid ++ "]"%char :: tail) with (("["%char :: mid) ++ "]"%char :: tail).
  replace (("["%char :: mid) ++ "]"%char :: tail) with (("["%char :: mid ++ ["]"%char]) ++ tail)
    by (simpl; rewrite <- app_assoc; reflexivity).
  apply take_prefix_len.
Qed.

Lemma core_app (mid tail : list ascii) :
  "["%char :: mid ++ "]"%char :: tail = ("["%char :: mid ++ ["]"%char]) ++ tail.
Proof. simpl. rewrite <- app_assoc. reflexivity. Qed.

Lemma find_json_array pre mid tail :
  Forall (fun c => c ≠ "["%char ∧ c ≠ "{"%char) pre ->
  Forall (fun c => c ≠ "]"%char) tail ->
  find jsonRegex (pre ++ "["%char :: mid ++ "]"%char :: tail)
  = Some (pre, "["%char :: mid ++ ["]"%char], tail, [(1, "["%char :: mid ++ ["]"%char])]).
Proof.
  intros Hpre Ht. unfold find. rewrite find_from_skip.
  - rewrite (find_from_here _ _ _ _ _ (match_here_json_array mid tail Ht)).
    rewrite core_app, take_prefix_len. reflexivity.
  - intros a1 a2 -> Ha. destruct a2 as [|c a2]; [contradiction|].
    apply Forall_app in Hpre as [_ Hpre]. inversion Hpre as [|? ? [H1 H2] _]; subst.
    apply match_here_json_none; assumption.
Qed.

Lemma match_here_codeBlock_fenced w inner :
  Forall (fun c => cls_s c = true) w ->
  (match inner with c :: _ => cls_s c = false | [] => False end) ->
  contains fence inner = false ->
  match_here codeBlockRegex
    (fence ++ Bytes.of_string "json" ++ w ++ inner ++ [Bytes.nl] ++ fence)
  = Some ([], [(1, inner ++ [Bytes.nl])]).
Proof.
  intros Hw Hin Hnf. unfold match_here, codeBlockRegex. cbn [cats run].
  rewrite run_lit_app. unfold opt. cbn [run].
  rewrite run_lit_app.
  match goal with
  | |- match rep_greedy cls_s _ ?k0 with _ => _ end = _ => set (k := k0)
  end.
  assert (k (inner ++ [Bytes.nl] ++ fence) = Some ([], [(1, inner ++ [Bytes.nl])])) as Hk.
  { subst k. cbn beta.
    rewrite (app_assoc inner [Bytes.nl] fence).
    rewrite rep_lazy_any_first.
    - erewrite rep_lazy_here; [reflexivity|].
      pose proof (run_lit_app (A := list ascii * captures) fence []) as Hl.
      rewrite app_nil_r in Hl. unfold fence in Hl at 1. rewrite Hl.
      rewrite take_prefix_len. reflexivity.
    - intros a1 a2 Heq Ha. apply run_lit_fail.
      eapply (no_early_occurrence fence Bytes.nl inner); eauto.
      repeat constructor; discriminate. }
  rewrite (rep_greedy_prefix cls_s k w _ _ Hw Hk); [reflexivity|].
  destruct inner as [|c inner]; [contradiction|exact Hin].
Qed.


(** ** [TrimSpace] and [extractJSON] on bracketed text *)

Lemma is_ws_cases c :
  Json.is_ws c = true -> c = Bytes.sp ∨ c = Bytes.tab ∨ c = Bytes.nl ∨ c = Bytes.cr.
Proof.
  unfold Json.is_ws, Bytes.one_of. cbn [existsb]. rewrite !orb_true_iff.
  unfold Bytes.eq. rewrite !Ascii.eqb_eq. intuition (try discriminate).
Qed.

Lemma is_ws_cls_s c : Json.is_ws c = true -> cls_s c = true.
Proof. intros H. apply is_ws_cases in H as [-> | [-> | [-> | ->]]]; reflexivity. Qed.

Lemma strip_space c rest :
  Json.is_ws c = true -> strip_any spaces (c :: rest) = Some rest.
Proof. intros H. apply is_ws_cases in H as [-> | [-> | [-> | ->]]]; reflexivity. Qed.

Lemma strip_space_rev c rest :
  Json.is_ws c = true -> strip_any (map (@rev ascii) spaces) (c :: rest) = Some rest.
Proof. intros H. apply is_ws_cases in H as [-> | [-> | [-> | ->]]]; reflexivity. Qed.

Lemma trim_left_stop ps fuel s : strip_any ps s = None -> trim_left ps fuel s = s.
Proof. intros H. destruct fuel; simpl; [reflexivity|]. rewrite H. reflexivity. Qed.

Lemma trim_left_spaces ps w s : forall fuel,
  Forall (fun c => forall rest, strip_any ps (c :: rest) = Some rest) w ->
  strip_any ps s = None ->
  length w <= fuel ->
  trim_left ps fuel (w ++ s) = s.
Proof.
  induction w as [|c w IH]; intros fuel Hw Hs Hf.
  - apply trim_left_stop. exact Hs.
  - inversion Hw as [|? ? Hc Hw']; subst.
    destruct fuel as [|fuel]; [simpl in Hf; lia|].
    simpl. rewrite Hc. apply IH; [assumption|assumption|simpl in Hf; lia].
Qed.

Lemma TrimSpace_bracketed w1 mid w2 :
  Forall (fun c => Json.is_ws c = true) w1 ->
  Forall (fun c => Json.is_ws c = true) w2 ->
  TrimSpace (Bytes.to_string (w1 ++ bracketed mid ++ w2))
  = Bytes.to_string (bracketed mid).
Proof.
  intros H1 H2. unfold TrimSpace. rewrite of_to_string, length_to_string.
  rewrite (trim_left_spaces spaces w1 (bracketed mid ++ w2)).
  - rewrite rev_app_distr.
    rewrite (trim_left_spaces _ (rev w2) (rev (bracketed mid))).
    + rewrite rev_involutive. reflexivity.
    + apply Forall_forall. intros c Hc rest. apply strip_space_rev.
      rewrite Forall_forall in H2. apply H2. apply list_elem_of_In.
      apply In_rev. apply list_elem_of_In. exact Hc.
    + unfold bracketed. simpl. rewrite rev_app_distr. reflexivity.
    + rewrite length_app, !length_rev. lia.
  - apply Forall_forall. intros c Hc rest. apply strip_space.
    rewrite Forall_forall in H1. apply H1. exact Hc.
  - reflexivity.
  - rewrite length_app. lia.
Qed.

Lemma extractJSON_embedded pre w1 mid w2 post :
  contains fence (pre ++ w1 ++ bracketed mid ++ w2 ++ post) = false ->
  Forall (fun c => c ≠ "["%char ∧ c ≠ "{"%char) pre ->
  Forall (fun c => Json.is_ws c = true) w1 ->
  Forall (fun c => Json.is_ws c = true) w2 ->
  Forall (fun c => c ≠ "]"%char) post ->
  extractJSON (Bytes.to_string (pre ++ w1 ++ bracketed mid ++ w2 ++ post))
  = Bytes.to_string (bracketed mid).
Proof.
  intros Hnf Hpre H1 H2 Hpost. unfold extractJSON, FindStringSubmatch.
  rewrite of_to_string. rewrite (find_codeBlock_none _ Hnf).
  cbn [length]. rewrite decide_False by lia.
  replace (pre ++ w1 ++ bracketed mid ++ w2 ++ post)
    with ((pre ++ w1) ++ "["%char :: mid ++ "]"%char :: (w2 ++ post)).
  2:{ unfold bracketed. norm_app. reflexivity. }
  rewrite find_json_array.
  - cbn [NumSubexp jsonRegex cats]. cbn. rewrite decide_True by lia.
    pose proof (TrimSpace_bracketed [] mid [] ltac:(constructor) ltac:(constructor)) as Ht.
    rewrite app_nil_r in Ht. exact Ht.
  - apply Forall_app. split; [exact Hpre|].
    eapply Forall_impl; [exact H1|]. intros c Hc.
    apply is_ws_cases in Hc as [-> | [-> | [-> | ->]]]; split; discriminate.
  - apply Forall_app. split; [|exact Hpost].
    eapply Forall_impl; [exact H2|]. intros c Hc.
    apply is_ws_cases in Hc as [-> | [-> | [-> | ->]]]; discriminate.
Qed.

Lemma extractJSON_fenced w1 mid w2 :
  contains fence (w1 ++ bracketed mid ++ w2) = false ->
  Forall (fun c => Json.is_ws c = true) w1 ->
  Forall (fun c => Json.is_ws c = true) w2 ->
  extractJSON (Bytes.to_string
    (fence ++ Bytes.of_string "json" ++ [Bytes.nl]
     ++ (w1 ++ bracketed mid ++ w2) ++ [Bytes.nl] ++ fence))
  = Bytes.to_string (bracketed mid).
Proof.
  intros Hnf H1 H2. unfold extractJSON, FindStringSubmatch.
  rewrite of_to_string. unfold find.
  replace (fence ++ Bytes.of_string "json" ++ [Bytes.nl]
           ++ (w1 ++ bracketed mid ++ w2) ++ [Bytes.nl] ++ fence)
    with (fence ++ Bytes.of_string "json" ++ (Bytes.nl :: w1)
          ++ (bracketed mid ++ w2) ++ [Bytes.nl] ++ fence).
  2:{ unfold bracketed. norm_app. reflexivity. }
  erewrite find_from_here.
  2:{ apply match_here_codeBlock_fenced.
      - constructor; [reflexivity|]. eapply Forall_impl; [exact H1|].
        intros c. apply is_ws_cls_s.
      - reflexivity.
      - eapply contains_app_r. exact Hnf. }
  cbn [NumSubexp codeBlockRegex cats]. cbn -[TrimSpace bracketed app].
  rewrite decide_True by lia.
  pose proof (TrimSpace_bracketed [] mid (w2 ++ [Bytes.nl])) as Ht.
  rewrite <- app_assoc. apply Ht; [constructor|].
  apply Forall_app. split; [exact H2|]. repeat constructor.
Qed.


(** ** The JSON scanner and parser: the shape of an array text *)

Lemma word_token_cases w ts :
  word_token w = Some ts ->
  (w = [] ∧ ts = []) ∨ (w ≠ [] ∧ exists t, ts = [t] ∧ ¬ is_bracket t).
Proof.
  unfold word_token, is_bracket. destruct w as [|c w]; [intros [= <-]; left; auto|].
  intros H. right. split; [discriminate|].
  repeat case_decide; try destruct (is_number _); simplify_eq;
    eexists; (split; [reflexivity|]); intros [?|?]; discriminate.
Qed.

Lemma punct_inv c t :
  punct c = Some t ->
  (t = TLBrace ∧ c = "{"%char) ∨ (t = TRBrace ∧ c = "}"%char)
  ∨ (t = TLBracket ∧ c = "["%char) ∨ (t = TRBracket ∧ c = "]"%char)
  ∨ (t = TColon ∧ c = ":"%char) ∨ (t = TComma ∧ c = ","%char).
Proof.
  unfold punct, Bytes.eq.
  destruct (Ascii.eqb_spec "{" c) as [<-|_]; [intros [= <-]; tauto|].
  destruct (Ascii.eqb_spec "}" c) as [<-|_]; [intros [= <-]; tauto|].
  destruct (Ascii.eqb_spec "[" c) as [<-|_]; [intros [= <-]; tauto|].
  destruct (Ascii.eqb_spec "]" c) as [<-|_]; [intros [= <-]; tauto|].
  destruct (Ascii.eqb_spec ":" c) as [<-|_]; [intros [= <-]; tauto|].
  destruct (Ascii.eqb_spec "," c) as [<-|_]; [intros [= <-]; tauto|].
  intros [=].
Qed.

Lemma punct_lbracket c : punct c = Some TLBracket -> c = "["%char.
Proof.
  intros H. apply punct_inv in H.
  destruct H as [[[=] _]|[[[=] _]|[[_ H]|[[[=] _]|[[[=] _]|[[=] _]]]]]]. exact H.
Qed.

Lemma punct_rbracket c : punct c = Some TRBracket -> c = "]"%char.
Proof.
  intros H. apply punct_inv in H.
  destruct H as [[[=] _]|[[[=] _]|[[[=] _]|[[_ H]|[[[=] _]|[[=] _]]]]]]. exact H.
Qed.

Lemma is_ws_not_word c : is_ws c = true -> is_word c = false.
Proof. intros H. apply is_ws_cases in H as [-> | [-> | [-> | ->]]]; reflexivity. Qed.

Lemma idle_unit_done acc hi u : idle (unit_done acc hi u) = false.
Proof. unfold unit_done. destruct hi; repeat case_match; reflexivity. Qed.

Lemma idle_word_snoc w c : idle (Word (w ++ [c])) = false.
Proof. destruct w; reflexivity. Qed.

Lemma scan_cons st c s :
  scan st (c :: s) = '(ts, st') ← step st c; (ts ++.) <$> scan st' s.
Proof. reflexivity. Qed.

Lemma step_ws_idle c : is_ws c = true -> step (Word []) c = Some ([], Word []).
Proof.
  intros H. unfold step. rewrite (is_ws_not_word c H).
  cbn -[is_ws]. rewrite H. reflexivity.
Qed.

Lemma scan_ws_prefix w s :
  Forall (fun c => is_ws c = true) w -> scan (Word []) (w ++ s) = scan (Word []) s.
Proof.
  induction 1 as [|c w Hc Hw IH]; [reflexivity|].
  cbn [app]. rewrite scan_cons, (step_ws_idle c Hc). cbn -[scan]. rewrite IH.
  destruct (scan (Word []) s); reflexivity.
Qed.

Lemma step_ws_finish st c :
  is_ws c = true ->
  match step st c with
  | None => finish st = None
  | Some (ts, st') => finish st = (ts ++.) <$> finish st'
  end.
Proof.
  intros H. destruct st as [w|acc hi|acc hi|acc hi todo u]; cbn [step finish].
  - rewrite (is_ws_not_word c H).
    destruct (word_token w) as [ts|] eqn:Hw; cbn -[is_ws]; [|reflexivity].
    rewrite H. cbn. rewrite app_nil_r. reflexivity.
  - apply is_ws_cases in H as [-> | [-> | [-> | ->]]]; reflexivity.
  - apply is_ws_cases in H as [-> | [-> | [-> | ->]]]; reflexivity.
  - apply is_ws_cases in H as [-> | [-> | [-> | ->]]]; reflexivity.
Qed.

Lemma scan_ws_end w : forall st,
  Forall (fun c => is_ws c = true) w -> scan st w = finish st.
Proof.
  induction w as [|c w IH]; intros st Hw; [reflexivity|].
  inversion Hw as [|? ? Hc Hw']; subst.
  rewrite scan_cons. pose proof (step_ws_finish st c Hc) as Hs.
  destruct (step st c) as [[ts st']|]; cbn; [|symmetry; exact Hs].
  rewrite IH by exact Hw'. symmetry. exact Hs.
Qed.

Lemma scan_ws_suffix s w : forall st,
  Forall (fun c => is_ws c = true) w -> scan st (s ++ w) = scan st s.
Proof.
  induction s as [|c s IH]; intros st Hw.
  - apply scan_ws_end. exact Hw.
  - cbn [app]. rewrite !scan_cons.
    destruct (step st c) as [[ts st']|]; cbn; [|reflexivity].
    rewrite IH by exact Hw. reflexivity.
Qed.

Lemma step_head st c P st' :
  step st c = Some (P, st') ->
  match P with
  | t :: _ => (t = TLBracket -> idle st = true ∧ c = "["%char)
  | [] => (idle st' = true -> idle st = true ∧ is_ws c = true)
  end.
Proof.
  destruct st as [w|acc hi|acc hi|acc hi todo u]; cbn [step].
  - destruct (is_word c) eqn:Hword.
    { intros [= <- <-]. rewrite idle_word_snoc. discriminate. }
    destruct (word_token w) as [ts|] eqn:Hw; cbn [mbind option_bind]; [|discriminate].
    apply word_token_cases in Hw as [[-> ->]|(Hne & t & -> & Ht)].
    + destruct (is_ws c) eqn:Hws; [intros [= <- <-]; auto|].
      destruct (Bytes.eq Bytes.dq c); [intros [= <- <-]; discriminate|].
      destruct (punct c) as [t|] eqn:Hp; cbn [mbind option_bind]; [|discriminate].
      intros [= <- <-] ->. split; [reflexivity|]. apply punct_lbracket. exact Hp.
    + destruct (is_ws c); [intros [= <- <-] ->; exfalso; apply Ht; left; reflexivity|].
      destruct (Bytes.eq Bytes.dq c); [intros [= <- <-] ->; exfalso; apply Ht; left; reflexivity|].
      destruct (punct c); cbn [mbind option_bind]; [|discriminate].
      intros [= <- <-] ->; exfalso; apply Ht; left; reflexivity.
  - destruct (Bytes.eq Bytes.dq c); [intros [= <- <-]; discriminate|].
    destruct (Bytes.eq "\" c); [intros [= <- <-]; discriminate|].
    destruct (Bytes.code c <? 32)%N; [discriminate|].
    intros [= <- <-]; discriminate.
  - destruct (Bytes.eq "u" c); [intros [= <- <-]; discriminate|].
    destruct (escape c); cbn [mbind option_bind]; [|discriminate]. intros [= <- <-]; discriminate.
  - destruct (hex_digit c); cbn [mbind option_bind]; [|discriminate].
    destruct todo as [|[|todo]]; [discriminate| |].
    + intros [= <- <-]. rewrite idle_unit_done. discriminate.
    + intros [= <- <-]. discriminate.
Qed.

Lemma step_last st c P st' P' :
  step st c = Some (P, st') -> P = P' ++ [TRBracket] ->
  c = "]"%char ∧ idle st' = true.
Proof.
  destruct st as [w|acc hi|acc hi|acc hi todo u]; cbn [step].
  - destruct (is_word c); [intros [= <- <-] H; destruct P'; discriminate|].
    destruct (word_token w) as [ts|] eqn:Hw; cbn [mbind option_bind]; [|discriminate].
    assert (forall Q, ts = Q ++ [TRBracket] -> False) as Hts.
    { intros Q ->. apply word_token_cases in Hw as [[_ H]|(_ & t & H & Ht)].
      - destruct Q; discriminate.
      - destruct Q as [|q [|q' Q]]; try discriminate.
        injection H as <-. apply Ht. right. reflexivity. }
    destruct (is_ws c); [intros [= <- <-] H; destruct (Hts _ H)|].
    destruct (Bytes.eq Bytes.dq c); [intros [= <- <-] H; destruct (Hts _ H)|].
    destruct (punct c) as [t|] eqn:Hp; cbn [mbind option_bind]; [|discriminate].
    intros [= <- <-] H. apply app_inj_tail in H as [_ ->].
    split; [apply punct_rbracket; exact Hp|reflexivity].
  - destruct (Bytes.eq Bytes.dq c).
    { intros [= <- <-] H. destruct P' as [|? [|? ?]]; discriminate. }
    destruct (Bytes.eq "\" c); [intros [= <- <-] H; destruct P'; discriminate|].
    destruct (Bytes.code c <? 32)%N; [discriminate|].
    intros [= <- <-] H; destruct P'; discriminate.
  - destruct (Bytes.eq "u" c); [intros [= <- <-] H; destruct P'; discriminate|].
    destruct (escape c); cbn [mbind option_bind]; [|discriminate].
    intros [= <- <-] H; destruct P'; discriminate.
  - destruct (hex_digit c); cbn [mbind option_bind]; [|discriminate].
    destruct todo as [|[|todo]]; [discriminate| |];
      intros [= <- <-] H; destruct P'; discriminate.
Qed.

Lemma finish_no_bracket st ts :
  finish st = Some ts -> ts = [] ∧ idle st = true ∨ exists t, ts = [t] ∧ ¬ is_bracket t.
Proof.
  destruct st; cbn [finish]; try discriminate.
  intros H. apply word_token_cases in H as [[-> ->]|(_ & t & -> & Ht)]; eauto.
Qed.

Lemma scan_inv st c s ts :
  scan st (c :: s) = Some ts ->
  exists P st' R, step st c = Some (P, st') ∧ scan st' s = Some R ∧ ts = P ++ R.
Proof.
  rewrite scan_cons. destruct (step st c) as [[P st']|]; cbn -[scan]; [|discriminate].
  destruct (scan st' s) as [R|] eqn:HR; cbn; [|discriminate].
  intros [= <-]. exists P, st', R. auto.
Qed.

Lemma scan_first s : forall st ts,
  scan st s = Some (TLBracket :: ts) ->
  idle st = true
  ∧ exists w1 rest, s = w1 ++ "["%char :: rest
                    ∧ Forall (fun c => is_ws c = true) w1
                    ∧ scan (Word []) rest = Some ts.
Proof.
  induction s as [|c s IH]; intros st ts H.
  - cbn in H. apply finish_no_bracket in H as [[H _]|(t & [= <- _] & Ht)]; [discriminate|].
    exfalso. apply Ht. left. reflexivity.
  - apply scan_inv in H as (P & st' & R & Hstep & HR & Heq).
    pose proof (step_head _ _ _ _ Hstep) as Hh.
    destruct P as [|t P].
    + cbn in Heq. subst R. apply IH in HR as (Hi & w1 & rest & -> & Hw & Hrest).
      destruct (Hh Hi) as [Hi' Hc]. split; [exact Hi'|].
      exists (c :: w1), rest. split; [reflexivity|]. split; [constructor; assumption|exact Hrest].
    + injection Heq as <- ->. destruct (Hh eq_refl) as [Hi ->].
      split; [exact Hi|]. exists [], s. split; [reflexivity|]. split; [constructor|].
      destruct st as [[|? ?]| | |]; try discriminate. cbn in Hstep.
      injection Hstep as <- <-. exact HR.
Qed.

Lemma scan_nil s : forall st,
  scan st s = Some [] -> idle st = true ∧ Forall (fun c => is_ws c = true) s.
Proof.
  induction s as [|c s IH]; intros st H.
  - cbn in H. apply finish_no_bracket in H as [[_ H]|(t & [=] & _)]. auto.
  - apply scan_inv in H as (P & st' & R & Hstep & HR & Heq).
    symmetry in Heq. apply app_eq_nil in Heq as [-> ->].
    apply IH in HR as [Hi Hs].
    destruct (step_head _ _ _ _ Hstep Hi) as [Hi' Hc]. auto.
Qed.

Lemma scan_last s : forall st ts,
  scan st s = Some (ts ++ [TRBracket]) ->
  exists body w2, s = body ++ "]"%char :: w2 ∧ Forall (fun c => is_ws c = true) w2.
Proof.
  induction s as [|c s IH]; intros st ts H.
  - cbn in H. apply finish_no_bracket in H as [[H _]|(t & H & Ht)].
    + destruct ts; discriminate.
    + destruct ts as [|? [|? ?]]; try discriminate. injection H as <-.
      exfalso. apply Ht. right. reflexivity.
  - apply scan_inv in H as (P & st' & R & Hstep & HR & Heq).
    destruct R as [|x R _] using rev_ind.
    + rewrite app_nil_r in Heq. symmetry in Heq.
      destruct (step_last _ _ _ _ _ Hstep Heq) as [-> _].
      apply scan_nil in HR as [_ Hs]. exists [], s. auto.
    + rewrite app_assoc in Heq. apply app_inj_tail in Heq as [_ <-].
      apply IH in HR as (body & w2 & -> & Hw). exists (c :: body), w2. auto.
Qed.

Lemma parse_closes fuel :
  (forall d ts v r, parse_value fuel d ts = Some (v, r) ->
     exists p, ts = p ++ r
       ∧ (forall xs, v = Array xs -> exists p', p = TLBracket :: p' ++ [TRBracket]))
  ∧ (forall d ts vs r, parse_elems fuel d ts = Some (vs, r) ->
       exists p, ts = p ++ TRBracket :: r)
  ∧ (forall d ts ms r, parse_members fuel d ts = Some (ms, r) ->
       exists p, ts = p ++ TRBrace :: r).
Proof.
  induction fuel as [|n (IHv & IHe & IHm)]; [repeat split; intros; discriminate|].
  repeat split.
  - intros d ts v r H. cbn [parse_value] in H.
    destruct ts as [|t ts]; [discriminate|].
    destruct t; try discriminate;
      try (injection H as <- <-; eexists [_]; split; [reflexivity|intros; discriminate]).
    + (* object *)
      case_decide; [discriminate|].
      assert ((exists r', ts = TRBrace :: r' ∧ v = Object [] ∧ r = r')
              ∨ (exists ms, parse_members n (S d) ts = Some (ms, r) ∧ v = Object ms))
        as [(r' & -> & -> & ->)|(ms & Hm & ->)].
      { destruct ts as [|t ts']; [|destruct t];
          try (left; injection H as <- <-; eexists; repeat split; reflexivity);
          right;
          (destruct (parse_members n (S d) _) as [[ms r']|] eqn:Hm; cbn in H;
           [injection H as <- <-; eauto | discriminate]). }
      * exists [TLBrace; TRBrace]. split; [reflexivity|intros; discriminate].
      * apply IHm in Hm as [p ->]. exists (TLBrace :: p ++ [TRBrace]).
        split; [cbn; rewrite <- app_assoc; reflexivity|intros; discriminate].
    + (* array *)
      case_decide; [discriminate|].
      assert ((exists r', ts = TRBracket :: r' ∧ v = Array [] ∧ r = r')
              ∨ (exists vs, parse_elems n (S d) ts = Some (vs, r) ∧ v = Array vs))
        as [(r' & -> & -> & ->)|(vs & He & ->)].
      { destruct ts as [|t ts']; [|destruct t];
          try (left; injection H as <- <-; eexists; repeat split; reflexivity);
          right;
          (destruct (parse_elems n (S d) _) as [[vs r']|] eqn:He; cbn in H;
           [injection H as <- <-; eauto | discriminate]). }
      * exists [TLBracket; TRBracket]. split; [reflexivity|]. intros _ _. exists []. reflexivity.
      * apply IHe in He as [p ->]. exists (TLBracket :: p ++ [TRBracket]).
        split; [cbn; rewrite <- app_assoc; reflexivity|]. intros _ _. eauto.
  - intros d ts vs r H. cbn [parse_elems] in H.
    destruct (parse_value n d ts) as [[v r1]|] eqn:Hv; cbn in H; [|discriminate].
    apply IHv in Hv as (p & -> & _).
    destruct r1 as [|t r1]; [discriminate|].
    destruct t; try discriminate.
    + injection H as _ <-. exists p. reflexivity.
    + destruct (parse_elems n d r1) as [[vs' r2]|] eqn:He; cbn in H; [|discriminate].
      injection H as _ <-. apply IHe in He as [p' ->].
      exists (p ++ TComma :: p'). rewrite <- app_assoc. reflexivity.
  - intros d ts ms r H. cbn [parse_members] in H.
    destruct ts as [|t ts]; [discriminate|]. destruct t; try discriminate.
    destruct ts as [|t ts]; [discriminate|]. destruct t; try discriminate.
    destruct (parse_value n d ts) as [[v r1]|] eqn:Hv; cbn in H; [|discriminate].
    apply IHv in Hv as (p & -> & _).
    destruct r1 as [|t r1]; [discriminate|].
    destruct t; try discriminate.
    + injection H as _ <-. exists (TString s :: TColon :: p). reflexivity.
    + destruct (parse_members n d r1) as [[ms' r2]|] eqn:Hm; cbn in H; [|discriminate].
      injection H as _ <-. apply IHm in Hm as [p' ->].
      exists (TString s :: TColon :: p ++ TComma :: p'). cbn. rewrite <- app_assoc. reflexivity.
Qed.

Lemma parse_tokens_array ts xs :
  parse_tokens ts = Some (Array xs) ->
  exists p, ts = TLBracket :: p ++ [TRBracket].
Proof.
  unfold parse_tokens.
  destruct (parse_value (S (length ts)) 0 ts) as [[v r]|] eqn:Hv; [|discriminate].
  destruct r; [|discriminate]. intros [= ->].
  apply parse_closes in Hv as (p & -> & Hp).
  destruct (Hp xs eq_refl) as [p' ->]. exists p'. rewrite app_nil_r. reflexivity.
Qed.

Lemma tokens_to_string l : tokens (Bytes.to_string l) = scan (Word []) l.
Proof. unfold tokens. rewrite of_to_string. reflexivity. Qed.

Lemma split_brackets (w1 rest body w2 : list ascii) :
  Forall (fun c => is_ws c = true) w1 ->
  w1 ++ "["%char :: rest = body ++ "]"%char :: w2 ->
  exists mid, rest = mid ++ "]"%char :: w2.
Proof.
  intros Hw H. apply app_eq_app in H as [l [[-> H]|[-> H]]].
  - destruct l as [|c l]; [discriminate|]. injection H as <- _.
    apply Forall_app in Hw as [_ Hw]. inversion Hw as [|? ? Hc _]; subst. discriminate.
  - destruct l as [|c l]; [discriminate|]. injection H as <- ->. eauto.
Qed.

Lemma parse_array_shape l xs :
  parse (Bytes.to_string l) = Some (Array xs) ->
  exists w1 mid w2,
    l = w1 ++ bracketed mid ++ w2
    ∧ Forall (fun c => is_ws c = true) w1
    ∧ Forall (fun c => is_ws c = true) w2
    ∧ parse (Bytes.to_string (bracketed mid)) = Some (Array xs).
Proof.
  intros Hp. unfold parse in Hp. rewrite tokens_to_string in Hp.
  destruct (scan (Word []) l) as [ts|] eqn:Hs; [|discriminate].
  cbn [mbind option_bind] in Hp.
  destruct (parse_tokens_array ts xs Hp) as [p ->].
  destruct (scan_first _ _ _ Hs) as (_ & w1 & rest & -> & Hw1 & _).
  change (TLBracket :: p ++ [TRBracket]) with ((TLBracket :: p) ++ [TRBracket]) in Hs.
  destruct (scan_last _ _ _ Hs) as (body & w2 & Heq & Hw2).
  destruct (split_brackets _ _ _ _ Hw1 Heq) as [mid ->].
  exists w1, mid, w2.
  assert (w1 ++ "["%char :: mid ++ "]"%char :: w2 = w1 ++ bracketed mid ++ w2) as Hl.
  { unfold bracketed. norm_app. reflexivity. }
  split; [exact Hl|]. split; [exact Hw1|]. split; [exact Hw2|].
  unfold parse. rewrite tokens_to_string.
  rewrite Hl in Hs. rewrite scan_ws_prefix in Hs by exact Hw1.
  rewrite scan_ws_suffix in Hs by exact Hw2.
  rewrite Hs. exact Hp.
Qed.

(** C7, as the code has it: for every JSON array text [A] that holds no
    triple backquote, [extractJSON] returns text that parses to the same
    array from [A] itself and from [A] in a fenced json block; and from
    [A] inside prose, when the whole reply holds no triple backquote, the
    prose before [A] holds no opening bracket or brace, and the prose after
    [A] holds no closing bracket. *)
Theorem extractJSON_recovers_array (A pre post : string) xs :
  Json.parse A = Some (Array xs) ->
  (no_fence A ->
   Json.parse (extractJSON A) = Json.parse A
   ∧ Json.parse (extractJSON (fenced A)) = Json.parse A)
  ∧ (no_fence (pre +:+ A +:+ post) -> no_opening pre -> no_closing post ->
     Json.parse (extractJSON (pre +:+ A +:+ post)) = Json.parse A).
Proof.
  intros Hp. rewrite Hp.
  rewrite <- (to_of_string A) in Hp.
  destruct (parse_array_shape _ _ Hp) as (w1 & mid & w2 & HA & Hw1 & Hw2 & Hcore).
  split.
  - unfold no_fence. rewrite HA. intros Hnf. split.
    + pose proof (extractJSON_embedded [] w1 mid w2 []) as He.
      rewrite app_nil_r in He. cbn [app] in He.
      rewrite <- HA, to_of_string in He.
      rewrite He; [exact Hcore| |constructor|exact Hw1|exact Hw2|constructor].
      rewrite HA. exact Hnf.
    + pose proof (extractJSON_fenced w1 mid w2 Hnf Hw1 Hw2) as He.
      rewrite <- HA in He.
      replace (fenced A) with (Bytes.to_string
        (fence ++ Bytes.of_string "json" ++ [Bytes.nl] ++ Bytes.of_string A ++ [Bytes.nl] ++ fence)).
      * rewrite He. exact Hcore.
      * unfold fenced. rewrite <- (to_of_string (_ +:+ _)). f_equal.
        rewrite !of_string_app. reflexivity.
  - unfold no_fence, no_opening, no_closing. intros Hnf Hpre Hpost.
    rewrite !of_string_app, HA in Hnf.
    pose proof (extractJSON_embedded pre w1 mid w2 post) as He.
    replace (Bytes.of_string pre ++ (w1 ++ bracketed mid ++ w2) ++ Bytes.of_string post)
      with (Bytes.of_string pre ++ w1 ++ bracketed mid ++ w2 ++ Bytes.of_string post) in Hnf
      by (rewrite <- !app_assoc; reflexivity).
    specialize (He Hnf Hpre Hw1 Hw2 Hpost).
    replace (pre +:+ A +:+ post)%string with (Bytes.to_string
      (Bytes.of_string pre ++ w1 ++ bracketed mid ++ w2 ++ Bytes.of_string post)).
    + rewrite He. exact Hcore.
    + rewrite <- (to_of_string (_ +:+ _)). f_equal.
      rewrite !of_string_app, HA. rewrite <- !app_assoc. reflexivity.
Qed.

Lemma extractJSON_recovers_array_witness :
  Json.parse (extractJSON sample_array) = Json.parse sample_array
  ∧ Json.parse (extractJSON (fenced sample_array)) = Json.parse sample_array
  ∧ Json.parse (extractJSON ("Findings: " +:+ sample_array +:+ " (end)"))
    = Json.parse sample_array.
Proof.
  destruct (extractJSON_recovers_array sample_array "Findings: " " (end)"
              [Object [("severity", Str "HIGH"); ("line_number", Number "3")]])
    as [H1 H2].
  - vm_compute. reflexivity.
  - destruct H1 as [Ha Hb]; [vm_compute; reflexivity|].
    split; [exact Ha|]. split; [exact Hb|].
    apply H2.
    + vm_compute. reflexivity.
    + apply (bool_decide_unpack _). vm_compute. exact I.
    + apply (bool_decide_unpack _). vm_compute. exact I.
Defined.

(** An array text that quotes a fence, and prose that closes a bracket
    after the array, are not recovered. *)
Lemma extractJSON_counterexample :
  (Json.parse quoted_fence_array = Some (Array [Str "``` x ```"])
   ∧ extractJSON quoted_fence_array = "x"
   ∧ Json.parse (extractJSON quoted_fence_array) = None)
  ∧ (Json.parse "[]" = Some (Array [])
     ∧ no_fence ("Result: " +:+ "[]" +:+ " [done]")
     ∧ no_opening "Result: "
     ∧ extractJSON ("Result: " +:+ "[]" +:+ " [done]") = "[] [done]"
     ∧ Json.parse (extractJSON ("Result: " +:+ "[]" +:+ " [done]")) = None).
Proof.
  repeat split; try (vm_compute; reflexivity).
  unfold no_opening. apply (bool_decide_unpack _). vm_compute. exact I.
Qed.


(** ** Decoding the reply *)

Lemma dec_wrapper_fold ms : forall cur,
  no_issues_member ms ->
  foldl (fun acc m =>
           cur ← acc;
           if Unmarshal.key_is "issues" m.1 then Unmarshal.dec_issues cur m.2 else Some cur)
        (Some cur) ms = Some cur.
Proof.
  induction ms as [|m ms IH]; intros cur Hms; [reflexivity|].
  inversion Hms as [|? ? Hm Hms']; subst. simpl. rewrite Hm. apply IH. exact Hms'.
Qed.

(** C10, as the code has it: when the extracted text is a JSON object none
    of whose keys matches [issues] up to letter case,
    [parseIssuesFromResponse] succeeds with no findings, and the pipeline
    reports "No security issues detected.". *)
Theorem parseIssues_object_without_issues e response filePath ms :
  Json.parse (extractJSON response) = Some (Object ms) ->
  no_issues_member ms ->
  parseIssuesFromResponse e response filePath = inl []
  ∧ forall ba code prompt w,
      llm_analyze e (PreprocessCode code (Analyzers.Language ba)) prompt = inl response ->
      exists result w',
        AnalyzeWithLLM ba e code filePath prompt w = (inl result, w')
        ∧ Issues result = []
        ∧ Summary result = "No security issues detected.".
Proof.
  intros Hparse Hms.
  assert (parseIssuesFromResponse e response filePath = inl []) as Hp.
  { unfold parseIssuesFromResponse, Unmarshal.issues, Unmarshal.wrapper.
    cbv zeta. rewrite Hparse. simpl.
    rewrite dec_wrapper_fold by exact Hms. reflexivity. }
  split; [exact Hp|].
  intros ba code prompt w Hreply.
  unfold AnalyzeWithLLM, LLMService.Analyze, bind, record, ret. simpl.
  rewrite Hreply, Hp. eexists _, _. split; [reflexivity|]. split; reflexivity.
Qed.

Lemma parseIssues_object_without_issues_witness :
  parseIssuesFromResponse (sample_env (inl other_key_reply) (Response 200))
    other_key_reply "A.java" = inl [].
Proof.
  apply (parseIssues_object_without_issues
           (sample_env (inl other_key_reply) (Response 200)) other_key_reply "A.java"
           [("foo", Number "1")]).
  - vm_compute. reflexivity.
  - repeat constructor.
Defined.

(** A key is matched without regard to case, and an [issues] member that
    is not an array is an error. *)
Lemma parseIssues_object_counterexample :
  (Json.parse (extractJSON folded_key_reply)
     = Some (Object [("ISSUES", Array [Object []])])
   ∧ exists i, parseIssuesFromResponse (sample_env (inl folded_key_reply) (Response 200))
                 folded_key_reply "A.java" = inl [i])
  ∧ (Json.parse (extractJSON wrong_kind_reply)
       = Some (Object [("issues", Number "1")])
     ∧ exists err, parseIssuesFromResponse (sample_env (inl wrong_kind_reply) (Response 200))
                     wrong_kind_reply "A.java" = inr err).
Proof.
  split; (split; [vm_compute; reflexivity|]); eexists; vm_compute; reflexivity.
Qed.


(** ** The metadata of a result *)

Lemma count_severity_sum md i :
  count_sum (count_severity md i)
  = (count_sum md + if decide (known_severity (Severity i)) then 1 else 0)%Z
  ∧ IssuesFound (count_severity md i) = IssuesFound md.
Proof.
  destruct md as [t n c h m l d errs]. unfold count_severity, count_sum, known_severity.
  assert (CRITICAL ≠ HIGH ∧ CRITICAL ≠ MEDIUM ∧ CRITICAL ≠ LOW
          ∧ HIGH ≠ MEDIUM ∧ HIGH ≠ LOW ∧ MEDIUM ≠ LOW) as Hd by (repeat split; discriminate).
  repeat case_decide; simpl; split; try lia; try reflexivity; exfalso; intuition congruence.
Qed.

Lemma foldl_count_severity issues : forall md,
  count_sum (foldl count_severity md issues)
  = (count_sum md + Z.of_nat (length (known_issues issues)))%Z
  ∧ IssuesFound (foldl count_severity md issues) = IssuesFound md.
Proof.
  induction issues as [|i issues IH]; intros md; simpl.
  - split; [unfold known_issues; simpl; lia | reflexivity].
  - destruct (IH (count_severity md i)) as [H1 H2].
    destruct (count_severity_sum md i) as [H3 H4].
    rewrite H1, H2, H3, H4. split; [|reflexivity].
    unfold known_issues. rewrite filter_cons.
    case_decide; simpl; lia.
Qed.

Lemma generateMetadata_counts issues language duration :
  count_sum (generateMetadata issues language duration)
  = Z.of_nat (length (known_issues issues))
  ∧ IssuesFound (generateMetadata issues language duration)
    = Z.of_nat (length issues).
Proof.
  unfold generateMetadata.
  match goal with |- context [foldl count_severity ?md _] =>
    destruct (foldl_count_severity issues md) as [H1 H2] end.
  rewrite H1, H2. split; reflexivity.
Qed.

Lemma AnalyzeWithLLM_result ba e code filePath prompt w result w' :
  AnalyzeWithLLM ba e code filePath prompt w = (inl result, w') ->
  exists response issues,
    llm_analyze e (PreprocessCode code (Analyzers.Language ba)) prompt = inl response
    ∧ parseIssuesFromResponse e response filePath = inl issues
    ∧ result = {| Models.Language := Analyzers.Language ba;
                  Issues := issues;
                  Summary := generateSummary issues;
                  Metadata := generateMetadata issues (Analyzers.Language ba) (elapsed e) |}.
Proof.
  unfold AnalyzeWithLLM, LLMService.Analyze, bind, record, ret. simpl.
  destruct (llm_analyze e _ _) as [response|err]; [|intros [=]].
  destruct (parseIssuesFromResponse e response filePath) as [issues|err] eqn:Hp; [|intros [=]].
  intros [= <- <-]. eauto.
Qed.

(** C1, as the code has it: in every result of [AnalyzeWithLLM] the four
    per-severity counts sum to the number of findings whose severity is one
    of the four known levels, [IssuesFound] is the number of findings, and
    the counts sum to the number of findings when every severity is
    known. *)
Theorem metadata_counts_known ba e code filePath prompt w result w' :
  AnalyzeWithLLM ba e code filePath prompt w = (inl result, w') ->
  count_sum (Metadata result) = Z.of_nat (length (known_issues (Issues result)))
  ∧ IssuesFound (Metadata result) = Z.of_nat (length (Issues result))
  ∧ (Forall (fun i => known_severity (Severity i)) (Issues result) ->
     count_sum (Metadata result) = Z.of_nat (length (Issues result))).
Proof.
  intros H. apply AnalyzeWithLLM_result in H as (response & issues & _ & _ & ->). simpl.
  destruct (generateMetadata_counts issues (Analyzers.Language ba) (elapsed e)) as [H1 H2].
  split; [exact H1|]. split; [exact H2|].
  intros Hall. rewrite H1. f_equal. f_equal. unfold known_issues.
  clear -Hall. induction Hall; [reflexivity|].
  rewrite filter_cons. case_decide; [|contradiction]. f_equal. assumption.
Qed.

Lemma metadata_counts_known_witness :
  exists result w',
    AnalyzeWithLLM (NewBaseAnalyzer JAVA)
      (sample_env (inl known_severity_reply) (Response 200))
      "class A {}" "A.java" "rules" initial = (inl result, w')
    ∧ count_sum (Metadata result) = Z.of_nat (length (Issues result)).
Proof.
  eexists _, _. split; [vm_compute; reflexivity|].
  refine (proj2 (proj2 (metadata_counts_known (NewBaseAnalyzer JAVA)
             (sample_env (inl known_severity_reply) (Response 200))
             "class A {}" "A.java" "rules" initial _ _ _)) _).
  - vm_compute. reflexivity.
  - apply (bool_decide_unpack _). vm_compute. exact I.
Defined.

(** A finding with another severity is counted by none of the four. *)
Lemma metadata_counts_counterexample :
  exists result w',
    AnalyzeWithLLM (NewBaseAnalyzer JAVA)
      (sample_env (inl unknown_severity_reply) (Response 200))
      "class A {}" "A.java" "rules" initial = (inl result, w')
    ∧ length (Issues result) = 1
    ∧ count_sum (Metadata result) = 0%Z.
Proof. eexists _, _. repeat split; vm_compute; reflexivity. Qed.


(** ** The report formatter *)

(** C9, as the code has it: for a result without findings the report is
    its head (title, language, analysis time, summary) followed by the one
    line "No security issues found."; no section is written, so no section
    header occurs in the report when language, analysis time and summary
    hold no [#]. *)
Theorem FormatAsMarkdown_no_issues result :
  Issues result = [] ->
  FormatAsMarkdown result
  = (preamble result +:+ "No security issues found." +:+ nl)%string
  ∧ (no_hash (Models.Language result) ->
     no_hash (AnalysisTime (Metadata result)) ->
     no_hash (Summary result) ->
     forall h, h ∈ section_headers ->
       contains (Bytes.of_string h) (Bytes.of_string (FormatAsMarkdown result)) = false).
Proof.
  intros Hnil.
  assert (FormatAsMarkdown result
          = (preamble result +:+ "No security issues found." +:+ nl)%string) as Heq.
  { unfold FormatAsMarkdown, preamble. rewrite Hnil. simpl length.
    rewrite decide_True by reflexivity. cbv zeta.
    rewrite !string_app_assoc. reflexivity. }
  split; [exact Heq|].
  intros Hl Ht Hs h Hh. rewrite Heq. unfold preamble.
  rewrite !string_app_assoc, !of_string_app.
  unfold section_headers in Hh.
  repeat (apply elem_of_cons in Hh as [->|Hh];
    [ cbn -[contains app];
      repeat first
        [ rewrite contains_hole by (first [exact Hl|exact Ht|exact Hs])
        | progress cbn [contains starts_with app Bytes.eq Ascii.eqb Bool.eqb andb orb Bytes.of_string list_ascii_of_string nl Bytes.nl] ];
      vm_compute; reflexivity | ]).
  inversion Hh.
Qed.

Lemma FormatAsMarkdown_no_issues_witness :
  FormatAsMarkdown empty_result
  = (preamble empty_result +:+ "No security issues found." +:+ nl)%string
  ∧ contains (Bytes.of_string "## Critical Issues")
      (Bytes.of_string (FormatAsMarkdown empty_result)) = false.
Proof.
  destruct (FormatAsMarkdown_no_issues empty_result eq_refl) as [H1 H2].
  split; [exact H1|].
  apply H2.
  - apply (bool_decide_unpack _). vm_compute. exact I.
  - apply (bool_decide_unpack _). vm_compute. exact I.
  - apply (bool_decide_unpack _). vm_compute. exact I.
  - apply (bool_decide_unpack _). vm_compute. exact I.
Defined.

(** The report of a result without findings is more than the one line. *)
Lemma FormatAsMarkdown_empty_not_single_line :
  FormatAsMarkdown empty_result ≠ "No security issues found."
  ∧ FormatAsMarkdown empty_result ≠ ("No security issues found." +:+ nl)%string.
Proof. split; vm_compute; discriminate. Qed.


(** ** The tool handlers *)

(** C6: when the [code] argument is absent, not a string, or empty,
    [handleAnalyzeSecurity] prints one error response with code -32602 and
    does nothing else: no call of the classifier or of the backend is
    recorded.  The handlers take the server by value and return none, so
    the server is as it was. *)
Theorem handleAnalyzeSecurity_invalid_code s e requestID args w :
  invalid_code args ->
  handleAnalyzeSecurity s e requestID args w
  = (tt, {| calls := calls w;
            stdout := stdout w ++ [error_response requestID (-32602)
                                     "Missing or invalid 'code' parameter"] |}).
Proof.
  intros Hinv. unfold handleAnalyzeSecurity.
  assert (exists c ok, as_string (args !! "code") = (c, ok) ∧ (ok = false ∨ c = ""))
    as (c & ok & -> & Hbad).
  { destruct Hinv as [->|[(v & -> & Hv)| ->]].
    - exists "", false. auto.
    - destruct v; try (exists "", false; split; [reflexivity|auto]).
      exfalso. eapply Hv. reflexivity.
    - exists "", true. auto. }
  rewrite decide_True by exact Hbad. reflexivity.
Qed.

Lemma handleAnalyzeSecurity_invalid_code_witness :
  handleAnalyzeSecurity NewMCPServer (sample_env (inl "[]") (Response 200))
    (Number "7") (<["code" := Str ""]> ∅) initial
  = (tt, {| calls := [];
            stdout := [error_response (Number "7") (-32602)
                         "Missing or invalid 'code' parameter"] |}).
Proof.
  apply (handleAnalyzeSecurity_invalid_code NewMCPServer
           (sample_env (inl "[]") (Response 200)) (Number "7")
           (<["code" := Str ""]> ∅) initial).
  right. right. reflexivity.
Defined.

(** C8: whatever the liveness probe comes to (a response with any status,
    a transport error, a request that could not be built),
    [handleHealthCheck] prints one response that carries a result and no
    error; the result holds the status "available" exactly when the probe
    was answered with status 200, and "unavailable" otherwise. *)
Theorem handleHealthCheck_never_fails s e requestID w :
  exists status,
    (status = "available" ∧ llm_probe e = Response 200
     ∨ status = "unavailable" ∧ llm_probe e ≠ Response 200)
    ∧ handleHealthCheck s e requestID w
      = (tt, {| calls := calls w ++ [CallHealthCheck];
                stdout := stdout w ++
                  [ {| JSONRPC := "2.0"; ID := requestID;
                       Result := Some (text_content
                         (health_text status
                            (keys_in_order (analyzers s) (visit_analyzers e))));
                       Error := None |} ] |}).
Proof.
  unfold handleHealthCheck, LLMService.HealthCheck, bind, record, ret, sendResponse, Println.
  simpl.
  destruct (llm_probe e) as [err|err|status] eqn:Hp; simpl.
  - exists "unavailable". split; [right; split; [reflexivity|discriminate]|reflexivity].
  - exists "unavailable". split; [right; split; [reflexivity|discriminate]|reflexivity].
  - destruct (decide (status = 200%Z)) as [->|Hne].
    + exists "available". split; [left; split; reflexivity|reflexivity].
    + exists "unavailable". rewrite bool_decide_eq_false_2 by exact Hne.
      split; [right; split; [reflexivity|congruence]|reflexivity].
Qed.

(** * Further properties of the code *)

(** ** The content stage returns a language with the most matches *)

(** The score of [lang] after the inner loop. *)
Lemma scoreLanguage_lookup code lang ps : forall sc,
  scoreLanguage code lang sc ps !! lang
  = (let k := length (filter (fun p => MatchString p code = true) ps) in
     if decide (k = 0) then sc !! lang
     else Some (default 0 (sc !! lang) + Z.of_nat k)%Z).
Proof.
  induction ps as [|p ps IH]; intros sc; [reflexivity|].
  unfold scoreLanguage in *. cbn [foldl]. rewrite IH. clear IH.
  destruct (MatchString p code) eqn:Hm.
  - rewrite filter_cons_True by exact Hm. cbn [length].
    rewrite lookup_insert_eq. cbn [from_option id].
    destruct (decide (length (filter (fun p => MatchString p code = true) ps) = 0)) as [->|Hn].
    + rewrite decide_False by lia. f_equal; lia.
    + rewrite decide_False by lia. f_equal; lia.
  - rewrite filter_cons_False by congruence. reflexivity.
Qed.

Lemma scoreLanguage_lookup_ne code lang lang' ps : forall sc,
  lang' ≠ lang -> scoreLanguage code lang sc ps !! lang' = sc !! lang'.
Proof.
  induction ps as [|p ps IH]; intros sc Hne; [reflexivity|].
  unfold scoreLanguage in *. cbn [foldl]. rewrite IH by assumption.
  destruct (MatchString p code); [|reflexivity].
  apply lookup_insert_ne. congruence.
Qed.

Lemma scoreAll_snoc ld o x code :
  scoreAll ld (o ++ [x]) code
  = match patterns ld !! x with
    | Some ps => scoreLanguage code x (scoreAll ld o code) ps
    | None => scoreAll ld o code
    end.
Proof. unfold scoreAll. rewrite foldl_app. reflexivity. Qed.

(** The scores are the match counts: a language that was visited and has a
    matching signature holds its count, and no other language is in the
    map. *)
Lemma scoreAll_lookup ld code o : NoDup o -> forall lang,
  scoreAll ld o code !! lang
  = if decide (lang ∈ o ∧ 0 < matchCount ld lang code)
    then Some (Z.of_nat (matchCount ld lang code)) else None.
Proof.
  induction o as [|x o IH] using rev_ind; intros Hnd lang.
  - rewrite decide_False; [reflexivity|]. intros [H _]. inversion H.
  - apply NoDup_app in Hnd as (Hnd & Hx & _).
    assert (x ∉ o) as Hxo.
    { intros Hin. apply (Hx x Hin). left. }
    rewrite scoreAll_snoc.
    destruct (decide (lang = x)) as [->|Hne].
    + unfold matchCount. destruct (patterns ld !! x) as [ps|] eqn:Hp.
      * rewrite scoreLanguage_lookup. cbn zeta.
        rewrite (IH Hnd x). rewrite (decide_False (P := x ∈ o ∧ _)) by tauto.
        cbn [from_option id].
        destruct (decide (length (filter (fun p => MatchString p code = true) ps) = 0)) as [He|He].
        -- rewrite decide_False; [reflexivity|]. rewrite He. lia.
        -- rewrite decide_True; [f_equal; lia|]. split; [|lia].
           apply elem_of_app. right. left.
      * rewrite (IH Hnd x). rewrite (decide_False (P := x ∈ o ∧ _)) by tauto.
        rewrite decide_False; [reflexivity|]. lia.
    + assert ((match patterns ld !! x with
               | Some ps => scoreLanguage code x (scoreAll ld o code) ps
               | None => scoreAll ld o code
               end) !! lang = scoreAll ld o code !! lang) as ->.
      { destruct (patterns ld !! x); [|reflexivity].
        apply scoreLanguage_lookup_ne. exact Hne. }
      rewrite (IH Hnd lang).
      apply decide_ext. rewrite elem_of_app, list_elem_of_singleton. tauto.
Qed.

Lemma range_order_NoDup {V} (m : gmap string V) o : range_order m o -> NoDup o.
Proof.
  unfold range_order. intros H. rewrite H. apply NoDup_fst_map_to_list.
Qed.

Lemma range_order_elem {V} (m : gmap string V) o k :
  range_order m o -> k ∈ o ↔ is_Some (m !! k).
Proof.
  unfold range_order. intros H. rewrite H.
  rewrite list_elem_of_fmap. split.
  - intros ([k' v] & -> & Hin). apply elem_of_map_to_list in Hin. eauto.
  - intros [v Hv]. exists (k, v). split; [reflexivity|].
    apply elem_of_map_to_list. exact Hv.
Qed.

(** With every language visited once, the map of scores holds exactly the
    positive match counts. *)
Lemma scoreAll_counts ld code o lang :
  range_order (patterns ld) o ->
  scoreAll ld o code !! lang
  = if decide (0 < matchCount ld lang code)
    then Some (Z.of_nat (matchCount ld lang code)) else None.
Proof.
  intros Ho. rewrite (scoreAll_lookup ld code o (range_order_NoDup _ _ Ho)).
  apply decide_ext. split; [tauto|]. intros Hc. split; [|exact Hc].
  apply (range_order_elem _ _ _ Ho). unfold matchCount in Hc.
  destruct (patterns ld !! lang); [eauto|lia].
Qed.

Lemma pickMax_snoc sc o x :
  pickMax sc (o ++ [x])
  = match sc !! x with
    | Some score =>
        if ((pickMax sc o).1 <? score)%Z then (score, x) else pickMax sc o
    | None => pickMax sc o
    end.
Proof.
  unfold pickMax. rewrite foldl_app. cbn [foldl].
  destruct (foldl _ _ o) as [m l]. cbn [fst].
  destruct (sc !! x); [|reflexivity]. reflexivity.
Qed.

(** The running maximum of the second loop bounds every score visited,
    and is at least zero. *)
Lemma pickMax_bound sc o :
  (0 <= (pickMax sc o).1)%Z
  ∧ forall lang n, lang ∈ o -> sc !! lang = Some n -> (n <= (pickMax sc o).1)%Z.
Proof.
  induction o as [|x o [IH0 IH]] using rev_ind.
  - split; [cbn; lia|]. intros lang n H. inversion H.
  - rewrite pickMax_snoc.
    assert (forall lang n, lang ∈ o -> sc !! lang = Some n ->
              forall m, ((pickMax sc o).1 <= m)%Z -> (n <= m)%Z) as IH'.
    { intros lang n Hin Hl m Hm. specialize (IH lang n Hin Hl). lia. }
    destruct (sc !! x) as [score|] eqn:Hx.
    + destruct (Z.ltb_spec (pickMax sc o).1 score) as [Hlt|Hge]; cbn [fst].
      * split; [lia|]. intros lang n Hin Hl.
        apply elem_of_app in Hin as [Hin|Hin].
        -- apply (IH' lang n Hin Hl). lia.
        -- apply list_elem_of_singleton in Hin. subst. rewrite Hx in Hl.
           injection Hl as ->. lia.
      * split; [exact IH0|]. intros lang n Hin Hl.
        apply elem_of_app in Hin as [Hin|Hin]; [eauto|].
        apply list_elem_of_singleton in Hin. subst. rewrite Hx in Hl.
        injection Hl as ->. exact Hge.
    + split; [exact IH0|]. intros lang n Hin Hl.
      apply elem_of_app in Hin as [Hin|Hin]; [eauto|].
      apply list_elem_of_singleton in Hin. subst. congruence.
Qed.

(** The verdict of the content stage when both loops visit every key
    once: a language with the largest number of matching signatures,
    provided some signature matches. *)
Lemma DetectFromContent_max ld v code lang :
  visit_ok ld code v ->
  0 < matchCount ld lang code ->
  0 < matchCount ld (DetectFromContent ld v code) code
  ∧ matchCount ld lang code <= matchCount ld (DetectFromContent ld v code) code.
Proof.
  intros [Hp Hs] Hpos. unfold DetectFromContent.
  set (sc := scoreAll ld (visit_patterns v) code) in *.
  assert (sc !! lang = Some (Z.of_nat (matchCount ld lang code))) as Hl.
  { unfold sc. rewrite (scoreAll_counts _ _ _ _ Hp).
    rewrite decide_True by exact Hpos. reflexivity. }
  assert (lang ∈ visit_scores v) as Hin.
  { apply (range_order_elem _ _ _ Hs). eauto. }
  destruct (pickMax_bound sc (visit_scores v)) as [_ Hb].
  specialize (Hb lang _ Hin Hl).
  destruct (pickMax_sound sc (visit_scores v)) as [Hz|[Hr Hr0]].
  - rewrite Hz in Hb. cbn in Hb. lia.
  - unfold sc in Hr. rewrite (scoreAll_counts _ _ _ _ Hp) in Hr.
    fold sc in Hr.
    destruct (decide (0 < matchCount ld (pickMax sc (visit_scores v)).2 code)) as [Hd|Hd];
      [|discriminate].
    injection Hr as Hr. split; [exact Hd|]. lia.
Qed.

(** X1: the content stage returns a language with the largest
    number of matching signatures.  When both loops of
    [DetectFromContent] visit every key of their map once and at least one
    signature of some language matches the body, the returned language has
    a matching signature, and no language has more matching signatures
    than it. *)
Theorem DetectFromContent_most_matches ld v code :
  visit_ok ld code v ->
  (exists lang, 0 < matchCount ld lang code) ->
  0 < matchCount ld (DetectFromContent ld v code) code
  ∧ forall lang,
      matchCount ld lang code <= matchCount ld (DetectFromContent ld v code) code.
Proof.
  intros Hv [l0 H0].
  split; [exact (proj1 (DetectFromContent_max ld v code l0 Hv H0))|].
  intros lang. destruct (decide (0 < matchCount ld lang code)) as [Hp|Hn].
  - exact (proj2 (DetectFromContent_max ld v code lang Hv Hp)).
  - lia.
Qed.

Lemma DetectFromContent_most_matches_witness :
  0 < matchCount NewLanguageDetector
        (DetectFromContent NewLanguageDetector visit_js_first tie_code) tie_code
  ∧ forall lang,
      matchCount NewLanguageDetector lang tie_code
      <= matchCount NewLanguageDetector
           (DetectFromContent NewLanguageDetector visit_js_first tie_code) tie_code.
Proof.
  apply (DetectFromContent_most_matches NewLanguageDetector visit_js_first tie_code).
  - exact visit_js_first_ok.
  - exists REACT_TYPESCRIPT. vm_compute. lia.
Defined.

(** X2: a strict winner is returned whatever the order of
    iteration.  When one language has strictly more matching signatures
    than every other, [DetectFromContent] returns it for every order in
    which the two maps may be visited. *)
Theorem DetectFromContent_strict_winner ld v code lang :
  visit_ok ld code v ->
  (forall other, other ≠ lang ->
     matchCount ld other code < matchCount ld lang code) ->
  DetectFromContent ld v code = lang.
Proof.
  intros Hv Hw.
  assert (0 < matchCount ld lang code) as Hpos.
  { destruct (decide (lang = "")) as [->|Hne].
    - specialize (Hw "x" ltac:(discriminate)). lia.
    - specialize (Hw "" ltac:(congruence)). lia. }
  destruct (DetectFromContent_max ld v code lang Hv Hpos) as [_ Hle].
  destruct (decide (DetectFromContent ld v code = lang)) as [He|Hne];
    [exact He|].
  specialize (Hw _ Hne). lia.
Qed.

Lemma matchCount_unregistered lang code :
  lang ∉ all_languages -> matchCount NewLanguageDetector lang code = 0.
Proof.
  intros Hn. unfold matchCount.
  assert (patterns NewLanguageDetector !! lang = None) as ->; [|reflexivity].
  unfold all_languages in Hn. rewrite !not_elem_of_cons in Hn.
  destruct Hn as (H1 & H2 & H3 & H4 & _).
  unfold NewLanguageDetector, initializePatterns. cbn [patterns].
  rewrite !lookup_insert_ne by congruence. apply lookup_empty.
Qed.

Lemma visit_java_ok : visit_ok NewLanguageDetector java_code
  {| visit_patterns := all_languages; visit_scores := [CSHARP; JAVA] |}.
Proof.
  split; unfold range_order; apply (bool_decide_unpack _); vm_compute; exact I.
Qed.

Lemma DetectFromContent_strict_winner_witness :
  DetectFromContent NewLanguageDetector
    {| visit_patterns := all_languages; visit_scores := [CSHARP; JAVA] |} java_code
  = JAVA.
Proof.
  apply (DetectFromContent_strict_winner NewLanguageDetector _ java_code JAVA).
  - exact visit_java_ok.
  - intros other Hne.
    destruct (decide (other ∈ all_languages)) as [Hin|Hout].
    + unfold all_languages in Hin. rewrite !elem_of_cons in Hin.
      destruct Hin as [->|[->|[->|[->|Hin]]]];
        [congruence|vm_compute; lia|vm_compute; lia|vm_compute; lia|inversion Hin].
    + rewrite (matchCount_unregistered other java_code Hout). vm_compute. lia.
Defined.

Lemma DetectFromExtension_range filePath :
  DetectFromExtension filePath ∈ UNKNOWN :: all_languages.
Proof.
  unfold DetectFromExtension.
  repeat (case_decide; [apply (bool_decide_unpack _); vm_compute; exact I|]).
  apply (bool_decide_unpack _); vm_compute; exact I.
Qed.

(** X3: [Detect] answers "unknown" exactly when no signature of
    any language matches the body and the extension stage does not say
    java or csharp.  In particular a path with a React extension does not
    keep an unmatched body from being unknown. *)
Theorem Detect_unknown_iff v1 v2 code filePath :
  visit_ok NewLanguageDetector code v2 ->
  Detector.Detect NewLanguageDetector v1 v2 code filePath = UNKNOWN
  ↔ (forall lang, matchCount NewLanguageDetector lang code = 0)
    ∧ DetectFromExtension filePath ≠ JAVA
    ∧ DetectFromExtension filePath ≠ CSHARP.
Proof.
  intros Hv.
  assert (DetectFromContent NewLanguageDetector v2 code = UNKNOWN ->
          forall lang, matchCount NewLanguageDetector lang code = 0) as Hfb.
  { intros Hu lang.
    destruct (decide (0 < matchCount NewLanguageDetector lang code)) as [Hp|Hn];
      [|lia].
    destruct (DetectFromContent_max _ _ _ _ Hv Hp) as [H0 _].
    rewrite Hu in H0. vm_compute in H0. lia. }
  assert (DetectFromExtension "" = UNKNOWN) as Hempty by reflexivity.
  pose proof (DetectFromExtension_range filePath) as Hr.
  unfold all_languages in Hr. rewrite !elem_of_cons in Hr.
  unfold Detector.Detect. split.
  - intros H.
    destruct (decide (filePath ≠ "")) as [Hf|Hf].
    + destruct (decide (DetectFromExtension filePath ≠ UNKNOWN)) as [Hl|Hl].
      * destruct (decide (DetectFromExtension filePath = REACT_TYPESCRIPT
                          ∨ DetectFromExtension filePath = REACT_JAVASCRIPT))
          as [Ha|Ha].
        -- destruct (decide (DetectFromContent NewLanguageDetector v1 code
                             = DetectFromExtension filePath)) as [Hc|Hc];
             [congruence|].
           split; [exact (Hfb H)|].
           destruct Ha as [-> | ->]; split; discriminate.
        -- congruence.
      * split; [exact (Hfb H)|].
        apply dec_stable in Hl. rewrite Hl. split; discriminate.
    + split; [exact (Hfb H)|].
      apply dec_stable in Hf. subst filePath. rewrite Hempty.
      split; discriminate.
  - intros (Hz & Hj & Hc).
    assert (forall v, DetectFromContent NewLanguageDetector v code = UNKNOWN) as Hu.
    { intros v.
      destruct (DetectFromContent_matched NewLanguageDetector v code _ eq_refl)
        as [Hk|Hk]; [exact Hk|].
      rewrite Hz in Hk. lia. }
    rewrite !Hu.
    destruct (decide (filePath ≠ "")); [|reflexivity].
    destruct (decide (DetectFromExtension filePath ≠ UNKNOWN)) as [Hl|Hl];
      [|reflexivity].
    destruct (decide (DetectFromExtension filePath = REACT_TYPESCRIPT
                      ∨ DetectFromExtension filePath = REACT_JAVASCRIPT))
      as [Ha|Ha].
    + destruct (decide (UNKNOWN = DetectFromExtension filePath));
        [congruence|reflexivity].
    + exfalso. destruct Hr as [Hr|[Hr|[Hr|[Hr|[Hr|Hr]]]]];
        [congruence|congruence|congruence|tauto|tauto|inversion Hr].
Qed.

Lemma Detect_unknown_iff_witness :
  Detector.Detect NewLanguageDetector visit_ts_first visit_ts_first tie_code
    "notes.txt" ≠ UNKNOWN.
Proof.
  intros H.
  apply (proj1 (Detect_unknown_iff visit_ts_first visit_ts_first tie_code
                  "notes.txt" visit_ts_first_ok)) in H.
  destruct H as [H _]. specialize (H REACT_TYPESCRIPT).
  vm_compute in H. discriminate H.
Defined.


(** ** The extension stage and the catalogue of languages *)

Lemma ext_rev_dot e : forall acc rest,
  Forall in_extension e ->
  ext_rev acc (e ++ "."%char :: rest) = "."%char :: rev e ++ acc.
Proof.
  induction e as [|c e IH]; intros acc rest He.
  - reflexivity.
  - apply Forall_cons in He as [[Hd Hs] He]. cbn [app ext_rev].
    assert (Bytes.eq "/" c = false) as ->.
    { unfold Bytes.eq. apply Ascii.eqb_neq. congruence. }
    assert (Bytes.eq "." c = false) as ->.
    { unfold Bytes.eq. apply Ascii.eqb_neq. congruence. }
    rewrite IH by exact He. cbn [rev]. rewrite <- app_assoc. reflexivity.
Qed.

(** [filepath.Ext] of a path that ends in a dot and bytes of an
    extension. *)
Lemma Ext_suffix (stem : string) (e : list ascii) :
  Forall in_extension e ->
  Ext (stem +:+ Bytes.to_string ("."%char :: e)) = Bytes.to_string ("."%char :: e).
Proof.
  intros He. unfold Ext. rewrite of_string_app, of_to_string.
  rewrite rev_app_distr. cbn [rev]. rewrite <- app_assoc. cbn [app].
  rewrite ext_rev_dot.
  - rewrite rev_involutive, app_nil_r. reflexivity.
  - apply Forall_forall. intros c Hc. apply list_elem_of_In, in_rev in Hc.
    apply (proj1 (Forall_forall _ _) He). apply list_elem_of_In. exact Hc.
Qed.

Lemma lower_byte_in_extension c :
  in_extension (lower_byte c) -> in_extension c.
Proof.
  intros [H1 H2]. split; intros ->; [apply H1|apply H2]; reflexivity.
Qed.

Lemma lower_byte_dot c : lower_byte c = "."%char -> c = "."%char.
Proof.
  destruct c as [[] [] [] [] [] [] [] []]; vm_compute; congruence.
Qed.

(** A text that lowers to a dot followed by bytes of an extension is a
    dot followed by bytes of an extension. *)
Lemma ToLower_extension (e : string) (x : list ascii) :
  ToLower e = Bytes.to_string ("."%char :: x) ->
  Forall in_extension x ->
  exists e', e = Bytes.to_string ("."%char :: e') ∧ Forall in_extension e'.
Proof.
  unfold ToLower. intros H Hx.
  apply (f_equal Bytes.of_string) in H. rewrite !of_to_string in H.
  destruct (Bytes.of_string e) as [|c e'] eqn:He; [discriminate|].
  cbn [map] in H. injection H as Hc Hr.
  apply lower_byte_dot in Hc. subst c.
  exists e'. split.
  - rewrite <- He. symmetry. apply to_of_string.
  - subst x. apply Forall_forall. intros c Hc. apply lower_byte_in_extension.
    apply (proj1 (Forall_forall _ _) Hx). apply list_elem_of_In, in_map.
    apply list_elem_of_In. exact Hc.
Qed.

Lemma extension_table_shape ext tag :
  (ext, tag) ∈ extension_table ->
  exists x, ext = Bytes.to_string ("."%char :: x) ∧ Forall in_extension x.
Proof.
  unfold extension_table. rewrite !elem_of_cons. intros H.
  exists (tl (Bytes.of_string ext)). revert H.
  intros [H|[H|[H|[H|[H|[H|H]]]]]]; [..|inversion H]; injection H as -> ->;
    (split; [reflexivity|]); vm_compute;
    repeat (constructor; [split; discriminate|]); constructor.
Qed.

Lemma catalogue_table ld info ext :
  info ∈ GetSupportedLanguages ld -> ext ∈ Extensions info ->
  (ext, Identifier info) ∈ extension_table.
Proof.
  unfold GetSupportedLanguages. rewrite !elem_of_cons.
  intros [->|[->|[->|[->|H]]]]; [..|inversion H]; cbn [Extensions Identifier];
    rewrite !elem_of_cons; intros H; repeat destruct H as [->|H];
    try (inversion H; fail);
    apply (bool_decide_unpack _); vm_compute; exact I.
Qed.

(** X4: every extension that [GetSupportedLanguages] lists for a
    language is classified as that language by [DetectFromExtension], in
    any letter case and after any stem (directories and dots included). *)
Theorem advertised_extension_detected ld info ext (stem e : string) :
  info ∈ GetSupportedLanguages ld ->
  ext ∈ Extensions info ->
  ToLower e = ext ->
  DetectFromExtension (stem +:+ e) = Identifier info.
Proof.
  intros Hi He Hl.
  pose proof (catalogue_table ld info ext Hi He) as Ht.
  destruct (extension_table_shape _ _ Ht) as (x & Hx & Hfx).
  rewrite Hx in Hl.
  destruct (ToLower_extension e x Hl Hfx) as (e' & -> & Hfe).
  refine (proj1 (proj2 (DetectFromExtension_table _ ext _ _ Ht))).
  rewrite (Ext_suffix stem e' Hfe), Hl. symmetry. exact Hx.
Qed.

Lemma advertised_extension_detected_witness :
  DetectFromExtension ("src/app.v2/Main" +:+ ".JAVA") = JAVA.
Proof.
  apply (advertised_extension_detected NewLanguageDetector
           {| Identifier := JAVA; InfoDescription := "Java programming language";
              Extensions := [".java"] |} ".java" "src/app.v2/Main" ".JAVA").
  - apply list_elem_of_In. simpl. do 3 right. left. reflexivity.
  - apply list_elem_of_In. simpl. left. reflexivity.
  - reflexivity.
Defined.

(** X5: whenever [DetectFromExtension] returns a language, the
    catalogue of [GetSupportedLanguages] has an entry for that language
    which lists the lowered extension of the path. *)
Theorem detected_extension_advertised ld filePath :
  DetectFromExtension filePath ≠ UNKNOWN ->
  exists info,
    info ∈ GetSupportedLanguages ld
    ∧ Identifier info = DetectFromExtension filePath
    ∧ ToLower (Ext filePath) ∈ Extensions info.
Proof.
  unfold DetectFromExtension, GetSupportedLanguages.
  destruct (decide (filePath = "")); [congruence|].
  set (ext := ToLower (Ext filePath)).
  destruct (decide (ext = ".java")) as [H|_]; [pick_info ltac:(do 3 right) H|].
  destruct (decide (ext = ".cs")) as [H|_]; [pick_info ltac:(do 0 right) H|].
  destruct (decide (ext = ".tsx")) as [H|_]; [pick_info ltac:(do 1 right) H|].
  destruct (decide (ext = ".ts")) as [H|_]; [pick_info ltac:(do 1 right) H|].
  destruct (decide (ext = ".jsx")) as [H|_]; [pick_info ltac:(do 2 right) H|].
  destruct (decide (ext = ".js")) as [H|_]; [pick_info ltac:(do 2 right) H|].
  congruence.
Qed.

Lemma detected_extension_advertised_witness :
  exists info,
    info ∈ GetSupportedLanguages NewLanguageDetector
    ∧ Identifier info = DetectFromExtension "web/App.TSX"
    ∧ ToLower (Ext "web/App.TSX") ∈ Extensions info.
Proof.
  apply (detected_extension_advertised NewLanguageDetector "web/App.TSX").
  vm_compute. discriminate.
Defined.


(** ** The analysis tool: which calls it makes and what it answers *)

(** An analyzer calls the backend once and prints nothing; what it returns
    does not depend on the world. *)
Lemma Analyze_run a e code filePath w :
  Analyzers.Analyze a e code filePath w
  = (outcome a e code filePath,
     {| calls := calls w ++ [backend_call a e code]; stdout := stdout w |}).
Proof.
  unfold outcome, backend_call, Analyzers.Analyze, AnalyzeWithLLM,
    LLMService.Analyze, bind, record, ret. cbn [fst snd calls stdout initial].
  destruct (llm_analyze e _ _) as [response|err]; [|reflexivity].
  destruct (parseIssuesFromResponse e response filePath); reflexivity.
Qed.

Lemma handleAnalyzeSecurity_valid s e id args code w :
  valid_code args code ->
  let path := requested "file_path" args in
  let l := requested "language" args in
  let detect :=
    if decide (explicit_language l) then [] else [CallDetect code path] in
  let lang :=
    if decide (explicit_language l) then l
    else Detector.Detect (languageDetector s) (visit_first e) (visit_second e)
           code path in
  handleAnalyzeSecurity s e id args w
  = match analyzers s !! lang with
    | None =>
        (tt, {| calls := calls w ++ detect;
                stdout := stdout w ++
                  [error_response id (-32602)
                     ("Unsupported language: " +:+ lang)%string] |})
    | Some a =>
        (tt, {| calls := calls w ++ detect ++ [backend_call a e code];
                stdout := stdout w ++ [answer id (outcome a e code path)] |})
    end.
Proof.
  intros [Hc Hne]. unfold requested, handleAnalyzeSecurity. rewrite Hc.
  cbn [as_string].
  rewrite decide_False by (intros [?|?]; congruence).
  destruct (as_string (args !! "file_path")) as [path ok1].
  destruct (as_string (args !! "language")) as [l ok2]. cbn [fst].
  unfold explicit_language, bind.
  destruct (decide (l ≠ "" ∧ l ≠ "auto")) as [He|He].
  - unfold ret.
    destruct (analyzers s !! l) as [a|].
    + rewrite Analyze_run. rewrite app_nil_l.
      destruct (outcome a e code path); reflexivity.
    + rewrite app_nil_r. destruct w; reflexivity.
  - unfold Main.Detect, bind, record, ret. cbn [calls stdout].
    destruct (analyzers s !! _) as [a|].
    + rewrite Analyze_run. cbn [calls stdout]. rewrite <- app_assoc.
      destruct (outcome a e code path); reflexivity.
    + reflexivity.
Qed.

(** What [analyze_security] does once the code argument is usable and an
    analyzer is registered for the language it settles on. *)
Lemma handleAnalyzeSecurity_analyzed s e id args code a w :
  valid_code args code ->
  analyzers s !! resolved_language s e args code = Some a ->
  handleAnalyzeSecurity s e id args w
  = (tt, {| calls := calls w ++ detector_calls args code
                       ++ [backend_call a e code];
            stdout := stdout w ++
              [answer id (outcome a e code (requested "file_path" args))] |}).
Proof.
  intros Hc Ha. rewrite (handleAnalyzeSecurity_valid s e id args code w Hc).
  cbn zeta. unfold resolved_language in Ha. unfold detector_calls.
  rewrite Ha. reflexivity.
Qed.

Lemma Detect_registered v1 v2 code filePath :
  Detector.Detect NewLanguageDetector v1 v2 code filePath
    ∈ UNKNOWN :: all_languages.
Proof.
  assert (forall v, DetectFromContent NewLanguageDetector v code
                    ∈ UNKNOWN :: all_languages) as Hc.
  { intros v.
    destruct (DetectFromContent_matched NewLanguageDetector v code _ eq_refl)
      as [->|Hk]; [left|].
    right.
    destruct (decide (DetectFromContent NewLanguageDetector v code ∈ all_languages))
      as [Hin|Hout]; [exact Hin|].
    rewrite (matchCount_unregistered _ code Hout) in Hk. lia. }
  unfold Detector.Detect.
  repeat case_decide; first [apply Hc|apply DetectFromExtension_range].
Qed.

Lemma registry_lookup lang :
  lang ∈ all_languages ->
  exists a, analyzers NewMCPServer !! lang = Some a
            ∧ Analyzers.Language (base a) = lang.
Proof.
  unfold all_languages. rewrite !elem_of_cons.
  intros [->|[->|[->|[->|H]]]]; [..|inversion H];
    eexists; (split; [vm_compute; reflexivity|reflexivity]).
Qed.

Lemma registry_lookup_none lang :
  lang ∉ all_languages -> analyzers NewMCPServer !! lang = None.
Proof.
  unfold all_languages. rewrite !not_elem_of_cons.
  intros (H1 & H2 & H3 & H4 & _).
  unfold NewMCPServer. cbn [analyzers].
  rewrite !lookup_insert_ne by congruence. apply lookup_empty.
Qed.

(** X6: with a usable [code] argument and a [language] argument
    other than the empty text and "auto", [handleAnalyzeSecurity] does not
    consult the classifier, whatever the file path says: it makes exactly
    one call of the backend, with the code preprocessed for the analyzer
    registered under the requested language and that analyzer's prompt, and
    prints the one response made from what the analyzer returns. *)
Theorem explicit_language_skips_detection s e id args code a w :
  valid_code args code ->
  explicit_language (requested "language" args) ->
  analyzers s !! requested "language" args = Some a ->
  handleAnalyzeSecurity s e id args w
  = (tt, {| calls := calls w ++
              [CallAnalyze (PreprocessCode code (Analyzers.Language (base a)))
                           (GetSecurityRulesPrompt a e)];
            stdout := stdout w ++
              [answer id (outcome a e code (requested "file_path" args))] |}).
Proof.
  intros Hc He Ha. rewrite (handleAnalyzeSecurity_valid s e id args code w Hc).
  cbn zeta. rewrite !decide_True by exact He. rewrite Ha. reflexivity.
Qed.

Lemma explicit_language_skips_detection_witness :
  handleAnalyzeSecurity NewMCPServer (sample_env (inl "[]") (Response 200))
    (Number "1") java_args initial
  = (tt, {| calls := [CallAnalyze "class A {}" "java rules"];
            stdout := [answer (Number "1")
                         (outcome NewJavaAnalyzer
                            (sample_env (inl "[]") (Response 200))
                            "class A {}" "App.tsx")] |}).
Proof.
  apply (explicit_language_skips_detection NewMCPServer
           (sample_env (inl "[]") (Response 200)) (Number "1") java_args
           "class A {}" NewJavaAnalyzer initial).
  - split; [reflexivity|discriminate].
  - split; discriminate.
  - reflexivity.
Defined.

(** X7: an explicit language for which no analyzer is registered
    is refused with error -32602 "Unsupported language: <language>", and
    neither the classifier nor the backend is called. *)
Theorem unsupported_language_rejected s e id args code w :
  valid_code args code ->
  explicit_language (requested "language" args) ->
  analyzers s !! requested "language" args = None ->
  handleAnalyzeSecurity s e id args w
  = (tt, {| calls := calls w;
            stdout := stdout w ++
              [error_response id (-32602)
                 ("Unsupported language: " +:+ requested "language" args)%string] |}).
Proof.
  intros Hc He Ha. rewrite (handleAnalyzeSecurity_valid s e id args code w Hc).
  cbn zeta. rewrite !decide_True by exact He. rewrite Ha, app_nil_r.
  reflexivity.
Qed.

Lemma unsupported_language_rejected_witness :
  handleAnalyzeSecurity NewMCPServer (sample_env (inl "[]") (Response 200))
    (Number "1") cobol_args initial
  = (tt, {| calls := [];
            stdout := [error_response (Number "1") (-32602)
                         "Unsupported language: cobol"] |}).
Proof.
  apply (unsupported_language_rejected NewMCPServer
           (sample_env (inl "[]") (Response 200)) (Number "1") cobol_args
           "DISPLAY 'HI'." initial).
  - split; [reflexivity|discriminate].
  - split; discriminate.
  - reflexivity.
Defined.

(** X8: when the language is absent, empty or "auto", the server
    (with the analyzers of [NewMCPServer]) calls the classifier once on the
    code and the file path.  If the verdict is "unknown" it answers
    -32602 "Unsupported language: unknown" and never calls the backend;
    otherwise an analyzer is registered under the verdict, and the backend
    is called once with the code preprocessed for that language. *)
Theorem automatic_detection e id args code w :
  valid_code args code ->
  ¬ explicit_language (requested "language" args) ->
  let path := requested "file_path" args in
  let lang :=
    Detector.Detect NewLanguageDetector (visit_first e) (visit_second e)
      code path in
  (lang = UNKNOWN ->
   handleAnalyzeSecurity NewMCPServer e id args w
   = (tt, {| calls := calls w ++ [CallDetect code path];
             stdout := stdout w ++
               [error_response id (-32602) "Unsupported language: unknown"] |}))
  ∧ (lang ≠ UNKNOWN ->
     exists a,
       analyzers NewMCPServer !! lang = Some a
       ∧ Analyzers.Language (base a) = lang
       ∧ handleAnalyzeSecurity NewMCPServer e id args w
         = (tt, {| calls := calls w ++
                     [CallDetect code path;
                      CallAnalyze (PreprocessCode code lang)
                                  (GetSecurityRulesPrompt a e)];
                   stdout := stdout w ++ [answer id (outcome a e code path)] |})).
Proof.
  intros Hc He path lang.
  pose proof (handleAnalyzeSecurity_valid NewMCPServer e id args code w Hc) as H.
  cbn zeta in H. rewrite !decide_False in H by exact He.
  change (languageDetector NewMCPServer) with NewLanguageDetector in H.
  fold path in H. fold lang in H. split.
  - intros Hu. rewrite H, Hu. reflexivity.
  - intros Hk.
    pose proof (Detect_registered (visit_first e) (visit_second e) code path) as Hr.
    fold lang in Hr. apply elem_of_cons in Hr as [Hr|Hr]; [congruence|].
    destruct (registry_lookup lang Hr) as (a & Ha & Hl).
    exists a. split; [exact Ha|]. split; [exact Hl|].
    rewrite H, Ha. unfold backend_call. rewrite Hl. reflexivity.
Qed.

Lemma automatic_detection_witness :
  exists a,
    analyzers NewMCPServer !! JAVA = Some a
    ∧ handleAnalyzeSecurity NewMCPServer (sample_env (inl "[]") (Response 200))
        (Number "1") auto_args initial
      = (tt, {| calls := [CallDetect java_code "";
                          CallAnalyze (PreprocessCode java_code JAVA)
                            (GetSecurityRulesPrompt a
                               (sample_env (inl "[]") (Response 200)))];
                stdout := [answer (Number "1")
                             (outcome a (sample_env (inl "[]") (Response 200))
                                java_code "")] |}).
Proof.
  destruct (proj2 (automatic_detection (sample_env (inl "[]") (Response 200))
                     (Number "1") auto_args java_code initial
                     ltac:(split; [reflexivity|discriminate])
                     ltac:(intros [_ H]; apply H; reflexivity))
              ltac:(vm_compute; discriminate)) as (a & Ha & _ & H).
  exists a. split; [exact Ha|exact H].
Defined.

Lemma outcome_backend_error a e code filePath err :
  llm_analyze e (PreprocessCode code (Analyzers.Language (base a)))
    (GetSecurityRulesPrompt a e) = inr err ->
  outcome a e code filePath = inr ("LLM analysis failed: " +:+ err)%string.
Proof.
  intros H. unfold outcome, Analyzers.Analyze, AnalyzeWithLLM,
    LLMService.Analyze, bind, record, ret. rewrite H. reflexivity.
Qed.

Lemma parseIssues_invalid e response filePath :
  Json.parse (extractJSON response) = None ->
  parseIssuesFromResponse e response filePath
  = inr ("failed to parse issues: "
         +:+ unmarshal_error e (extractJSON response))%string.
Proof.
  intros H. unfold parseIssuesFromResponse, Unmarshal.issues, Unmarshal.wrapper.
  rewrite H. reflexivity.
Qed.

Lemma outcome_invalid_reply a e code filePath response :
  llm_analyze e (PreprocessCode code (Analyzers.Language (base a)))
    (GetSecurityRulesPrompt a e) = inl response ->
  Json.parse (extractJSON response) = None ->
  outcome a e code filePath
  = inr ("failed to parse LLM response: failed to parse issues: "
         +:+ unmarshal_error e (extractJSON response))%string.
Proof.
  intros H Hp. unfold outcome, Analyzers.Analyze, AnalyzeWithLLM,
    LLMService.Analyze, bind, record, ret. rewrite H.
  rewrite (parseIssues_invalid e response filePath Hp). reflexivity.
Qed.

(** X9: when the backend fails, [analyze_security] reports it and
    prints no result.  With a usable [code] argument and an analyzer
    registered for the language the handler settles on (the explicit
    language, else the verdict of the classifier), if the call of the
    backend for that analyzer fails with an error, the handler makes the
    calls of the classifier it needs, then exactly that one call of the
    backend, and prints the one response -32603 "Analysis failed: LLM
    analysis failed: <error>". *)
Theorem backend_failure_reported s e id args code a err w :
  valid_code args code ->
  analyzers s !! resolved_language s e args code = Some a ->
  llm_analyze e (PreprocessCode code (Analyzers.Language (base a)))
    (GetSecurityRulesPrompt a e) = inr err ->
  handleAnalyzeSecurity s e id args w
  = (tt, {| calls := calls w ++ detector_calls args code ++
              [CallAnalyze (PreprocessCode code (Analyzers.Language (base a)))
                           (GetSecurityRulesPrompt a e)];
            stdout := stdout w ++
              [error_response id (-32603)
                 ("Analysis failed: LLM analysis failed: " +:+ err)%string] |}).
Proof.
  intros Hc Ha Hb.
  rewrite (handleAnalyzeSecurity_analyzed s e id args code a w Hc Ha).
  rewrite (outcome_backend_error a e code _ err Hb). reflexivity.
Qed.

Lemma backend_failure_reported_witness :
  handleAnalyzeSecurity NewMCPServer
    (sample_env (inr "connection refused") (Response 200))
    (Number "1") java_args initial
  = (tt, {| calls := [CallAnalyze "class A {}" "java rules"];
            stdout :=
              [error_response (Number "1") (-32603)
                 "Analysis failed: LLM analysis failed: connection refused"] |}).
Proof.
  apply (backend_failure_reported NewMCPServer
           (sample_env (inr "connection refused") (Response 200))
           (Number "1") java_args "class A {}" NewJavaAnalyzer
           "connection refused" initial).
  - split; [reflexivity|discriminate].
  - reflexivity.
  - reflexivity.
Defined.

(** X10: when the text extracted from the reply of the backend
    is not JSON, [analyze_security] reports it and prints no report.  With
    a usable [code] argument and an analyzer registered for the language
    the handler settles on, the handler makes the calls of the classifier
    it needs, then the one call of the backend, and prints the one response
    -32603 "Analysis failed: failed to parse LLM response: failed to parse
    issues: <error>". *)
Theorem invalid_reply_reported s e id args code a response w :
  valid_code args code ->
  analyzers s !! resolved_language s e args code = Some a ->
  llm_analyze e (PreprocessCode code (Analyzers.Language (base a)))
    (GetSecurityRulesPrompt a e) = inl response ->
  Json.parse (extractJSON response) = None ->
  handleAnalyzeSecurity s e id args w
  = (tt, {| calls := calls w ++ detector_calls args code ++
              [CallAnalyze (PreprocessCode code (Analyzers.Language (base a)))
                           (GetSecurityRulesPrompt a e)];
            stdout := stdout w ++
              [error_response id (-32603)
                 ("Analysis failed: failed to parse LLM response: "
                  +:+ "failed to parse issues: "
                  +:+ unmarshal_error e (extractJSON response))%string] |}).
Proof.
  intros Hc Ha Hb Hp.
  rewrite (handleAnalyzeSecurity_analyzed s e id args code a w Hc Ha).
  rewrite (outcome_invalid_reply a e code _ response Hb Hp). reflexivity.
Qed.

Lemma invalid_reply_reported_witness :
  handleAnalyzeSecurity NewMCPServer
    (sample_env (inl "I found nothing to report.") (Response 200))
    (Number "1") java_args initial
  = (tt, {| calls := [CallAnalyze "class A {}" "java rules"];
            stdout :=
              [error_response (Number "1") (-32603)
                 ("Analysis failed: failed to parse LLM response: "
                  +:+ "failed to parse issues: " +:+ "invalid JSON")%string] |}).
Proof.
  apply (invalid_reply_reported NewMCPServer
           (sample_env (inl "I found nothing to report.") (Response 200))
           (Number "1") java_args "class A {}" NewJavaAnalyzer
           "I found nothing to report." initial).
  - split; [reflexivity|discriminate].
  - reflexivity.
  - reflexivity.
  - vm_compute. reflexivity.
Defined.

Lemma code_cases (args : gmap string value) :
  ((as_string (args !! "code")).2 = false
   ∨ (as_string (args !! "code")).1 = "")
  ∨ exists code, valid_code args code.
Proof.
  unfold valid_code.
  destruct (args !! "code") as [[| | |c| |]|]; cbn; auto.
  destruct (decide (c = "")) as [->|Hc]; [auto|]. right. exists c. auto.
Qed.

Lemma handleAnalyzeSecurity_invalid s e id args w :
  (as_string (args !! "code")).2 = false
  ∨ (as_string (args !! "code")).1 = "" ->
  handleAnalyzeSecurity s e id args w
  = (tt, {| calls := calls w ++ [];
            stdout := stdout w ++
              [error_response id (-32602)
                 "Missing or invalid 'code' parameter"] |}).
Proof.
  intros H. unfold handleAnalyzeSecurity.
  destruct (as_string (args !! "code")) as [code ok]. cbn [fst snd] in H.
  rewrite decide_True by exact H. rewrite app_nil_r. reflexivity.
Qed.

Lemma well_formed_error id code msg : well_formed (error_response id code msg).
Proof. split; [reflexivity|]. cbn. split; [discriminate|reflexivity]. Qed.

Lemma well_formed_result id text : well_formed (result_response id text).
Proof. split; [reflexivity|]. cbn. split; [discriminate|congruence]. Qed.

Lemma well_formed_answer id r : well_formed (answer id r).
Proof.
  destruct r; [apply well_formed_result|apply well_formed_error].
Qed.

Lemma analysis_response_answer id r : analysis_response id (answer id r).
Proof.
  destruct r as [result|err]; cbn [answer].
  - left. eauto.
  - right. right. right. eauto.
Qed.

(** Every call of [analyze_security] prints one response of one of the
    four kinds, and makes at most two calls. *)
Lemma handleAnalyzeSecurity_shape s e id args w :
  exists trail r,
    handleAnalyzeSecurity s e id args w
    = (tt, {| calls := calls w ++ trail; stdout := stdout w ++ [r] |})
    ∧ analysis_response id r ∧ length trail <= 2.
Proof.
  destruct (code_cases args) as [Hi|[code Hc]].
  - exists [], (error_response id (-32602) "Missing or invalid 'code' parameter").
    split; [exact (handleAnalyzeSecurity_invalid s e id args w Hi)|].
    split; [right; left; reflexivity|cbn; lia].
  - rewrite (handleAnalyzeSecurity_valid s e id args code w Hc). cbn zeta.
    set (detect := if decide (explicit_language (requested "language" args))
                   then [] else [CallDetect code (requested "file_path" args)]).
    assert (length detect <= 1) as Hd.
    { unfold detect. case_decide; cbn; lia. }
    destruct (analyzers s !! _) as [a|].
    + eexists _, _. split; [reflexivity|].
      split; [apply analysis_response_answer|].
      rewrite length_app. cbn. lia.
    + eexists _, _. split; [reflexivity|].
      split; [right; right; left; eauto|lia].
Qed.

Lemma analysis_response_well_formed id r :
  analysis_response id r -> well_formed r ∧ ID r = id.
Proof.
  intros [[t ->]|[->|[[l ->]|[m ->]]]];
    (split; [first [apply well_formed_result|apply well_formed_error]
            |reflexivity]).
Qed.

Lemma handleToolsCall_shape s e request w :
  exists trail r,
    handleToolsCall s e request w
    = (tt, {| calls := calls w ++ trail; stdout := stdout w ++ [r] |})
    ∧ well_formed r ∧ ID r = req_ID request ∧ length trail <= 2.
Proof.
  unfold handleToolsCall.
  destruct (as_string (Params request !! "name")) as [toolName ok].
  destruct (decide (ok = false)).
  { exists [], (error_response (req_ID request) (-32602) "Invalid tool name").
    rewrite app_nil_r.
    split; [reflexivity|]. split; [apply well_formed_error|].
    split; [reflexivity|cbn; lia]. }
  destruct (as_map (Params request !! "arguments")) as [arguments ?].
  destruct (decide (toolName = "analyze_security")).
  { destruct (handleAnalyzeSecurity_shape s e (req_ID request) arguments w)
      as (trail & r & H & Hk & Hl).
    exists trail, r. split; [exact H|].
    destruct (analysis_response_well_formed _ _ Hk) as [Hw Hi].
    split; [exact Hw|]. split; [exact Hi|exact Hl]. }
  destruct (decide (toolName = "health_check")).
  { unfold handleHealthCheck, LLMService.HealthCheck, bind, record, ret,
      sendResponse, Println. cbn [calls stdout].
    eexists _, _. split; [reflexivity|].
    split; [split; [reflexivity|cbn; split; [discriminate|congruence]]|].
    split; [reflexivity|cbn; lia]. }
  destruct (decide (toolName = "list_supported_languages")).
  { unfold handleListSupportedLanguages, sendResponse, Println.
    exists [], (result_response (req_ID request)
                  (Marshal.MarshalIndent
                     (Array (Marshal.of_LanguageInfo
                               <$> GetSupportedLanguages (languageDetector s)))
                     "  ")).
    rewrite app_nil_r.
    split; [reflexivity|]. split; [apply well_formed_result|].
    split; [reflexivity|cbn; lia]. }
  exists [], (error_response (req_ID request) (-32602)
                ("Unknown tool: " +:+ toolName)%string).
  rewrite app_nil_r.
  split; [reflexivity|]. split; [apply well_formed_error|].
  split; [reflexivity|cbn; lia].
Qed.

Lemma handleRequest_shape s e request w :
  exists trail r,
    handleRequest s e request w
    = (tt, {| calls := calls w ++ trail; stdout := stdout w ++ [r] |})
    ∧ well_formed r ∧ ID r = req_ID request ∧ length trail <= 2.
Proof.
  unfold handleRequest.
  destruct (decide (Method request = "initialize")).
  { unfold handleInitialize, sendResponse, Println.
    eexists [], _. rewrite app_nil_r. split; [reflexivity|].
    split; [split; [reflexivity|cbn; split; [discriminate|congruence]]|].
    split; [reflexivity|cbn; lia]. }
  destruct (decide (Method request = "tools/list")).
  { unfold handleToolsList, sendResponse, Println.
    eexists [], _. rewrite app_nil_r. split; [reflexivity|].
    split; [split; [reflexivity|cbn; split; [discriminate|congruence]]|].
    split; [reflexivity|cbn; lia]. }
  destruct (decide (Method request = "tools/call")).
  { apply handleToolsCall_shape. }
  exists [], (error_response (req_ID request) (-32601)
                ("Method not found: " +:+ Method request)%string).
  rewrite app_nil_r.
  split; [reflexivity|]. split; [apply well_formed_error|].
  split; [reflexivity|cbn; lia].
Qed.

(** X11: every request gets exactly one response.  Whatever the
    request, the environment and the state, [handleRequest] prints one
    response, with version "2.0", the identifier of the request, and
    either a result or an error but not both; it makes at most two
    outside calls and prints nothing else. *)
Theorem handleRequest_one_response s e request w :
  exists trail r,
    handleRequest s e request w
    = (tt, {| calls := calls w ++ trail; stdout := stdout w ++ [r] |})
    ∧ JSONRPC r = "2.0"
    ∧ ID r = req_ID request
    ∧ (Result r = None ↔ Error r ≠ None)
    ∧ length trail <= 2.
Proof.
  destruct (handleRequest_shape s e request w) as (trail & r & H & [Hv Hx] & Hi & Hl).
  exists trail, r. auto.
Qed.


(** ** The dispatcher and the loop of the server *)

Lemma advertised_tools_eq :
  advertised_tools = ["analyze_security"; "health_check"; "list_supported_languages"].
Proof. vm_compute. reflexivity. Qed.

Lemma unknown_tool_ne_analysis id name r :
  analysis_response id r ->
  r ≠ error_response id (-32602) ("Unknown tool: " +:+ name)%string.
Proof.
  intros [[t ->]|[->|[[l ->]|[m ->]]]]; cbn; discriminate.
Qed.

Lemma world_stdout_inv c1 c2 (o : list MCPResponse) r1 r2 :
  (tt, {| calls := c1; stdout := o ++ [r1] |})
  = (tt, {| calls := c2; stdout := o ++ [r2] |}) -> r1 = r2.
Proof.
  intros H. injection H as _ H. apply app_inv_head in H. congruence.
Qed.

(** X12: the tools that [handleToolsList] advertises are exactly
    the tools that [handleToolsCall] accepts: for a request whose tool
    name is a string, the answer is the error "Unknown tool: <name>"
    exactly when the name is not among the advertised names. *)
Theorem tools_call_accepts_advertised s e request name w :
  Params request !! "name" = Some (Str name) ->
  name ∈ advertised_tools
  ↔ handleToolsCall s e request w
    ≠ (tt, {| calls := calls w;
              stdout := stdout w ++
                [error_response (req_ID request) (-32602)
                   ("Unknown tool: " +:+ name)%string] |}).
Proof.
  intros Hn. rewrite advertised_tools_eq. unfold handleToolsCall. rewrite Hn.
  cbn [as_string]. rewrite decide_False by discriminate.
  destruct (as_map (Params request !! "arguments")) as [arguments ?].
  destruct (decide (name = "analyze_security")) as [->|H1].
  { split; [intros _|intros _; left].
    destruct (handleAnalyzeSecurity_shape s e (req_ID request) arguments w)
      as (trail & r & -> & Hk & _).
    intros H. apply world_stdout_inv in H.
    exact (unknown_tool_ne_analysis _ _ _ Hk H). }
  destruct (decide (name = "health_check")) as [->|H2].
  { split; [intros _|intros _; right; left].
    unfold handleHealthCheck, LLMService.HealthCheck, bind, record, ret,
      sendResponse, Println. cbn [calls stdout].
    intros H. apply world_stdout_inv in H. discriminate H. }
  destruct (decide (name = "list_supported_languages")) as [->|H3].
  { split; [intros _|intros _; right; right; left].
    unfold handleListSupportedLanguages, sendResponse, Println.
    intros H. apply world_stdout_inv in H. discriminate H. }
  split.
  - rewrite !elem_of_cons. intros [?|[?|[?|H]]]; [congruence..|inversion H].
  - intros H. exfalso. apply H. reflexivity.
Qed.

Lemma tools_call_accepts_advertised_witness :
  handleToolsCall NewMCPServer (sample_env (inl "[]") (Response 200))
    health_request initial
  ≠ (tt, {| calls := calls initial;
            stdout := stdout initial ++
              [error_response (req_ID health_request) (-32602)
                 ("Unknown tool: " +:+ "health_check")%string] |}).
Proof.
  apply (proj1 (tools_call_accepts_advertised NewMCPServer
                  (sample_env (inl "[]") (Response 200)) health_request
                  "health_check" initial ltac:(reflexivity))).
  vm_compute. right. left.
Defined.

Lemma Run_cons s e ParseFloat parse_error line rest w :
  Run s e ParseFloat parse_error (line :: rest) w
  = Run s e ParseFloat parse_error rest
      (serve s e ParseFloat parse_error line w).2.
Proof.
  cbn [Run]. unfold bind.
  destruct (serve s e ParseFloat parse_error line w). reflexivity.
Qed.

Lemma serve_shape s e ParseFloat parse_error line w :
  line ≠ "" ->
  exists trail r,
    serve s e ParseFloat parse_error line w
    = (tt, {| calls := calls w ++ trail; stdout := stdout w ++ [r] |})
    ∧ answers ParseFloat parse_error line r.
Proof.
  intros Hl. unfold serve, answers. rewrite decide_False by exact Hl.
  destruct (unmarshal_request ParseFloat line) as [request|].
  - destruct (handleRequest_shape s e request w) as (trail & r & H & Hw & Hi & _).
    exists trail, r. auto.
  - eexists [], _. rewrite app_nil_r. split; [reflexivity|].
    split; [apply well_formed_error|reflexivity].
Qed.

(** X13: the loop of [Run] answers every line that is not empty
    with one response, in the order of the lines, and skips empty lines.
    A line that [json.Unmarshal] rejects (text that is not JSON, a member
    of the wrong kind, a number in the identifier or the parameters that
    is out of the range of float64) is answered by the error -32700 "Parse
    error: ..." with a null identifier, after which the loop goes on; a
    line that decodes is answered by a well-formed response with the
    identifier as Go holds it. *)
Theorem Run_answers_in_order s e ParseFloat parse_error lines w :
  exists trail rs,
    Run s e ParseFloat parse_error lines w
    = (tt, {| calls := calls w ++ trail; stdout := stdout w ++ rs |})
    ∧ Forall2 (answers ParseFloat parse_error)
        (filter (fun l => l ≠ "") lines) rs.
Proof.
  revert w. induction lines as [|line rest IH]; intros w.
  - exists [], []. rewrite !app_nil_r. split; [destruct w; reflexivity|constructor].
  - rewrite Run_cons. destruct (decide (line = "")) as [->|Hl].
    + rewrite filter_cons_False by (intros H; apply H; reflexivity).
      unfold serve. rewrite decide_True by reflexivity. apply IH.
    + rewrite filter_cons_True by exact Hl.
      destruct (serve_shape s e ParseFloat parse_error line w Hl)
        as (t1 & r & -> & Hr).
      cbn [snd].
      destruct (IH {| calls := calls w ++ t1; stdout := stdout w ++ [r] |})
        as (t2 & rs & -> & Hrs).
      cbn [calls stdout]. exists (t1 ++ t2), (r :: rs).
      rewrite <- !app_assoc. split; [reflexivity|].
      constructor; assumption.
Qed.

Lemma keys_in_order_all {V} (m : gmap string V) o :
  Forall (fun k => is_Some (m !! k)) o -> keys_in_order m o = o.
Proof.
  unfold keys_in_order. induction o as [|x o IH] using rev_ind; intros H.
  - reflexivity.
  - apply Forall_app in H as [Ho Hx]. rewrite Forall_singleton in Hx.
    rewrite foldl_app. cbn [foldl]. rewrite (IH Ho).
    rewrite decide_True by exact Hx. reflexivity.
Qed.

(** X14: the health report lists every registered analyzer once.
    When [range s.analyzers] visits every key once, the text printed by
    [handleHealthCheck] is the serialised health record whose supported
    languages are a permutation of the keys of the registry. *)
Theorem health_check_lists_analyzers s e id w :
  range_order (analyzers s) (visit_analyzers e) ->
  exists status langs,
    langs ≡ₚ (map_to_list (analyzers s)).*1
    ∧ handleHealthCheck s e id w
      = (tt, {| calls := calls w ++ [CallHealthCheck];
                stdout := stdout w ++
                  [result_response id (health_text status langs)] |}).
Proof.
  intros Ho.
  assert (keys_in_order (analyzers s) (visit_analyzers e) = visit_analyzers e)
    as Hk.
  { apply keys_in_order_all. apply Forall_forall. intros k Hin.
    apply (range_order_elem _ _ _ Ho). exact Hin. }
  unfold handleHealthCheck, LLMService.HealthCheck, bind, record, ret,
    sendResponse, Println. cbn [calls stdout fst]. rewrite Hk.
  eexists _, (visit_analyzers e). split; [exact Ho|]. reflexivity.
Qed.

Lemma health_check_lists_analyzers_witness :
  exists status langs,
    langs ≡ₚ (map_to_list (analyzers NewMCPServer)).*1
    ∧ handleHealthCheck NewMCPServer (sample_env (inl "[]") (Response 200))
        (Number "2") initial
      = (tt, {| calls := calls initial ++ [CallHealthCheck];
                stdout := stdout initial ++
                  [result_response (Number "2") (health_text status langs)] |}).
Proof.
  apply (health_check_lists_analyzers NewMCPServer
           (sample_env (inl "[]") (Response 200)) (Number "2") initial).
  unfold range_order. apply (bool_decide_unpack _). vm_compute. exact I.
Defined.

Lemma catalogue_identifiers lang :
  (exists info, info ∈ GetSupportedLanguages NewLanguageDetector
                ∧ Identifier info = lang)
  ↔ lang ∈ all_languages.
Proof.
  unfold GetSupportedLanguages, all_languages. split.
  - intros (info & Hin & <-). rewrite !elem_of_cons in Hin.
    destruct Hin as [->|[->|[->|[->|H]]]]; [..|inversion H];
      apply (bool_decide_unpack _); vm_compute; exact I.
  - rewrite !elem_of_cons. intros [->|[->|[->|[->|H]]]]; [..|inversion H].
    + eexists; split;
        [apply list_elem_of_In; simpl; do 3 right; left; reflexivity|reflexivity].
    + eexists; split;
        [apply list_elem_of_In; simpl; left; reflexivity|reflexivity].
    + eexists; split;
        [apply list_elem_of_In; simpl; right; left; reflexivity|reflexivity].
    + eexists; split;
        [apply list_elem_of_In; simpl; do 2 right; left; reflexivity|reflexivity].
Qed.

Lemma patterns_registered lang :
  is_Some (patterns NewLanguageDetector !! lang) ↔ lang ∈ all_languages.
Proof.
  destruct (decide (lang ∈ all_languages)) as [Hin|Hout].
  - split; [intros _; exact Hin|intros _].
    unfold all_languages in Hin. rewrite !elem_of_cons in Hin.
    destruct Hin as [->|[->|[->|[->|H]]]]; [..|inversion H];
      vm_compute; eauto.
  - split; [|tauto]. intros [ps Hps]. exfalso.
    pose proof Hout as Hout'.
    unfold all_languages in Hout. rewrite !not_elem_of_cons in Hout.
    destruct Hout as (H1 & H2 & H3 & H4 & _).
    unfold NewLanguageDetector, initializePatterns in Hps. cbn [patterns] in Hps.
    rewrite !lookup_insert_ne in Hps by congruence.
    rewrite lookup_empty in Hps. discriminate.
Qed.

Lemma analyzers_registered lang :
  is_Some (analyzers NewMCPServer !! lang) ↔ lang ∈ all_languages.
Proof.
  destruct (decide (lang ∈ all_languages)) as [Hin|Hout].
  - split; [intros _; exact Hin|intros _].
    destruct (registry_lookup lang Hin) as (a & -> & _). eauto.
  - split; [|tauto]. rewrite (registry_lookup_none lang Hout).
    intros [a Ha]. discriminate.
Qed.

(** X15: the four tables of languages agree.  A language has an
    analyzer in [NewMCPServer] exactly when it has signatures in
    [initializePatterns], exactly when [GetSupportedLanguages] has an
    entry for it, and exactly when it is a value other than "auto" of the
    [language] enumeration that [handleToolsList] advertises; and the
    analyzer registered under a language analyses that language. *)
Theorem languages_consistent lang :
  (is_Some (analyzers NewMCPServer !! lang)
   ↔ is_Some (patterns NewLanguageDetector !! lang))
  ∧ (is_Some (analyzers NewMCPServer !! lang)
     ↔ exists info, info ∈ GetSupportedLanguages NewLanguageDetector
                    ∧ Identifier info = lang)
  ∧ (is_Some (analyzers NewMCPServer !! lang)
     ↔ lang ∈ language_enum ∧ lang ≠ "auto")
  ∧ (forall a, analyzers NewMCPServer !! lang = Some a ->
               Analyzers.Language (base a) = lang).
Proof.
  rewrite analyzers_registered, patterns_registered, catalogue_identifiers.
  split; [tauto|]. split; [tauto|]. split.
  - unfold language_enum, all_languages. rewrite !elem_of_cons.
    split.
    + intros [->|[->|[->|[->|H]]]]; [..|inversion H];
        (split; [auto 10|discriminate]).
    + intros [[->|[->|[->|[->|[->|H]]]]] Hne]; [auto 10..|congruence|inversion H].
  - intros a Ha.
    destruct (decide (lang ∈ all_languages)) as [Hin|Hout].
    + destruct (registry_lookup lang Hin) as (a' & Ha' & Hl). congruence.
    + rewrite (registry_lookup_none lang Hout) in Ha. discriminate.
Qed.


(** ** Preprocessing and extraction on text without their markers *)

Lemma starts_with_true p : forall s,
  starts_with p s = true -> exists t, s = p ++ t.
Proof.
  induction p as [|a p IH]; intros s H; [exists s; reflexivity|].
  destruct s as [|c s]; [discriminate|]. cbn [starts_with] in H.
  apply andb_true_iff in H as [Hc Hs]. apply Ascii.eqb_eq in Hc. subst c.
  destruct (IH s Hs) as [t ->]. exists t. reflexivity.
Qed.

(** A greedy repetition before a continuation that always succeeds
    takes every leading byte of the class. *)
Lemma rep_greedy_total {A} p (k : list ascii -> option A) :
  (forall x, is_Some (k x)) ->
  forall t, exists m rest,
    t = m ++ rest ∧ Forall (fun c => p c = true) m
    ∧ rep_greedy p t k = k rest.
Proof.
  intros Hk. induction t as [|c t (m & rest & -> & Hm & IH)].
  - exists [], []. split; [reflexivity|]. split; [constructor|reflexivity].
  - cbn [rep_greedy]. destruct (p c) eqn:Hc.
    + exists (c :: m), rest. split; [reflexivity|].
      split; [constructor; assumption|].
      rewrite IH. destruct (Hk rest) as [a ->]. reflexivity.
    + exists [], (c :: m ++ rest).
      split; [reflexivity|]. split; [constructor|reflexivity].
Qed.

(** Replacing the matches of a pattern that matches nowhere changes
    nothing. *)
Lemma replace_from_none r repl : forall s fresh,
  (forall a b, s = a ++ b -> match_here r b = None) ->
  replace_from r repl 0 fresh s = s.
Proof.
  induction s as [|c s IH]; intros fresh H.
  - cbn [replace_from]. rewrite (H [] [] eq_refl). reflexivity.
  - cbn [replace_from]. rewrite (H [] (c :: s) eq_refl). f_equal.
    apply IH. intros a b ->. apply (H (c :: a) b). reflexivity.
Qed.

Lemma match_here_block_none s :
  starts_with block_open s = false -> match_here multiLineComment s = None.
Proof.
  intros H. unfold match_here, multiLineComment. cbn [cats run].
  apply run_lit_fail. exact H.
Qed.

Lemma match_here_line_none s :
  starts_with line_open s = false -> match_here singleLineComment s = None.
Proof.
  intros H. unfold match_here, singleLineComment. cbn [cats run].
  apply run_lit_fail. exact H.
Qed.

Lemma cls_dot_not_nl c : cls_dot c = true -> c ≠ Bytes.nl.
Proof.
  unfold cls_dot, Bytes.eq. intros H ->. rewrite Ascii.eqb_refl in H.
  discriminate.
Qed.

(** A line comment, as the pattern matches it, holds no newline. *)
Lemma match_here_line s rest cs :
  match_here singleLineComment s = Some (rest, cs) ->
  exists m, s = m ++ rest ∧ Forall (fun c => c ≠ Bytes.nl) m.
Proof.
  destruct (starts_with line_open s) eqn:Hs.
  - apply starts_with_true in Hs as [t ->].
    unfold match_here, singleLineComment. cbn [cats run].
    rewrite (run_lit_app line_open t).
    cbn [run].
    destruct (rep_greedy_total cls_dot
                (fun s' : list ascii => Some (s', ([] : captures)))
                ltac:(eauto) t) as (m & rest' & -> & Hm & ->).
    intros H. injection H as <- _.
    exists (line_open ++ m). split; [rewrite app_assoc; reflexivity|].
    apply Forall_app. split.
    + repeat constructor; discriminate.
    + eapply Forall_impl; [exact Hm|]. intros c. apply cls_dot_not_nl.
  - rewrite (match_here_line_none s Hs). discriminate.
Qed.

Lemma count_nl_cons c l :
  count_nl (c :: l) = (if decide (c = Bytes.nl) then 1 else 0) + count_nl l.
Proof.
  unfold count_nl. rewrite filter_cons. case_decide; reflexivity.
Qed.

(** Deleting matches that hold no newline keeps the number of newlines. *)
Lemma replace_from_newlines r :
  (forall s rest cs, match_here r s = Some (rest, cs) ->
     exists m, s = m ++ rest ∧ Forall (fun c => c ≠ Bytes.nl) m) ->
  forall s skip fresh,
    Forall (fun c => c ≠ Bytes.nl) (take skip s) ->
    count_nl (replace_from r [] skip fresh s) = count_nl s.
Proof.
  intros Hr. induction s as [|c s IH]; intros skip fresh Hskip.
  - destruct skip; cbn [replace_from]; [|reflexivity].
    destruct (match_here r []) as [[rest cs]|]; [|reflexivity].
    destruct (length [] - length rest); destruct fresh; reflexivity.
  - destruct skip as [|n].
    + cbn [replace_from].
      assert (count_nl (c :: replace_from r [] 0 true s) = count_nl (c :: s))
        as Hkeep.
      { rewrite !count_nl_cons. f_equal. apply IH. constructor. }
      destruct (match_here r (c :: s)) as [[rest cs]|] eqn:Hm; [|exact Hkeep].
      destruct (Hr _ _ _ Hm) as (m & Hs & Hnl).
      destruct (length (c :: s) - length rest) as [|n] eqn:Hlen.
      * destruct fresh; exact Hkeep.
      * cbn [app].
        assert (length m = S n) as Hlm.
        { rewrite Hs, length_app in Hlen. lia. }
        destruct m as [|c' m]; [discriminate|].
        injection Hs as <- ->. injection Hlm as Hlm.
        apply Forall_cons in Hnl as [Hc Hnl].
        rewrite count_nl_cons, decide_False by exact Hc.
        apply IH. rewrite <- Hlm, take_app_length. exact Hnl.
    + cbn [replace_from]. cbn [take] in Hskip.
      apply Forall_cons in Hskip as [Hc Hskip].
      rewrite count_nl_cons, decide_False by exact Hc.
      apply IH. exact Hskip.
Qed.

Lemma ReplaceAllString_none r (code : string) :
  (forall a b, Bytes.of_string code = a ++ b -> match_here r b = None) ->
  ReplaceAllString r code "" = code.
Proof.
  intros H. unfold ReplaceAllString. rewrite (replace_from_none r _ _ _ H).
  apply to_of_string.
Qed.

Lemma no_block_comment (code : string) :
  contains block_open (Bytes.of_string code) = false ->
  ReplaceAllString multiLineComment code "" = code.
Proof.
  intros H. apply ReplaceAllString_none. intros a b Hab.
  apply match_here_block_none, contains_false_starts.
  apply (contains_app_r _ a). rewrite <- Hab. exact H.
Qed.

Lemma no_line_comment (code : string) :
  contains line_open (Bytes.of_string code) = false ->
  ReplaceAllString singleLineComment code "" = code.
Proof.
  intros H. apply ReplaceAllString_none. intros a b Hab.
  apply match_here_line_none, contains_false_starts.
  apply (contains_app_r _ a). rewrite <- Hab. exact H.
Qed.

(** X16: code that holds no opening of a block comment keeps its
    line structure: [PreprocessCode] returns text with as many newlines as
    its input, and returns the input itself when the code holds no [//]
    either. *)
Theorem PreprocessCode_keeps_lines code language :
  contains block_open (Bytes.of_string code) = false ->
  newlines (PreprocessCode code language) = newlines code
  ∧ (contains line_open (Bytes.of_string code) = false ->
     PreprocessCode code language = code).
Proof.
  intros Hb. unfold PreprocessCode, removeComments.
  rewrite (no_block_comment code Hb).
  case_decide; [|split; reflexivity]. split.
  - unfold newlines, ReplaceAllString. rewrite of_to_string.
    apply (replace_from_newlines singleLineComment match_here_line).
    constructor.
  - apply no_line_comment.
Qed.

Lemma PreprocessCode_keeps_lines_witness :
  newlines (PreprocessCode line_comment_code JAVA) = newlines line_comment_code.
Proof.
  apply (PreprocessCode_keeps_lines line_comment_code JAVA).
  vm_compute. reflexivity.
Defined.

Lemma find_json_none s :
  Forall (fun c => c ≠ "["%char ∧ c ≠ "{"%char) s -> find jsonRegex s = None.
Proof.
  intros H. apply find_from_none. intros a b ->.
  apply Forall_app in H as [_ H].
  destruct b as [|c b]; [apply match_here_json_none_nil|].
  apply Forall_cons in H as [[H1 H2] _]. apply match_here_json_none; assumption.
Qed.

Lemma word_token_closed w ts :
  word_token w = Some ts -> Forall (fun t => ¬ opens t) ts.
Proof.
  unfold word_token. destruct w as [|c w]; [intros [= <-]; constructor|].
  repeat case_decide; try destruct (is_number _); intros [= <-];
    repeat constructor; intros [?|?]; discriminate.
Qed.

Lemma step_closed st c P st' :
  step st c = Some (P, st') -> c ≠ "["%char ∧ c ≠ "{"%char ->
  Forall (fun t => ¬ opens t) P.
Proof.
  intros H [H1 H2]. destruct st as [w|acc hi|acc hi|acc hi todo u];
    cbn [step] in H.
  - destruct (is_word c); [injection H as <- _; constructor|].
    destruct (word_token w) as [ts|] eqn:Hw; [|discriminate].
    cbn [mbind option_bind] in H.
    pose proof (word_token_closed w ts Hw) as Hts.
    destruct (is_ws c); [injection H as <- _; exact Hts|].
    destruct (Bytes.eq Bytes.dq c); [injection H as <- _; exact Hts|].
    destruct (punct c) as [t|] eqn:Hp; [|discriminate].
    cbn [mbind option_bind] in H. injection H as <- _.
    apply Forall_app. split; [exact Hts|]. repeat constructor.
    apply punct_inv in Hp.
    destruct Hp as [[-> ?]|[[-> ?]|[[-> ?]|[[-> ?]|[[-> ?]|[-> ?]]]]]];
      intros [?|?]; congruence.
  - destruct (Bytes.eq Bytes.dq c).
    { injection H as <- _. repeat constructor. intros [?|?]; discriminate. }
    destruct (Bytes.eq "\" c); [injection H as <- _; constructor|].
    destruct (Bytes.code c <? 32)%N; [discriminate|].
    injection H as <- _; constructor.
  - destruct (Bytes.eq "u" c); [injection H as <- _; constructor|].
    destruct (escape c); [|discriminate].
    cbn [mbind option_bind] in H. injection H as <- _; constructor.
  - destruct (hex_digit c); [|discriminate]. cbn [mbind option_bind] in H.
    destruct todo as [|[|todo]]; [discriminate|..];
      injection H as <- _; constructor.
Qed.

(** Text without an opening bracket or brace has no token that opens an
    array or an object. *)
Lemma scan_closed s : forall st ts,
  scan st s = Some ts ->
  Forall (fun c => c ≠ "["%char ∧ c ≠ "{"%char) s ->
  Forall (fun t => ¬ opens t) ts.
Proof.
  induction s as [|c s IH]; intros st ts H Hs.
  - cbn [scan] in H. destruct st; try discriminate.
    exact (word_token_closed _ _ H).
  - apply Forall_cons in Hs as [Hc Hs].
    apply scan_inv in H as (P & st' & R & Hstep & Hscan & ->).
    apply Forall_app. split.
    + exact (step_closed _ _ _ _ Hstep Hc).
    + exact (IH _ _ Hscan Hs).
Qed.

Lemma parse_scalar (text : string) v :
  Json.parse text = Some v -> no_opening text -> scalar v.
Proof.
  unfold Json.parse, tokens, no_opening. intros H Ho.
  destruct (scan (Word []) text) as [ts|] eqn:Hs; [|discriminate].
  cbn [mbind option_bind] in H.
  pose proof (scan_closed _ _ _ Hs Ho) as Hts.
  unfold parse_tokens in H. cbn [parse_value] in H.
  destruct ts as [|t r]; [discriminate|].
  apply Forall_cons in Hts as [Ht _].
  destruct t; try discriminate;
    try (exfalso; apply Ht; first [left; reflexivity|right; reflexivity]);
    destruct r; try discriminate; injection H as <-; exact I.
Qed.

(** X17: a reply of the backend with no code fence, no opening
    bracket and no opening brace is handed to the decoder as it is, and
    never yields a finding: [parseIssuesFromResponse] returns no findings
    when the reply is the JSON text [null], and fails with "failed to parse
    issues: ..." otherwise. *)
Theorem reply_without_json e response filePath :
  no_fence response -> no_opening response ->
  extractJSON response = response
  ∧ parseIssuesFromResponse e response filePath
    = match Json.parse response with
      | Some Null => inl []
      | _ => inr ("failed to parse issues: "
                  +:+ unmarshal_error e response)%string
      end.
Proof.
  intros Hf Ho.
  assert (extractJSON response = response) as He.
  { unfold extractJSON, FindStringSubmatch.
    rewrite (find_codeBlock_none _ Hf). cbn [length].
    rewrite decide_False by lia.
    rewrite (find_json_none _ Ho). cbn [length].
    rewrite decide_False by lia. reflexivity. }
  split; [exact He|].
  unfold parseIssuesFromResponse, Unmarshal.issues, Unmarshal.wrapper.
  rewrite He.
  destruct (Json.parse response) as [v|] eqn:Hp; [|reflexivity].
  pose proof (parse_scalar response v Hp Ho) as Hv.
  destruct v; try contradiction; reflexivity.
Qed.

Lemma reply_without_json_witness :
  extractJSON "I found nothing to report." = "I found nothing to report."
  ∧ parseIssuesFromResponse (sample_env (inl "") (Response 200))
      "I found nothing to report." "A.java"
    = inr "failed to parse issues: invalid JSON".
Proof.
  apply (reply_without_json (sample_env (inl "") (Response 200))
           "I found nothing to report." "A.java").
  - vm_compute. reflexivity.
  - unfold no_opening. vm_compute.
    repeat (constructor; [split; discriminate|]). constructor.
Defined.


(** ** Findings, summary and report *)

Lemma issue_id_nonempty k : issue_id k ≠ "".
Proof. unfold issue_id. cbn. discriminate. Qed.

Lemma enrich_lookup filePath issues : forall i k x,
  issues !! k = Some x ->
  exists y,
    enrich filePath i issues !! k = Some y
    ∧ Models.ID y = (if decide (Models.ID x = "") then issue_id (i + k)
                     else Models.ID x)
    ∧ FilePath y = (if decide (FilePath x = "") then filePath else FilePath x)
    ∧ Title y = Title x ∧ Severity y = Severity x.
Proof.
  induction issues as [|x0 issues IH]; intros i k x Hk; [discriminate|].
  destruct x0 as [id ti de se ln cn fp sn re rf]. cbn [enrich].
  destruct k as [|k].
  - injection Hk as <-. eexists. split; [reflexivity|]. cbn.
    rewrite Nat.add_0_r. auto.
  - cbn in Hk. destruct (IH (S i) k x Hk) as (y & Hy & H).
    exists y. split; [exact Hy|].
    replace (i + S k) with (S i + k) by lia. exact H.
Qed.

Lemma enrich_length filePath issues : forall i,
  length (enrich filePath i issues) = length issues.
Proof.
  induction issues as [|[] issues IH]; intros i; [reflexivity|].
  cbn [enrich length]. rewrite IH. reflexivity.
Qed.

Lemma parseIssues_enriched e response filePath issues :
  parseIssuesFromResponse e response filePath = inl issues ->
  exists decoded, issues = enrich filePath 0 decoded.
Proof.
  unfold parseIssuesFromResponse.
  destruct (Unmarshal.issues _) as [l|].
  - intros [= <-]. eauto.
  - destruct (Unmarshal.wrapper _) as [l|]; [|discriminate].
    intros [= <-]. eauto.
Qed.

(** X18: every finding that [parseIssuesFromResponse] returns has
    an identifier that is not empty, and a file path that is not empty
    whenever the request named a file. *)
Theorem findings_identified e response filePath issues :
  parseIssuesFromResponse e response filePath = inl issues ->
  Forall (fun i => Models.ID i ≠ ""
                   ∧ (filePath ≠ "" -> FilePath i ≠ "")) issues.
Proof.
  intros H. destruct (parseIssues_enriched _ _ _ _ H) as [decoded ->].
  apply Forall_lookup. intros k y Hy.
  assert (is_Some (decoded !! k)) as [x Hx].
  { apply lookup_lt_is_Some. rewrite <- (enrich_length filePath decoded 0).
    apply lookup_lt_is_Some. eauto. }
  destruct (enrich_lookup filePath decoded 0 k x Hx) as (y' & Hy' & Hid & Hfp & _).
  rewrite Hy in Hy'. injection Hy' as <-. split.
  - rewrite Hid.
    destruct (decide (Models.ID x = "")); [apply issue_id_nonempty|assumption].
  - intros Hf. rewrite Hfp. destruct (decide (FilePath x = "")); assumption.
Qed.

Lemma findings_identified_witness :
  exists issues,
    parseIssuesFromResponse (sample_env (inl "") (Response 200))
      anonymous_reply "A.java" = inl issues
    ∧ Forall (fun i => Models.ID i ≠ ""
                       ∧ ("A.java" ≠ "" -> FilePath i ≠ "")) issues.
Proof.
  eexists. split; [vm_compute; reflexivity|].
  apply (findings_identified (sample_env (inl "") (Response 200))
           anonymous_reply "A.java").
  vm_compute. reflexivity.
Defined.

(** X19: when the reply gives no identifiers, the identifiers
    filled in are ISSUE-1, ISSUE-2, ... in the order of the findings, and
    no two findings share one. *)
Theorem generated_ids_numbered filePath issues :
  Forall (fun i => Models.ID i = "") issues ->
  Models.ID <$> enrich filePath 0 issues = issue_id <$> seq 0 (length issues)
  ∧ NoDup (Models.ID <$> enrich filePath 0 issues).
Proof.
  intros Hall.
  assert (Models.ID <$> enrich filePath 0 issues
          = issue_id <$> seq 0 (length issues)) as Heq.
  { apply list_eq. intros k. rewrite !list_lookup_fmap.
    destruct (issues !! k) as [x|] eqn:Hx.
    - destruct (enrich_lookup filePath issues 0 k x Hx) as (y & -> & Hid & _).
      rewrite lookup_seq_lt by (apply lookup_lt_is_Some; eauto).
      cbn. f_equal. rewrite Hid.
      rewrite decide_True; [reflexivity|].
      exact (proj1 (Forall_lookup _ _) Hall k x Hx).
    - apply lookup_ge_None in Hx.
      rewrite lookup_seq_ge by lia.
      rewrite (proj2 (lookup_ge_None _ _));
        [reflexivity|rewrite enrich_length; exact Hx]. }
  split; [exact Heq|]. rewrite Heq.
  apply NoDup_fmap_2; [|apply NoDup_seq].
  intros a b Hab. unfold issue_id in Hab.
  apply (f_equal Bytes.of_string) in Hab. rewrite !of_string_app in Hab.
  apply app_inv_head in Hab. apply (f_equal Bytes.to_string) in Hab.
  rewrite !to_of_string in Hab. apply pretty_Z_inj in Hab. lia.
Qed.

Lemma generated_ids_numbered_witness :
  Models.ID <$> enrich "A.java" 0 [Unmarshal.zeroIssue; Unmarshal.zeroIssue]
  = issue_id <$> seq 0 2
  ∧ NoDup (Models.ID <$> enrich "A.java" 0
             [Unmarshal.zeroIssue; Unmarshal.zeroIssue]).
Proof.
  apply (generated_ids_numbered "A.java"
           [Unmarshal.zeroIssue; Unmarshal.zeroIssue]).
  repeat constructor.
Defined.

Lemma foldl_tally issues : forall md,
  foldl tally (CriticalCount md, HighCount md, MediumCount md, LowCount md)
    issues
  = (CriticalCount (foldl count_severity md issues),
     HighCount (foldl count_severity md issues),
     MediumCount (foldl count_severity md issues),
     LowCount (foldl count_severity md issues)).
Proof.
  induction issues as [|i issues IH]; intros md; [reflexivity|].
  cbn [foldl]. rewrite <- IH. f_equal.
  destruct md. unfold tally, count_severity. cbn.
  repeat case_decide; reflexivity.
Qed.

Lemma generateSummary_metadata issues language duration :
  issues ≠ [] ->
  generateSummary issues
  = (let md := generateMetadata issues language duration in
     "Found " +:+ pretty (IssuesFound md) +:+ " security issue(s): "
     +:+ pretty (CriticalCount md) +:+ " critical, "
     +:+ pretty (HighCount md) +:+ " high, "
     +:+ pretty (MediumCount md) +:+ " medium, "
     +:+ pretty (LowCount md) +:+ " low.")%string.
Proof.
  intros Hne. unfold generateSummary.
  rewrite decide_False by (destruct issues; [congruence|discriminate]).
  cbn zeta.
  rewrite (proj2 (generateMetadata_counts issues language duration)).
  unfold generateMetadata.
  set (md0 := {| AnalysisTime := duration |}).
  change (0, 0, 0, 0)%Z
    with (CriticalCount md0, HighCount md0, MediumCount md0, LowCount md0).
  rewrite foldl_tally. reflexivity.
Qed.

(** X20: in every result of [AnalyzeWithLLM] that has findings,
    the summary sentence is made of the numbers of the metadata: the
    number of findings and the four per-severity counts. *)
Theorem summary_matches_metadata ba e code filePath prompt w result w' :
  AnalyzeWithLLM ba e code filePath prompt w = (inl result, w') ->
  Issues result ≠ [] ->
  Summary result
  = ("Found " +:+ pretty (IssuesFound (Metadata result))
     +:+ " security issue(s): "
     +:+ pretty (CriticalCount (Metadata result)) +:+ " critical, "
     +:+ pretty (HighCount (Metadata result)) +:+ " high, "
     +:+ pretty (MediumCount (Metadata result)) +:+ " medium, "
     +:+ pretty (LowCount (Metadata result)) +:+ " low.")%string.
Proof.
  intros H Hne.
  destruct (AnalyzeWithLLM_result _ _ _ _ _ _ _ _ H)
    as (response & issues & _ & _ & ->).
  cbn [Summary Metadata Issues] in *.
  exact (generateSummary_metadata issues _ _ Hne).
Qed.

Lemma summary_matches_metadata_witness :
  exists result w',
    AnalyzeWithLLM (NewBaseAnalyzer JAVA)
      (sample_env (inl known_severity_reply) (Response 200))
      "class A {}" "A.java" "rules" initial = (inl result, w')
    ∧ Summary result
      = "Found 3 security issue(s): 0 critical, 2 high, 0 medium, 1 low.".
Proof.
  eexists _, _. split; [vm_compute; reflexivity|].
  etransitivity;
    [eapply (summary_matches_metadata (NewBaseAnalyzer JAVA)
               (sample_env (inl known_severity_reply) (Response 200))
               "class A {}" "A.java" "rules" initial);
       [vm_compute; reflexivity|vm_compute; discriminate]
    |vm_compute; reflexivity].
Defined.

Lemma app_empty_l (x : string) : ("" +:+ x)%string = x.
Proof. reflexivity. Qed.

Lemma app_empty_r (x : string) : (x +:+ "")%string = x.
Proof.
  induction x as [|c x IH]; [reflexivity|].
  change (String c (x +:+ "") = String c x)%string. f_equal. exact IH.
Qed.

Lemma refs_app refs : forall sb,
  foldl (fun sb ref => sb +:+ "- " +:+ ref +:+ nl)%string sb refs
  = (sb +:+ refs_text refs)%string.
Proof.
  unfold refs_text.
  induction refs as [|r refs IH]; intros sb; [symmetry; apply app_empty_r|].
  cbn [foldl]. rewrite IH. rewrite (IH ("" +:+ _)%string).
  rewrite !string_app_assoc. reflexivity.
Qed.

(** [writeIssue] only appends to the report. *)
Lemma writeIssue_app sb issue :
  writeIssue sb issue = (sb +:+ render issue)%string.
Proof.
  unfold render, writeIssue. cbn zeta.
  repeat case_decide;
    rewrite ?refs_app, ?string_app_assoc, ?app_empty_l; reflexivity.
Qed.

Lemma foldl_writeIssue issues : forall sb,
  foldl writeIssue sb issues = (sb +:+ issues_text issues)%string.
Proof.
  unfold issues_text.
  induction issues as [|i issues IH]; intros sb; [symmetry; apply app_empty_r|].
  cbn [foldl]. rewrite IH. rewrite (IH (writeIssue "" i)).
  rewrite (writeIssue_app sb i). fold (render i).
  apply string_app_assoc.
Qed.

Lemma issues_text_app l1 i l2 :
  issues_text (l1 ++ i :: l2)
  = (issues_text l1 +:+ render i +:+ issues_text l2)%string.
Proof.
  unfold issues_text at 1. rewrite foldl_app. cbn [foldl].
  rewrite foldl_writeIssue, writeIssue_app. fold (issues_text l1).
  apply string_app_assoc.
Qed.

Lemma writeSection_app sb header issues :
  writeSection sb header issues = (sb +:+ section header issues)%string.
Proof.
  unfold section, writeSection. case_decide; [|symmetry; apply app_empty_r].
  rewrite !foldl_writeIssue, !string_app_assoc, app_empty_l. reflexivity.
Qed.

Lemma section_nil header : section header [] = "".
Proof. reflexivity. Qed.

(** The report of a result with findings: its head, then the four
    sections in the order critical, high, medium, low. *)
Lemma FormatAsMarkdown_sections result :
  Issues result ≠ [] ->
  FormatAsMarkdown result
  = (preamble result
     +:+ section "## Critical Issues" (with_severity CRITICAL (Issues result))
     +:+ section "## High Severity Issues" (with_severity HIGH (Issues result))
     +:+ section "## Medium Severity Issues"
           (with_severity MEDIUM (Issues result))
     +:+ section "## Low Severity Issues" (with_severity LOW (Issues result)))%string.
Proof.
  intros Hne. unfold FormatAsMarkdown. cbn zeta.
  rewrite decide_False by (destruct (Issues result); [congruence|discriminate]).
  rewrite !writeSection_app. unfold preamble.
  rewrite !string_app_assoc, app_empty_l. reflexivity.
Qed.

Lemma with_severity_unknown s issues :
  known_severity s ->
  Forall (fun i => ¬ known_severity (Severity i)) issues ->
  with_severity s issues = [].
Proof.
  intros Hs H. unfold with_severity. induction H as [|i l Hi _ IH]; [reflexivity|].
  rewrite filter_cons_False; [exact IH|]. intros He. apply Hi. rewrite He.
  exact Hs.
Qed.

(** X21: a result whose findings all carry a severity outside the
    four known levels is rendered as the head of the report alone: no
    finding is written and the line "No security issues found." is not
    written either. *)
Theorem FormatAsMarkdown_drops_unknown result :
  Issues result ≠ [] ->
  Forall (fun i => ¬ known_severity (Severity i)) (Issues result) ->
  FormatAsMarkdown result = preamble result.
Proof.
  intros Hne H. rewrite (FormatAsMarkdown_sections result Hne).
  rewrite (with_severity_unknown CRITICAL _ ltac:(unfold known_severity; auto) H).
  rewrite (with_severity_unknown HIGH _ ltac:(unfold known_severity; auto) H).
  rewrite (with_severity_unknown MEDIUM _ ltac:(unfold known_severity; auto) H).
  rewrite (with_severity_unknown LOW _ ltac:(unfold known_severity; auto) H).
  rewrite !section_nil, !app_empty_r. reflexivity.
Qed.

Lemma FormatAsMarkdown_drops_unknown_witness :
  FormatAsMarkdown (sample_result "INFO") = preamble (sample_result "INFO").
Proof.
  apply (FormatAsMarkdown_drops_unknown (sample_result "INFO")).
  - discriminate.
  - repeat constructor. unfold known_severity. vm_compute.
    intros [H|[H|[H|H]]]; discriminate H.
Defined.

Lemma starts_with_app p : forall b, starts_with p (p ++ b) = true.
Proof.
  induction p as [|c p IH]; intros b; [reflexivity|].
  cbn [app starts_with]. rewrite IH, eq_refl_byte. reflexivity.
Qed.

Lemma contains_starts p s : starts_with p s = true -> contains p s = true.
Proof. intros H. destruct s; cbn [contains]; rewrite H; reflexivity. Qed.

Lemma contains_app p a : forall b, contains p (a ++ p ++ b) = true.
Proof.
  induction a as [|c a IH]; intros b.
  - cbn [app]. apply contains_starts, starts_with_app.
  - cbn [app]. rewrite contains_cons, IH. apply orb_true_r.
Qed.

Lemma elem_of_with_severity i issues :
  i ∈ issues -> i ∈ with_severity (Severity i) issues.
Proof.
  intros H. unfold with_severity. apply list_elem_of_filter. auto.
Qed.

Lemma occurs_here (p : string) : occurs p p.
Proof. exists "", "". rewrite app_empty_r. reflexivity. Qed.

Lemma occurs_app_l p s t : occurs p s -> occurs p (t +:+ s)%string.
Proof.
  intros (a & b & ->). exists (t +:+ a)%string, b.
  rewrite !string_app_assoc. reflexivity.
Qed.

Lemma occurs_app_r p s t : occurs p s -> occurs p (s +:+ t)%string.
Proof.
  intros (a & b & ->). exists a, (b +:+ t)%string.
  rewrite !string_app_assoc. reflexivity.
Qed.

Lemma occurs_contains p s :
  occurs p s -> contains (Bytes.of_string p) (Bytes.of_string s) = true.
Proof.
  intros (a & b & ->). rewrite !of_string_app. apply contains_app.
Qed.

Lemma section_occurs header i issues :
  i ∈ issues -> occurs (render i) (section header issues).
Proof.
  intros Hin. apply list_elem_of_split in Hin as (l1 & l2 & ->).
  unfold section, writeSection.
  rewrite decide_True by (rewrite length_app; cbn; lia).
  rewrite foldl_writeIssue, issues_text_app.
  do 2 apply occurs_app_l. apply occurs_app_r, occurs_here.
Qed.

(** X22: every finding whose severity is one of the four known
    levels is written in the report in full: the text [writeIssue] makes
    of it occurs in [FormatAsMarkdown] of the result. *)
Theorem FormatAsMarkdown_renders_known result i :
  i ∈ Issues result ->
  known_severity (Severity i) ->
  contains (Bytes.of_string (render i))
    (Bytes.of_string (FormatAsMarkdown result)) = true.
Proof.
  intros Hin Hk. apply occurs_contains.
  assert (Issues result ≠ []) as Hne
    by (intros He; rewrite He in Hin; inversion Hin).
  rewrite (FormatAsMarkdown_sections result Hne).
  pose proof (elem_of_with_severity i _ Hin) as Hs.
  apply occurs_app_l.
  destruct Hk as [Hk|[Hk|[Hk|Hk]]]; rewrite Hk in Hs.
  - apply occurs_app_r, section_occurs, Hs.
  - apply occurs_app_l, occurs_app_r, section_occurs, Hs.
  - do 2 apply occurs_app_l. apply occurs_app_r, section_occurs, Hs.
  - do 3 apply occurs_app_l. apply section_occurs, Hs.
Qed.

Lemma FormatAsMarkdown_renders_known_witness :
  contains (Bytes.of_string (render (sample_issue HIGH)))
    (Bytes.of_string (FormatAsMarkdown (sample_result HIGH))) = true.
Proof.
  apply (FormatAsMarkdown_renders_known (sample_result HIGH) (sample_issue HIGH)).
  - left.
  - right. left. reflexivity.
Defined.


(** ** Decoding a request *)

Lemma dec_members_None ParseFloat ms : dec_members ParseFloat None ms = None.
Proof. induction ms as [|m ms IH]; [reflexivity|exact IH]. Qed.

Lemma dec_members_snoc ParseFloat acc ms m :
  dec_members ParseFloat acc (ms ++ [m])
  = (r ← dec_members ParseFloat acc ms; set_request_field ParseFloat r m.1 m.2).
Proof. unfold dec_members. rewrite foldl_app. reflexivity. Qed.

Lemma key_is_exclusive (a b key : string) :
  Unmarshal.foldName a ≠ Unmarshal.foldName b ->
  Unmarshal.key_is a key = true -> Unmarshal.key_is b key = false.
Proof.
  unfold Unmarshal.key_is. intros Hne Ha.
  apply bool_decide_eq_true_1 in Ha. apply bool_decide_eq_false_2. congruence.
Qed.

(** A member stored in a request: the identifier becomes the held form
    of a member whose key is [id], and is kept by every other member. *)
Lemma set_request_field_id ParseFloat r key v r' :
  set_request_field ParseFloat r key v = Some r' ->
  if Unmarshal.key_is "id" key then held ParseFloat v = Some (req_ID r')
  else req_ID r' = req_ID r.
Proof.
  destruct r as [ver id method params]. unfold set_request_field.
  destruct (Unmarshal.key_is "jsonrpc" key) eqn:H1.
  { rewrite (key_is_exclusive "jsonrpc" "id" key ltac:(vm_compute; discriminate) H1).
    destruct (dec_text ver v); [|discriminate].
    intros [= <-]. reflexivity. }
  destruct (Unmarshal.key_is "id" key) eqn:H2.
  { destruct (held ParseFloat v) as [x|]; [|discriminate].
    intros [= <-]. reflexivity. }
  destruct (Unmarshal.key_is "method" key).
  { destruct (dec_text method v); [|discriminate].
    intros [= <-]. reflexivity. }
  destruct (Unmarshal.key_is "params" key).
  { destruct (dec_params ParseFloat params v); [|discriminate].
    intros [= <-]. reflexivity. }
  intros [= <-]. reflexivity.
Qed.

Lemma members_of_snoc field ms m :
  members_of field (ms ++ [m])
  = members_of field ms
    ++ (if Unmarshal.key_is field m.1 then [m] else []).
Proof.
  unfold members_of. rewrite filter_app. f_equal.
  destruct (Unmarshal.key_is field m.1) eqn:H.
  - rewrite filter_cons_True by exact H. reflexivity.
  - rewrite filter_cons_False by congruence. reflexivity.
Qed.

(** X23: the identifier of a decoded request is the last member
    of the request object whose key is [id] in any letter case, as Go
    holds it in an [interface{}] (a number as its float64, a string with
    ill-formed bytes replaced), and null when there is no such member. *)
Theorem request_id_is_last_member ParseFloat line ms request :
  Json.parse line = Some (Object ms) ->
  unmarshal_request ParseFloat line = Some request ->
  held ParseFloat (from_option snd Null (last (members_of "id" ms)))
  = Some (req_ID request).
Proof.
  unfold unmarshal_request. intros ->. cbn [mbind option_bind].
  change (dec_request ParseFloat (Object ms))
    with (dec_members ParseFloat (Some zeroRequest) ms).
  revert request. induction ms as [|m ms IH] using rev_ind; intros request H.
  - injection H as <-. reflexivity.
  - rewrite dec_members_snoc in H.
    destruct (dec_members ParseFloat (Some zeroRequest) ms) as [r|];
      [|discriminate].
    cbn [mbind option_bind] in H.
    pose proof (set_request_field_id _ _ _ _ _ H) as Hid.
    rewrite members_of_snoc.
    destruct (Unmarshal.key_is "id" m.1).
    + rewrite last_snoc. exact Hid.
    + rewrite app_nil_r, Hid. apply IH. reflexivity.
Qed.

Lemma request_id_is_last_member_witness :
  exists request,
    unmarshal_request ParseFloat_whole repeated_id_line = Some request
    ∧ req_ID request = Number "7".
Proof.
  eexists. split; [vm_compute; reflexivity|].
  assert (held ParseFloat_whole
            (from_option snd Null
               (last (members_of "id"
                        [("ID", Str "a"); ("id", Number "7");
                         ("method", Str "ping")])))
          = Some (req_ID _)) as H
    by (apply (request_id_is_last_member ParseFloat_whole repeated_id_line);
        vm_compute; reflexivity).
  exact (eq_sym (f_equal (from_option id Null) H)).
Defined.

Lemma set_request_field_ill_typed ParseFloat r m :
  ill_typed m -> set_request_field ParseFloat r m.1 m.2 = None.
Proof.
  destruct r as [ver id method params]. destruct m as [key v].
  unfold ill_typed, set_request_field. cbn [fst snd].
  intros [[Hk Hv]|[[Hk Hv]|[Hk Hv]]].
  - rewrite Hk. destruct v; try contradiction; reflexivity.
  - rewrite (key_is_exclusive "method" "jsonrpc" key ltac:(vm_compute; discriminate) Hk).
    rewrite (key_is_exclusive "method" "id" key ltac:(vm_compute; discriminate) Hk).
    rewrite Hk. destruct v; try contradiction; reflexivity.
  - rewrite (key_is_exclusive "params" "jsonrpc" key ltac:(vm_compute; discriminate) Hk).
    rewrite (key_is_exclusive "params" "id" key ltac:(vm_compute; discriminate) Hk).
    rewrite (key_is_exclusive "params" "method" key ltac:(vm_compute; discriminate) Hk).
    rewrite Hk. destruct v; try contradiction; reflexivity.
Qed.

Lemma dec_members_ill_typed ParseFloat ms : forall acc,
  Exists ill_typed ms -> dec_members ParseFloat acc ms = None.
Proof.
  induction ms as [|m ms IH]; intros acc H; [inversion H|].
  apply Exists_cons in H as [H|H].
  - change (dec_members ParseFloat acc (m :: ms))
      with (dec_members ParseFloat
              (r ← acc; set_request_field ParseFloat r m.1 m.2) ms).
    destruct acc as [r|]; cbn [mbind option_bind].
    + rewrite (set_request_field_ill_typed ParseFloat r m H).
      apply dec_members_None.
    + apply dec_members_None.
  - apply (IH _ H).
Qed.

(** X24: a request object in which [jsonrpc] or [method] is
    neither a string nor null, or [params] is neither an object nor null,
    is answered as a parse error: error -32700 with a null identifier,
    even when the object carries an identifier, and no tool is run. *)
Theorem ill_typed_request_is_parse_error s e ParseFloat parse_error line ms w :
  Json.parse line = Some (Object ms) ->
  Exists ill_typed ms ->
  serve s e ParseFloat parse_error line w
  = (tt, {| calls := calls w;
            stdout := stdout w ++
              [error_response Null (-32700)
                 ("Parse error: " +:+ parse_error line)%string] |}).
Proof.
  intros Hp Hm. unfold serve.
  destruct (decide (line = "")) as [->|_]; [discriminate Hp|].
  unfold unmarshal_request. rewrite Hp. cbn [mbind option_bind].
  change (dec_request ParseFloat (Object ms))
    with (dec_members ParseFloat (Some zeroRequest) ms).
  rewrite (dec_members_ill_typed ParseFloat ms _ Hm). reflexivity.
Qed.

Lemma ill_typed_request_is_parse_error_witness :
  serve NewMCPServer (sample_env (inl "") (Response 200)) ParseFloat_whole
    (fun _ => "cannot unmarshal number") numeric_method_line initial
  = (tt, {| calls := calls initial;
            stdout := stdout initial ++
              [error_response Null (-32700)
                 "Parse error: cannot unmarshal number"] |}).
Proof.
  apply (ill_typed_request_is_parse_error NewMCPServer
           (sample_env (inl "") (Response 200)) ParseFloat_whole
           (fun _ => "cannot unmarshal number") numeric_method_line
           [("id", Number "7"); ("method", Number "5")] initial).
  - vm_compute. reflexivity.
  - right. left. right. left. split; [vm_compute; reflexivity|exact I].
Defined.


(** ** Writing JSON and reading it back *)

Lemma steps_app a : forall st b,
  steps st (a ++ b)
  = '(ts, st1) ← steps st a; '(ts', st2) ← steps st1 b; Some (ts ++ ts', st2).
Proof.
  induction a as [|c a IH]; intros st b.
  - cbn [app steps mbind option_bind]. destruct (steps st b) as [[ts' st2]|]; reflexivity.
  - cbn [app steps]. destruct (step st c) as [[ts st1]|]; [|reflexivity].
    cbn [mbind option_bind]. rewrite IH.
    destruct (steps st1 a) as [[ts1 st2]|]; [|reflexivity].
    cbn [mbind option_bind].
    destruct (steps st2 b) as [[ts2 st3]|]; [|reflexivity].
    cbn [mbind option_bind]. rewrite app_assoc. reflexivity.
Qed.

Lemma scan_steps s : forall st,
  scan st s = '(ts, st') ← steps st s; (ts ++.) <$> finish st'.
Proof.
  induction s as [|c s IH]; intros st.
  - cbn [scan steps mbind option_bind]. destruct (finish st); reflexivity.
  - cbn [scan steps]. destruct (step st c) as [[ts st1]|]; [|reflexivity].
    cbn [mbind option_bind]. rewrite IH.
    destruct (steps st1 s) as [[ts1 st2]|]; [|reflexivity].
    cbn [mbind option_bind]. destruct (finish st2) as [t|]; [|reflexivity].
    cbn. rewrite app_assoc. reflexivity.
Qed.

(** A byte as [quote] writes it is read back as that byte. *)
Lemma steps_escape_byte acc c :
  steps (InStr acc None) (Marshal.escape_byte c)
  = Some ([], InStr (acc ++ [c]) None).
Proof.
  destruct c as [[] [] [] [] [] [] [] []]; vm_compute; reflexivity.
Qed.

Lemma steps_escaped s : forall acc,
  steps (InStr acc None) (s ≫= Marshal.escape_byte)
  = Some ([], InStr (acc ++ s) None).
Proof.
  induction s as [|c s IH]; intros acc.
  - cbn. rewrite app_nil_r. reflexivity.
  - rewrite bind_cons, steps_app, steps_escape_byte. cbn [mbind option_bind].
    rewrite IH. cbn [mbind option_bind app]. rewrite <- app_assoc. reflexivity.
Qed.

Lemma steps_quote (s : string) :
  steps (Word []) (Bytes.of_string (Marshal.quote s))
  = Some ([TString s], Word []).
Proof.
  unfold Marshal.quote. rewrite of_to_string.
  change ([Bytes.dq] ++ ?x) with (Bytes.dq :: x).
  cbn [steps]. change (step (Word []) Bytes.dq) with (Some ([] : list token, InStr [] None)).
  cbn [mbind option_bind]. rewrite steps_app, steps_escaped.
  cbn [mbind option_bind app steps].
  change (step (InStr (Bytes.of_string s) None) Bytes.dq)
    with (Some ([TString (Bytes.to_string (Bytes.of_string s ++ []))], Word [])).
  cbn [mbind option_bind app]. rewrite app_nil_r, to_of_string. reflexivity.
Qed.

Lemma steps_blank w :
  Forall (fun c => is_ws c = true) w -> steps (Word []) w = Some ([], Word []).
Proof.
  induction 1 as [|c w Hc _ IH]; [reflexivity|].
  cbn [steps]. rewrite (step_ws_idle c Hc). cbn [mbind option_bind].
  rewrite IH. reflexivity.
Qed.

Lemma blank_spaces indent depth :
  blank indent -> blank (Marshal.spaces indent depth).
Proof.
  intros H. unfold blank. induction depth as [|n IH]; [constructor|].
  cbn [Marshal.spaces]. rewrite of_string_app. apply Forall_app. auto.
Qed.

Lemma steps_newline indent depth :
  blank indent ->
  steps (Word []) (Bytes.of_string (Marshal.newline indent depth))
  = Some ([], Word []).
Proof.
  intros H. apply steps_blank. unfold Marshal.newline.
  rewrite of_string_app. apply Forall_app. split.
  - repeat constructor.
  - apply blank_spaces, H.
Qed.

(** Scanning text made of pieces that each leave the scanner between
    tokens. *)
Lemma steps_seq (a b : string) ta tb :
  steps (Word []) (Bytes.of_string a) = Some (ta, Word []) ->
  steps (Word []) (Bytes.of_string b) = Some (tb, Word []) ->
  steps (Word []) (Bytes.of_string (a +:+ b)) = Some (ta ++ tb, Word []).
Proof.
  intros Ha Hb. rewrite of_string_app, steps_app, Ha.
  cbn [mbind option_bind]. rewrite Hb. reflexivity.
Qed.

Lemma value_induction (P : value -> Prop) :
  P Null -> (forall b, P (Bool b)) -> (forall l, P (Number l)) ->
  (forall s, P (Str s)) ->
  (forall vs, Forall P vs -> P (Array vs)) ->
  (forall ms, Forall (fun m => P m.2) ms -> P (Object ms)) ->
  forall v, P v.
Proof.
  intros HN HB HNu HS HA HO.
  fix IH 1. intros [|b|l|s|vs|ms];
    [exact HN|exact (HB b)|exact (HNu l)|exact (HS s)|..].
  - apply HA. induction vs as [|x vs IHvs]; constructor; [apply IH|exact IHvs].
  - apply HO. induction ms as [|[k x] ms IHms]; constructor; [apply IH|exact IHms].
Qed.

(** The scanner reads the text of a value as its tokens. *)
Lemma steps_encode indent :
  blank indent ->
  forall v, textual v -> forall depth,
    steps (Word []) (Bytes.of_string (Marshal.encode indent depth v))
    = Some (toks v, Word []).
Proof.
  intros Hi. induction v as [| | |s|vs IH|ms IH] using value_induction;
    intros Hv depth; try contradiction.
  - apply steps_quote.
  - destruct vs as [|v0 vs]; [reflexivity|].
    apply Forall_cons in IH as [IH0 IH]. destruct Hv as [Hv0 Hv].
    cbn [Marshal.encode toks].
    set (rest_text := fix rest (l : list value) : string := _).
    set (rest_toks := fix rest (l : list value) : list token := _).
    assert (steps (Word []) (Bytes.of_string (rest_text vs))
            = Some (rest_toks vs, Word [])) as Hrest.
    { clear IH0 Hv0. induction vs as [|x vs IHvs]; [reflexivity|].
      apply Forall_cons in IH as [IHx IH]. destruct Hv as [Hx Hv].
      cbn [rest_text rest_toks].
      apply (steps_seq "," _ [TComma]); [reflexivity|].
      apply (steps_seq _ _ []); [apply steps_newline, Hi|].
      apply steps_seq; [apply IHx, Hx|]. apply IHvs; assumption. }
    apply (steps_seq "[" _ [TLBracket]); [reflexivity|].
    apply (steps_seq _ _ []); [apply steps_newline, Hi|].
    apply steps_seq; [apply IH0, Hv0|].
    apply steps_seq; [exact Hrest|].
    apply (steps_seq _ "]" [] [TRBracket]); [apply steps_newline, Hi|reflexivity].
  - destruct ms as [|[k0 v0] ms]; [reflexivity|].
    apply Forall_cons in IH as [IH0 IH]. destruct Hv as (_ & Hv0 & Hv).
    cbn [Marshal.encode toks].
    set (rest_text := fix rest (l : list (string * value)) : string := _).
    set (rest_toks := fix rest (l : list (string * value)) : list token := _).
    assert (steps (Word []) (Bytes.of_string (rest_text ms))
            = Some (rest_toks ms, Word [])) as Hrest.
    { clear IH0 Hv0. induction ms as [|[k x] ms IHms]; [reflexivity|].
      apply Forall_cons in IH as [IHx IH]. destruct Hv as (_ & Hx & Hv).
      cbn [rest_text rest_toks].
      apply (steps_seq "," _ [TComma]); [reflexivity|].
      apply (steps_seq _ _ []); [apply steps_newline, Hi|].
      apply (steps_seq _ _ [TString k]); [apply steps_quote|].
      apply (steps_seq ": " _ [TColon]); [reflexivity|].
      apply steps_seq; [apply IHx, Hx|]. apply IHms; assumption. }
    apply (steps_seq "{" _ [TLBrace]); [reflexivity|].
    apply (steps_seq _ _ []); [apply steps_newline, Hi|].
    apply (steps_seq _ _ [TString k0]); [apply steps_quote|].
    apply (steps_seq ": " _ [TColon]); [reflexivity|].
    apply steps_seq; [apply IH0, Hv0|].
    apply steps_seq; [exact Hrest|].
    apply (steps_seq _ "}" [] [TRBrace]); [apply steps_newline, Hi|reflexivity].
Qed.

Lemma toks_head v : exists t ts,
  toks v = t :: ts ∧ t ≠ TRBracket ∧ t ≠ TRBrace.
Proof.
  destruct v as [|[]| | |[|v0 vs]|[|[k0 v0] ms]]; cbn [toks];
    eexists _, _; (split; [reflexivity|split; discriminate]).
Qed.

Lemma toks_length v : 1 <= length (toks v).
Proof.
  destruct (toks_head v) as (t & ts & -> & _). cbn. lia.
Qed.

Lemma parse_array_step fuel depth ts :
  S depth <= maxNestingDepth ->
  (forall r, ts ≠ TRBracket :: r) ->
  parse_value (S fuel) depth (TLBracket :: ts)
  = '(vs, r') ← parse_elems fuel (S depth) ts; Some (Array vs, r').
Proof.
  intros Hd Hts. cbn [parse_value]. rewrite decide_False by lia.
  destruct ts as [|[] ts]; try reflexivity. exfalso. eapply Hts. reflexivity.
Qed.

Lemma parse_object_step fuel depth ts :
  S depth <= maxNestingDepth ->
  (forall r, ts ≠ TRBrace :: r) ->
  parse_value (S fuel) depth (TLBrace :: ts)
  = '(ms, r') ← parse_members fuel (S depth) ts; Some (Object ms, r').
Proof.
  intros Hd Hts. cbn [parse_value]. rewrite decide_False by lia.
  destruct ts as [|[] ts]; try reflexivity. exfalso. eapply Hts. reflexivity.
Qed.

(** The parser reads the tokens of a value back as the value. *)
Lemma parse_toks v : forall fuel depth r,
  length (toks v) <= fuel ->
  depth + nesting v <= maxNestingDepth ->
  parse_value fuel depth (toks v ++ r) = Some (v, r).
Proof.
  induction v as [|b|l|s|vs IH|ms IH] using value_induction;
    intros fuel depth r Hf Hd.
  - destruct fuel; [cbn in Hf; lia|reflexivity].
  - destruct fuel; [pose proof (toks_length (Bool b)); lia|].
    destruct b; reflexivity.
  - destruct fuel; [cbn in Hf; lia|reflexivity].
  - destruct fuel; [cbn in Hf; lia|reflexivity].
  - destruct fuel as [|fuel]; [pose proof (toks_length (Array vs)); lia|].
    destruct vs as [|v0 vs].
    { cbn [toks app parse_value]. cbn [nesting] in Hd.
      rewrite decide_False by lia. reflexivity. }
    cbn [toks nesting] in *.
    set (rest := fix rest (l : list value) : list token := _) in *.
    set (most := fix most (l : list value) : nat := _) in *.
    assert (forall l x n,
              Forall (fun v => forall fuel depth r,
                        length (toks v) <= fuel ->
                        depth + nesting v <= maxNestingDepth ->
                        parse_value fuel depth (toks v ++ r) = Some (v, r))
                     (x :: l) ->
              length (toks x ++ rest l ++ [TRBracket]) <= n ->
              S depth + (nesting x `max` most l) <= maxNestingDepth ->
              parse_elems n (S depth) (toks x ++ rest l ++ TRBracket :: r)
              = Some (x :: l, r)) as Helems.
    { clear. induction l as [|y l IHl]; intros x n Hall Hn Hdepth.
      - apply Forall_cons in Hall as [Hx _]. cbn [rest app] in *.
        rewrite length_app in Hn. cbn [length] in Hn.
        destruct n as [|n]; [lia|]. cbn [parse_elems].
        rewrite Hx by (cbn [most] in Hdepth; lia). reflexivity.
      - apply Forall_cons in Hall as [Hx Hall]. cbn [rest most] in *.
        rewrite !length_app in Hn. cbn [length] in Hn.
        rewrite length_app in Hn.
        destruct n as [|n]; [lia|]. cbn [parse_elems].
        rewrite Hx by lia. cbn [mbind option_bind app].
        rewrite <- app_assoc.
        rewrite (IHl y n Hall); [reflexivity| |lia].
        rewrite !length_app. cbn [length]. lia. }
    cbn [app]. rewrite parse_array_step.
    + rewrite <- !app_assoc. cbn [app].
      rewrite (Helems vs v0 fuel IH); [reflexivity| |lia].
      cbn [length] in Hf. lia.
    + lia.
    + intros r' Hr. destruct (toks_head v0) as (t & ts & Ht & Hne & _).
      rewrite Ht in Hr. cbn in Hr. congruence.
  - destruct fuel as [|fuel]; [pose proof (toks_length (Object ms)); lia|].
    destruct ms as [|[k0 v0] ms].
    { cbn [toks app parse_value]. cbn [nesting] in Hd.
      rewrite decide_False by lia. reflexivity. }
    cbn [toks nesting] in *.
    set (rest := fix rest (l : list (string * value)) : list token := _) in *.
    set (most := fix most (l : list (string * value)) : nat := _) in *.
    assert (forall l k x n,
              Forall (fun m => forall fuel depth r,
                        length (toks m.2) <= fuel ->
                        depth + nesting m.2 <= maxNestingDepth ->
                        parse_value fuel depth (toks m.2 ++ r) = Some (m.2, r))
                     ((k, x) :: l) ->
              length (TString k :: TColon :: toks x ++ rest l ++ [TRBrace]) <= n ->
              S depth + (nesting x `max` most l) <= maxNestingDepth ->
              parse_members n (S depth)
                (TString k :: TColon :: toks x ++ rest l ++ TRBrace :: r)
              = Some ((k, x) :: l, r)) as Hmembers.
    { clear. induction l as [|[k' y] l IHl]; intros k x n Hall Hn Hdepth.
      - apply Forall_cons in Hall as [Hx _]. cbn [rest app snd] in *.
        cbn [length] in Hn. rewrite length_app in Hn. cbn [length] in Hn.
        destruct n as [|n]; [lia|]. cbn [parse_members].
        rewrite Hx by (cbn [most] in Hdepth; lia). reflexivity.
      - apply Forall_cons in Hall as [Hx Hall]. cbn [rest most snd] in *.
        cbn [length] in Hn. rewrite !length_app in Hn. cbn [length] in Hn.
        rewrite length_app in Hn.
        destruct n as [|n]; [lia|]. cbn [parse_members].
        rewrite Hx by lia. cbn [mbind option_bind app].
        rewrite <- app_assoc.
        rewrite (IHl k' y n Hall); [reflexivity| |lia].
        cbn [length]. rewrite !length_app. cbn [length]. lia. }
    cbn [app]. rewrite parse_object_step.
    + rewrite <- !app_assoc. cbn [app].
      rewrite (Hmembers ms k0 v0 fuel IH); [reflexivity| |lia].
      cbn [length] in Hf. cbn [length]. lia.
    + lia.
    + intros r' Hr. discriminate Hr.
Qed.

(** X25: what [MarshalIndent] writes, the parser reads back.  For
    every value made of ASCII strings, arrays and objects that is nested
    no deeper than the parser allows, and every indentation made of white
    space, parsing the text of the value gives the value; so the text of
    the health report and of the language list is JSON for the record that
    was serialised. *)
Theorem MarshalIndent_round_trip v indent :
  textual v -> blank indent -> nesting v <= maxNestingDepth ->
  Json.parse (Marshal.MarshalIndent v indent) = Some v.
Proof.
  intros Hv Hi Hd. unfold Json.parse, tokens, Marshal.MarshalIndent.
  rewrite scan_steps, (steps_encode indent Hi v Hv 0).
  cbn [mbind option_bind finish word_token fmap option_fmap option_map].
  rewrite app_nil_r. unfold parse_tokens.
  rewrite <- (app_nil_r (toks v)) at 2.
  rewrite parse_toks; [reflexivity|lia|exact Hd].
Qed.

Lemma MarshalIndent_round_trip_witness :
  Json.parse (health_text "available" [JAVA; CSHARP])
  = Some (Marshal.of_HealthCheckResponse
            {| Status := "healthy"; Version := VERSION;
               LLMServiceStatus := "available";
               SupportedLanguages := [JAVA; CSHARP] |}).
Proof.
  apply (MarshalIndent_round_trip
           (Marshal.of_HealthCheckResponse
              {| Status := "healthy"; Version := VERSION;
                 LLMServiceStatus := "available";
                 SupportedLanguages := [JAVA; CSHARP] |}) "  ").
  - unfold ascii_text. vm_compute. repeat split; repeat constructor.
  - unfold blank. vm_compute. repeat constructor.
  - apply Nat.leb_le. vm_compute. reflexivity.
Defined.


(** ** Line comments, and extensions that decide *)

Lemma match_here_line_some t :
  is_Some (match_here singleLineComment (line_open ++ t)).
Proof.
  unfold match_here, singleLineComment. cbn [cats run].
  rewrite (run_lit_app line_open t). cbn [run].
  destruct (rep_greedy_total cls_dot
              (fun s' : list ascii => Some (s', ([] : captures)))
              ltac:(eauto) t) as (m & rest & _ & _ & ->).
  eauto.
Qed.

Lemma match_here_line_length s rest cs :
  match_here singleLineComment s = Some (rest, cs) ->
  exists n, length s - length rest = S n.
Proof.
  destruct (starts_with line_open s) eqn:Hs.
  - apply starts_with_true in Hs as [t ->]. intros H.
    destruct (match_here_line _ _ _ H) as (m & Hm & _).
    assert (length (line_open ++ t) = length m + length rest) as Hl
      by (rewrite Hm; apply length_app).
    unfold match_here, singleLineComment in H. cbn [cats run] in H.
    rewrite (run_lit_app line_open t) in H. cbn [run] in H.
    destruct (rep_greedy_total cls_dot
                (fun s' : list ascii => Some (s', ([] : captures)))
                ltac:(eauto) t) as (m' & rest' & Ht & _ & Hr).
    rewrite Hr in H. injection H as <- _.
    subst t. rewrite !length_app in *. cbn [length line_open] in *.
    exists (S (length m')). cbn. lia.
  - rewrite (match_here_line_none s Hs). discriminate.
Qed.

Lemma starts_with_line_open c s :
  starts_with line_open (c :: s) = true ↔ c = "/"%char ∧ ¬ no_slash_head s.
Proof.
  unfold line_open. cbn [Bytes.of_string list_ascii_of_string starts_with].
  unfold Bytes.eq. split.
  - intros H. apply andb_true_iff in H as [Hc H]. apply Ascii.eqb_eq in Hc.
    split; [congruence|]. destruct s as [|d s]; [discriminate|].
    cbn [starts_with] in H. rewrite andb_true_r in H.
    apply Ascii.eqb_eq in H. cbn. intros Hd. congruence.
  - intros [-> Hs]. rewrite Ascii.eqb_refl. cbn [andb].
    destruct s as [|d s]; [exfalso; apply Hs; exact I|].
    cbn [starts_with]. rewrite andb_true_r. apply Ascii.eqb_eq.
    destruct (decide (d = "/"%char)) as [->|Hd]; [reflexivity|].
    exfalso. apply Hs. exact Hd.
Qed.

(** After the line comments are deleted no marker of a line comment is
    left, and text that does not begin with a slash still does not. *)
Lemma replace_line_comments s : forall skip fresh,
  contains line_open (replace_from singleLineComment [] skip fresh s) = false
  ∧ (skip = 0 -> no_slash_head s ->
     no_slash_head (replace_from singleLineComment [] skip fresh s)).
Proof.
  induction s as [|c s IH]; intros skip fresh.
  - destruct skip; cbn [replace_from]; [|split; [reflexivity|discriminate]].
    destruct (match_here singleLineComment []) as [[rest cs]|];
      [|split; [reflexivity|intros _ _; exact I]].
    destruct (length [] - length rest); destruct fresh;
      split; first [reflexivity|intros _ _; exact I].
  - destruct skip as [|n]; cbn [replace_from].
    2:{ split; [apply IH|discriminate]. }
    assert (starts_with line_open (c :: s) = false ->
            contains line_open (c :: replace_from singleLineComment [] 0 true s)
            = false
            ∧ (no_slash_head (c :: s) ->
               no_slash_head (c :: replace_from singleLineComment [] 0 true s)))
      as Hkeep.
    { intros Hs. split; [|intros H; exact H].
      rewrite contains_cons, (proj1 (IH 0 true)), orb_false_r.
      apply not_true_is_false. intros Ho.
      apply starts_with_line_open in Ho as [-> Ho].
      apply Ho. apply (proj2 (IH 0 true) eq_refl).
      destruct s as [|d s]; [exact I|]. cbn. intros ->.
      discriminate Hs. }
    destruct (match_here singleLineComment (c :: s)) as [[rest cs]|] eqn:Hm.
    + destruct (match_here_line_length _ _ _ Hm) as [n ->]. cbn [app].
      split; [apply IH|intros _ Hh].
      exfalso. destruct (starts_with line_open (c :: s)) eqn:Hs.
      * apply starts_with_line_open in Hs as [-> _]. apply Hh. reflexivity.
      * rewrite (match_here_line_none _ Hs) in Hm. discriminate.
    + destruct (starts_with line_open (c :: s)) eqn:Hs.
      * apply starts_with_true in Hs as [t Ht]. rewrite Ht in Hm.
        destruct (match_here_line_some t) as [x Hx]. congruence.
      * destruct (Hkeep eq_refl) as [H1 H2]. split; [exact H1|intros _; exact H2].
Qed.

(** A greedy repetition before a continuation that always succeeds
    stops at the first byte outside the class. *)
Lemma rep_greedy_max {A} p (k : list ascii -> option A) :
  (forall x, is_Some (k x)) ->
  forall t, exists m rest,
    t = m ++ rest ∧ Forall (fun c => p c = true) m
    ∧ match rest with c :: _ => p c = false | [] => True end
    ∧ rep_greedy p t k = k rest.
Proof.
  intros Hk. induction t as [|c t (m & rest & -> & Hm & Hr & IH)].
  - exists [], []. repeat split. constructor.
  - cbn [rep_greedy]. destruct (p c) eqn:Hc.
    + exists (c :: m), rest. split; [reflexivity|].
      split; [constructor; assumption|]. split; [exact Hr|].
      rewrite IH. destruct (Hk rest) as [a ->]. reflexivity.
    + exists [], (c :: m ++ rest).
      split; [reflexivity|]. split; [constructor|]. split; [exact Hc|reflexivity].
Qed.

(** A line comment as the pattern matches it: the two slashes and all
    that follows up to the end of the line. *)
Lemma match_here_line_shape t :
  exists m rest,
    t = m ++ rest
    ∧ Forall (fun c => c ≠ Bytes.nl) m
    ∧ match rest with c :: _ => c = Bytes.nl | [] => True end
    ∧ match_here singleLineComment (line_open ++ t) = Some (rest, []).
Proof.
  unfold match_here, singleLineComment. cbn [cats run].
  rewrite (run_lit_app line_open t). cbn [run].
  destruct (rep_greedy_max cls_dot
              (fun s' : list ascii => Some (s', ([] : captures)))
              ltac:(eauto) t) as (m & rest & -> & Hm & Hr & ->).
  exists m, rest. split; [reflexivity|]. split.
  - eapply Forall_impl; [exact Hm|]. intros c. apply cls_dot_not_nl.
  - split; [|reflexivity]. destruct rest as [|c rest]; [exact I|].
    unfold cls_dot, Bytes.eq in Hr. apply negb_false_iff, Ascii.eqb_eq in Hr.
    congruence.
Qed.

Lemma replace_from_skip r repl m : forall rest,
  replace_from r repl (length m) false (m ++ rest)
  = replace_from r repl 0 false rest.
Proof.
  induction m as [|c m IH]; intros rest; [reflexivity|].
  cbn [length app replace_from]. apply IH.
Qed.

Lemma cut_in_comment m : forall rest,
  Forall (fun c => c ≠ Bytes.nl) m ->
  match rest with c :: _ => c = Bytes.nl | [] => True end ->
  cut_line_comments true (m ++ rest) = cut_line_comments false rest.
Proof.
  induction m as [|c m IH]; intros rest Hm Hr.
  - destruct rest as [|c rest]; [reflexivity|]. subst c.
    cbn [app cut_line_comments]. rewrite eq_refl_byte. reflexivity.
  - apply Forall_cons in Hm as [Hc Hm]. cbn [app cut_line_comments].
    replace (Bytes.eq Bytes.nl c) with false
      by (symmetry; apply Ascii.eqb_neq; congruence).
    apply IH; assumption.
Qed.

(** Deleting the matches of the line-comment pattern cuts every line at
    its first [//]. *)
Lemma replace_line_comments_cut n : forall s fresh,
  length s <= n ->
  replace_from singleLineComment [] 0 fresh s = cut_line_comments false s.
Proof.
  induction n as [|n IH]; intros s fresh Hn.
  { destruct s; [|cbn in Hn; lia]. cbn [replace_from cut_line_comments].
    rewrite (match_here_line_none [] eq_refl). reflexivity. }
  destruct s as [|c s].
  { cbn [replace_from cut_line_comments].
    rewrite (match_here_line_none [] eq_refl). reflexivity. }
  cbn [length] in Hn.
  destruct (starts_with line_open (c :: s)) eqn:Hs.
  - pose proof Hs as Hs'. apply starts_with_true in Hs' as [t Ht].
    destruct (match_here_line_shape t) as (m & rest & -> & Hm & Hr & Hmatch).
    assert (c = "/"%char ∧ s = "/"%char :: m ++ rest) as [-> ->]
      by (injection Ht as -> ->; auto).
    cbn [replace_from].
    change ("/"%char :: "/"%char :: m ++ rest) with (line_open ++ m ++ rest).
    rewrite Hmatch.
    replace (length (line_open ++ m ++ rest) - length rest)
      with (S (length ("/"%char :: m)))
      by (rewrite !length_app; cbn [length line_open]; cbn; lia).
    cbn [app line_open Bytes.of_string list_ascii_of_string length].
    rewrite replace_from_skip.
    rewrite IH by (cbn [length] in Hn; rewrite length_app in Hn; lia).
    cbn [cut_line_comments].
    change (Bytes.eq Bytes.nl "/") with false. cbn iota.
    rewrite Hs.
    cbn [cut_line_comments]. change (Bytes.eq Bytes.nl "/") with false.
    cbn iota. symmetry. apply cut_in_comment; assumption.
  - cbn [replace_from]. rewrite (match_here_line_none _ Hs).
    rewrite IH by lia. cbn [cut_line_comments]. rewrite Hs.
    destruct (Bytes.eq Bytes.nl c); reflexivity.
Qed.

(** X26: for each of the four languages, [PreprocessCode] returns
    the code without its block comments and with every line cut at its
    first [//]: all that stands from the [//] to the end of the line is
    deleted and the newline stays, also when the [//] stands inside a
    string literal such as a URL; so the result holds no [//]. *)
Theorem PreprocessCode_leaves_no_line_comment code language :
  language ∈ all_languages ->
  PreprocessCode code language
  = Bytes.to_string
      (cut_line_comments false
         (Bytes.of_string (ReplaceAllString multiLineComment code "")))
  ∧ (contains block_open (Bytes.of_string code) = false ->
     PreprocessCode code language
     = Bytes.to_string (cut_line_comments false (Bytes.of_string code)))
  ∧ contains line_open (Bytes.of_string (PreprocessCode code language)) = false.
Proof.
  intros Hl. unfold PreprocessCode, removeComments.
  rewrite decide_True.
  2:{ unfold all_languages in Hl. rewrite !elem_of_cons in Hl.
      destruct Hl as [->|[->|[->|[->|H]]]]; [auto..|inversion H]. }
  assert (forall text : string,
            ReplaceAllString singleLineComment text ""
            = Bytes.to_string (cut_line_comments false (Bytes.of_string text)))
    as Hcut.
  { intros text. unfold ReplaceAllString. f_equal.
    apply (replace_line_comments_cut (length (Bytes.of_string text))). lia. }
  split; [apply Hcut|]. split.
  - intros Hb. rewrite (no_block_comment code Hb). apply Hcut.
  - unfold ReplaceAllString at 1. rewrite of_to_string.
    apply replace_line_comments.
Qed.

Lemma PreprocessCode_leaves_no_line_comment_witness :
  PreprocessCode url_code JAVA
  = Bytes.to_string (cut_line_comments false (Bytes.of_string url_code))
  ∧ contains line_open (Bytes.of_string (PreprocessCode url_code JAVA)) = false.
Proof.
  destruct (PreprocessCode_leaves_no_line_comment url_code JAVA
              ltac:(apply (bool_decide_unpack _); vm_compute; exact I))
    as (_ & H1 & H2).
  split; [apply H1; vm_compute; reflexivity|exact H2].
Defined.

(** X27: for a path that ends in .java or .cs, in any letter case
    and after any stem, [Detect] returns the language of the extension
    whatever the code holds; the content stage has no say. *)
Theorem extension_overrides_content ld v1 v2 code (stem e : string) tag :
  (ToLower e, tag) ∈ extension_table ->
  ¬ ambiguous tag ->
  Detector.Detect ld v1 v2 code (stem +:+ e) = tag.
Proof.
  intros Ht Ha.
  destruct (extension_table_shape _ _ Ht) as (x & Hx & Hfx).
  destruct (ToLower_extension e x Hx Hfx) as (e' & -> & Hfe).
  destruct (DetectFromExtension_table (stem +:+ Bytes.to_string ("."%char :: e'))
              _ tag ltac:(rewrite (Ext_suffix stem e' Hfe); reflexivity) Ht)
    as (Hne & Hd & Hu).
  unfold Detector.Detect. rewrite decide_True by exact Hne. cbn zeta.
  rewrite Hd. rewrite decide_True by exact Hu.
  rewrite decide_False by exact Ha. reflexivity.
Qed.

Lemma extension_overrides_content_witness :
  Detector.Detect NewLanguageDetector visit_ts_first visit_ts_first tie_code
    ("legacy/Widget" +:+ ".CS") = CSHARP.
Proof.
  apply (extension_overrides_content NewLanguageDetector visit_ts_first
           visit_ts_first tie_code "legacy/Widget" ".CS" CSHARP).
  - apply (bool_decide_unpack _). vm_compute. exact I.
  - intros [H|H]; discriminate H.
Defined.


(** ** The report of a successful analysis *)

Lemma outcome_success a e code filePath response issues :
  llm_analyze e (PreprocessCode code (Analyzers.Language (base a)))
    (GetSecurityRulesPrompt a e) = inl response ->
  parseIssuesFromResponse e response filePath = inl issues ->
  outcome a e code filePath
  = inl (result_of e (Analyzers.Language (base a)) issues).
Proof.
  intros H Hp. unfold outcome, Analyzers.Analyze, AnalyzeWithLLM,
    LLMService.Analyze, bind, record, ret. rewrite H, Hp. reflexivity.
Qed.

(** X28: when the backend replies and the reply decodes to a list
    of findings, [analyze_security] prints the report of exactly those
    findings.  With a usable [code] argument and an analyzer registered for
    the language the handler settles on, the handler makes the calls of
    the classifier it needs, then the one call of the backend, and prints
    the one response whose result is the report of the result made of
    those findings, their summary and metadata, and the language of that
    analyzer. *)
Theorem analysis_reported s e id args code a response issues w :
  valid_code args code ->
  analyzers s !! resolved_language s e args code = Some a ->
  llm_analyze e (PreprocessCode code (Analyzers.Language (base a)))
    (GetSecurityRulesPrompt a e) = inl response ->
  parseIssuesFromResponse e response (requested "file_path" args)
  = inl issues ->
  handleAnalyzeSecurity s e id args w
  = (tt, {| calls := calls w ++ detector_calls args code ++
              [CallAnalyze (PreprocessCode code (Analyzers.Language (base a)))
                           (GetSecurityRulesPrompt a e)];
            stdout := stdout w ++
              [result_response id
                 (FormatAsMarkdown
                    (result_of e (Analyzers.Language (base a)) issues))] |}).
Proof.
  intros Hc Ha Hb Hp.
  rewrite (handleAnalyzeSecurity_analyzed s e id args code a w Hc Ha).
  rewrite (outcome_success a e code _ response issues Hb Hp). reflexivity.
Qed.

Lemma analysis_reported_witness :
  handleAnalyzeSecurity NewMCPServer (sample_env (inl "[]") (Response 200))
    (Number "1") java_args initial
  = (tt, {| calls := [CallAnalyze "class A {}" "java rules"];
            stdout :=
              [result_response (Number "1")
                 (FormatAsMarkdown
                    (result_of (sample_env (inl "[]") (Response 200))
                       JAVA []))] |}).
Proof.
  apply (analysis_reported NewMCPServer (sample_env (inl "[]") (Response 200))
           (Number "1") java_args "class A {}" NewJavaAnalyzer "[]" [] initial).
  - split; [reflexivity|discriminate].
  - reflexivity.
  - reflexivity.
  - vm_compute. reflexivity.
Defined.
